(** * meshtastic-docker: version selection, build orchestration, image lookup

    A shallow embedding of the two command scripts of the repository:
    the image builder ([Build], the script that defines [buildSequentially])
    and the shell launcher ([Shell], the script that defines
    [findImageForVersion]).  JavaScript strings are modelled as Rocq strings
    whose characters are code units below 256, numbers that are non-negative
    integers by the integer they are equal to (the rounding of a string of
    digits to a number is [Js.nearestNumber]), thrown exceptions as the
    [Throw] constructor of [result], child processes and command output as
    explicit arguments. *)

From Stdlib Require Import ZArith NArith Ascii String List Bool Lia.
From stdpp Require Import base list strings gmap pretty sorting.

(** ** JavaScript runtime helpers *)

Module Js.

(** A computation that either returns a value or throws an error carrying
    its message. *)
Inductive result (A : Type) : Type :=
| Return (a : A)
| Throw (msg : string).
Arguments Return {A} a.
Arguments Throw {A} msg.

Definition bind {A B : Type} (c : result A) (k : A -> result B) : result B :=
  match c with
  | Return a => k a
  | Throw msg => Throw msg
  end.

(** [try { c } catch (error) { return h }] *)
Definition tryCatch {A : Type} (c : result A) (h : string -> A) : A :=
  match c with
  | Return a => a
  | Throw msg => h msg
  end.

Definition isDigit (c : ascii) : bool :=
  ((48 <=? N_of_ascii c) && (N_of_ascii c <=? 57))%N.

Definition isLetter (c : ascii) : bool :=
  (((65 <=? N_of_ascii c) && (N_of_ascii c <=? 90))
   || ((97 <=? N_of_ascii c) && (N_of_ascii c <=? 122)))%N.

(** The character class [[a-zA-Z0-9-]]. *)
Definition isWordDash (c : ascii) : bool :=
  isDigit c || isLetter c || Ascii.eqb c "-".

(** The character class [[a-zA-Z0-9.-]]. *)
Definition isWordDotDash (c : ascii) : bool :=
  isWordDash c || Ascii.eqb c ".".

(** White space as [String.prototype.trim] sees it, among code units
    below 256: TAB, LF, VT, FF, CR, SPACE and NBSP. *)
Definition isSpace (c : ascii) : bool :=
  (((9 <=? N_of_ascii c) && (N_of_ascii c <=? 13))
   || (N_of_ascii c =? 32) || (N_of_ascii c =? 160))%N.

Definition isEmpty (s : string) : bool :=
  match s with
  | EmptyString => true
  | String _ _ => false
  end.

Fixpoint allChars (p : ascii -> bool) (s : string) : bool :=
  match s with
  | EmptyString => true
  | String c s' => p c && allChars p s'
  end.

(** Longest prefix of [s] whose characters satisfy [p], and the rest. *)
Fixpoint span (p : ascii -> bool) (s : string) : string * string :=
  match s with
  | EmptyString => (EmptyString, EmptyString)
  | String c s' =>
      if p c then let '(a, b) := span p s' in (String c a, b)
      else (EmptyString, s)
  end.

Fixpoint trimStart (s : string) : string :=
  match s with
  | EmptyString => EmptyString
  | String c s' => if isSpace c then trimStart s' else s
  end.

Fixpoint trimEnd (s : string) : string :=
  match s with
  | EmptyString => EmptyString
  | String c s' =>
      let t := trimEnd s' in
      if isSpace c && isEmpty t then EmptyString else String c t
  end.

Definition trim (s : string) : string := trimEnd (trimStart s).

(** [s.startsWith(p)], returning what follows the prefix. *)
Fixpoint stripPrefix (p s : string) : option string :=
  match p, s with
  | EmptyString, _ => Some s
  | String a p', String b s' =>
      if Ascii.eqb a b then stripPrefix p' s' else None
  | String _ _, EmptyString => None
  end.

(** [s.split(sep)] for a one-character separator. *)
Fixpoint split (sep : ascii) (s : string) : list string :=
  match s with
  | EmptyString => [EmptyString]
  | String c s' =>
      if Ascii.eqb c sep then EmptyString :: split sep s'
      else match split sep s' with
           | [] => [String c EmptyString]
           | w :: ws => String c w :: ws
           end
  end.

(** [l.join(sep)] *)
Fixpoint join (sep : string) (l : list string) : string :=
  match l with
  | [] => EmptyString
  | [w] => w
  | w :: ws => w +:+ sep +:+ join sep ws
  end.

Definition digitValue (c : ascii) : N := (N_of_ascii c - 48)%N.

Fixpoint digitsValue_go (acc : N) (s : string) : N :=
  match s with
  | EmptyString => acc
  | String c s' => digitsValue_go (10 * acc + digitValue c)%N s'
  end.

(** The integer a string of decimal digits writes. *)
Definition digitsValue (s : string) : N := digitsValue_go 0%N s.

(** The JavaScript number nearest to a non-negative integer, given by the
    integer it is equal to.  A number carries 53 significant bits: every
    integer up to 2^53 is a number, and a larger one is rounded to 53 bits,
    to the even neighbour when it lies half way.  Infinity, which the
    rounding reaches from 2^1024 - 2^970 on, is represented by 2^1024. *)
Definition nearestNumber (n : N) : N :=
  if (n <? 2 ^ 53)%N then n
  else
    let e := (N.log2 n - 52)%N in
    let q := N.shiftr n e in
    let r := N.land n (N.ones e) in
    let half := N.shiftl 1 (e - 1) in
    let q' :=
      if (r <? half)%N then q
      else if (half <? r)%N then (q + 1)%N
      else if N.even q then q else (q + 1)%N in
    N.min (N.shiftl q' e) (2 ^ 1024).

(** [+s] and [parseInt(s, 10)] on a string of decimal digits: the number
    nearest to the integer the digits write.  (The language asks for this
    number when there are at most 20 digits and lets an engine round from
    the first 20 digits when there are more; V8 and JavaScriptCore round
    the whole integer.) *)
Definition digitsNumber (s : string) : N := nearestNumber (digitsValue s).

(** [\d+] at the start of [s]: the digits and the rest. *)
Definition matchDigits (s : string) : option (string * string) :=
  let '(d, r) := span isDigit s in
  if isEmpty d then None else Some (d, r).

(** A literal character at the start of [s]. *)
Definition matchChar (c : ascii) (s : string) : option string :=
  match s with
  | String c' s' => if Ascii.eqb c c' then Some s' else None
  | EmptyString => None
  end.

(** [\d+\.\d+\.\d+] at the start of [s]: the three digit groups and the
    rest.  Every repetition is delimited by a character outside its class,
    so the greedy match is the only one. *)
Definition matchTriple (s : string) : option (string * string * string * string) :=
  match matchDigits s with
  | None => None
  | Some (d1, r1) =>
      match matchChar "." r1 with
      | None => None
      | Some r1' =>
          match matchDigits r1' with
          | None => None
          | Some (d2, r2) =>
              match matchChar "." r2 with
              | None => None
              | Some r2' =>
                  match matchDigits r2' with
                  | None => None
                  | Some (d3, r3) => Some (d1, d2, d3, r3)
                  end
              end
          end
      end
  end.

Definition tripleText (d1 d2 d3 : string) : string :=
  d1 +:+ "." +:+ d2 +:+ "." +:+ d3.

(** The line feed, and a text made of lines. *)
Definition LF : string := String "010" EmptyString.
Definition lines (l : list string) : string := join LF l.

(** Template literal interpolation of a number that is a non-negative
    integer below 10^21: its decimal digits.  (From 10^21 on a number is
    printed with an exponent; the scripts print the components of a parsed
    version, which are below 2^53, and build numbers.) *)
Definition showN (n : N) : string := pretty n.

End Js.

Notation "'let*' x ':=' c 'in' k" := (Js.bind c (fun x => k))
  (at level 10, x name, c at level 100, k at level 200).

(** ** The [semver] package

    The scripts import the npm package [semver], which is a dependency and
    not part of the repository.  This module models the four functions the
    scripts call ([valid], [parse], [compare], [satisfies]) in the package's
    default strict mode, after the Semantic Versioning 2.0.0 grammar and
    precedence rules the package implements, together with the package's
    limits on input length and on the size of the numeric components.
    The components [major], [minor] and [patch] are at most
    [MAX_SAFE_INTEGER], so they are exact.  A numeric prerelease identifier
    below [MAX_SAFE_INTEGER] is kept as a number; a larger one is kept as
    the string of its digits and turned into a number, which rounds it,
    each time it is compared.  Build metadata is checked by the grammar and
    then ignored, as precedence ignores it. *)

Module Semver.

(** A prerelease identifier: a number, or a string. *)
Inductive identifier : Type :=
| Numeric (n : N)
| Alnum (s : string).

#[global] Instance identifier_eq_dec : EqDecision identifier.
Proof. solve_decision. Defined.

Record SemVer : Type := mkSemVer {
  major : N;
  minor : N;
  patch : N;
  prerelease : list identifier
}.

Definition MAX_LENGTH : nat := 256.
Definition MAX_SAFE_INTEGER : N := 9007199254740991.

(** [0|[1-9]\d*] on a whole string of digits. *)
Definition isNumericIdentifier (d : string) : bool :=
  match d with
  | EmptyString => false
  | String "0" EmptyString => true
  | String "0" _ => false
  | String _ _ => Js.allChars Js.isDigit d
  end.

(** One dot-separated prerelease identifier: numeric without leading
    zeros, or made of [[a-zA-Z0-9-]] with at least one non-digit.  The
    constructor maps the identifiers through
    [if (/^[0-9]+$/.test(id)) { const num = +id; if (num >= 0 && num < MAX_SAFE_INTEGER) return num } return id]. *)
Definition parsePrereleaseId (s : string) : option identifier :=
  if Js.isEmpty s then None
  else if Js.allChars Js.isDigit s then
    if isNumericIdentifier s then
      if (Js.digitsNumber s <? MAX_SAFE_INTEGER)%N
      then Some (Numeric (Js.digitsNumber s))
      else Some (Alnum s)
    else None
  else if Js.allChars Js.isWordDash s then Some (Alnum s)
  else None.

Fixpoint parsePrereleaseIds (l : list string) : option (list identifier) :=
  match l with
  | [] => Some []
  | s :: l' =>
      match parsePrereleaseId s, parsePrereleaseIds l' with
      | Some i, Some ids => Some (i :: ids)
      | _, _ => None
      end
  end.

(** One dot-separated build identifier: [[a-zA-Z0-9-]+]. *)
Definition isBuildId (s : string) : bool :=
  negb (Js.isEmpty s) && Js.allChars Js.isWordDash s.

(** The optional [+build] part up to the end of the string. *)
Definition matchBuild (s : string) : bool :=
  match s with
  | EmptyString => true
  | String "+" b => forallb isBuildId (Js.split "." b)
  | String _ _ => false
  end.

(** What follows [major.minor.patch]: the optional prerelease, then the
    optional build metadata, then the end of the string. *)
Definition matchSuffix (s : string) : option (list identifier) :=
  match s with
  | String "-" s' =>
      let '(p, b) := Js.span (fun c => negb (Ascii.eqb c "+")) s' in
      match parsePrereleaseIds (Js.split "." p) with
      | Some ids => if matchBuild b then Some ids else None
      | None => None
      end
  | _ => if matchBuild s then Some [] else None
  end.

(** The strict grammar [^v?major.minor.patch(-prerelease)?(+build)?$]. *)
Definition matchFull (s : string) : option SemVer :=
  let s' := match Js.matchChar "v" s with Some r => r | None => s end in
  match Js.matchTriple s' with
  | None => None
  | Some (d1, d2, d3, r) =>
      if isNumericIdentifier d1 && isNumericIdentifier d2
         && isNumericIdentifier d3 then
        match matchSuffix r with
        | Some ids =>
            Some (mkSemVer (Js.digitsValue d1) (Js.digitsValue d2)
                           (Js.digitsValue d3) ids)
        | None => None
        end
      else None
  end.

(** [new SemVer(version)]: throws on a string that is too long, that does
    not match the grammar, or whose components exceed the safe range. *)
Definition construct (version : string) : Js.result SemVer :=
  if (MAX_LENGTH <? String.length version)%nat then
    Js.Throw ("version is longer than 256 characters")
  else
    match matchFull (Js.trim version) with
    | None => Js.Throw ("Invalid Version: " +:+ version)
    | Some v =>
        if (MAX_SAFE_INTEGER <? major v)%N then Js.Throw "Invalid major version"
        else if (MAX_SAFE_INTEGER <? minor v)%N then Js.Throw "Invalid minor version"
        else if (MAX_SAFE_INTEGER <? patch v)%N then Js.Throw "Invalid patch version"
        else Js.Return v
    end.

(** [semver.parse(version)]: the parsed version or null. *)
Definition parse (version : string) : option SemVer :=
  Js.tryCatch (let* v := construct version in Js.Return (Some v))
              (fun _ => None).

(** [semver.valid(version)], as a truth value. *)
Definition valid (version : string) : bool :=
  match parse version with
  | Some _ => true
  | None => false
  end.

(** [/^[0-9]+$/.test(a)] on an identifier, and the number [+a] it is
    compared as when the test holds. *)
Definition numberOf (a : identifier) : option N :=
  match a with
  | Numeric n => Some n
  | Alnum s =>
      if negb (Js.isEmpty s) && Js.allChars Js.isDigit s
      then Some (Js.digitsNumber s) else None
  end.

(** The string an identifier is compared as when it is not numeric. *)
Definition textOf (a : identifier) : string :=
  match a with
  | Numeric n => Js.showN n
  | Alnum s => s
  end.

(** [compareIdentifiers(a, b)]: two numeric identifiers are compared as
    numbers, a numeric one is below any other, two others are compared as
    strings. *)
Definition compareIdentifiers (a b : identifier) : comparison :=
  match numberOf a, numberOf b with
  | Some x, Some y => N.compare x y
  | Some _, None => Lt
  | None, Some _ => Gt
  | None, None => String.compare (textOf a) (textOf b)
  end.

Definition lexico (c d : comparison) : comparison :=
  match c with
  | Eq => d
  | _ => c
  end.

Definition compareMain (a b : SemVer) : comparison :=
  lexico (N.compare (major a) (major b))
    (lexico (N.compare (minor a) (minor b))
            (N.compare (patch a) (patch b))).

(** The loop of [comparePre]: identifiers that are strictly equal are
    skipped, and the first pair that is not decides,
    [if (a === b) continue; else return compareIdentifiers(a, b)]. *)
Fixpoint comparePreLoop (a b : list identifier) : comparison :=
  match a, b with
  | [], [] => Eq
  | _ :: _, [] => Gt
  | [], _ :: _ => Lt
  | x :: a', y :: b' =>
      if decide (x = y) then comparePreLoop a' b' else compareIdentifiers x y
  end.

(** A version without prerelease is greater than one with. *)
Definition comparePrerelease (pa pb : list identifier) : comparison :=
  match pa, pb with
  | _ :: _, [] => Lt
  | [], _ :: _ => Gt
  | [], [] => Eq
  | _ :: _, _ :: _ => comparePreLoop pa pb
  end.

Definition comparePre (a b : SemVer) : comparison :=
  comparePrerelease (prerelease a) (prerelease b).

(** [a.compare(b)]: [compareMain(b) || comparePre(b)].  (The method
    first returns 0 when the two version strings are equal, which the two
    comparisons give as well.) *)
Definition compareSemVer (a b : SemVer) : comparison :=
  lexico (compareMain a b) (comparePre a b).

Definition toNumber (c : comparison) : Z :=
  match c with
  | Lt => (-1)%Z
  | Eq => 0%Z
  | Gt => 1%Z
  end.

(** [semver.compare(a, b)]: -1, 0 or 1; throws when either argument is
    not a valid version. *)
Definition compare (a b : string) : Js.result Z :=
  let* va := construct a in
  let* vb := construct b in
  Js.Return (toNumber (compareSemVer va vb)).

Inductive operator : Type := OpLt | OpLe | OpGt | OpGe | OpEq.

Record Comparator : Type := mkComparator {
  op : operator;
  semver : SemVer
}.

Definition splitOperator (s : string) : operator * string :=
  match s with
  | String "<" (String "=" r) => (OpLe, r)
  | String ">" (String "=" r) => (OpGe, r)
  | String "<" r => (OpLt, r)
  | String ">" r => (OpGt, r)
  | String "=" r => (OpEq, r)
  | _ => (OpEq, s)
  end.

Definition parseComparator (s : string) : option Comparator :=
  let '(o, r) := splitOperator s in
  match Js.matchDigits r with
  | None => None
  | Some _ =>
      match parse r with
      | Some v => Some (mkComparator o v)
      | None => None
      end
  end.

Fixpoint parseComparators (l : list string) : option (list Comparator) :=
  match l with
  | [] => Some []
  | s :: l' =>
      match parseComparator s, parseComparators l' with
      | Some c, Some cs => Some (c :: cs)
      | _, _ => None
      end
  end.

Definition testComparator (v : SemVer) (c : Comparator) : bool :=
  match op c, compareSemVer v (semver c) with
  | OpLt, Lt => true
  | OpLe, (Lt | Eq) => true
  | OpGt, Gt => true
  | OpGe, (Gt | Eq) => true
  | OpEq, Eq => true
  | _, _ => false
  end.

Definition sameTuple (v w : SemVer) : bool :=
  ((major v =? major w) && (minor v =? minor w) && (patch v =? patch w))%N.

(** A version with a prerelease satisfies a comparator set only when some
    comparator of the set carries a prerelease on the same
    [major.minor.patch]. *)
Definition testSet (set : list Comparator) (v : SemVer) : bool :=
  forallb (testComparator v) set
  && match prerelease v with
     | [] => true
     | _ :: _ =>
         existsb (fun c => match prerelease (semver c) with
                           | [] => false
                           | _ :: _ => sameTuple (semver c) v
                           end) set
     end.

(** The ranges this module reads as the package does: primitive
    comparators, each an operator among [<], [<=], [>], [>=], [=] or none
    directly followed by a full [major.minor.patch] version, several of
    them separated by single spaces. *)
Definition isPrimitiveRange (range : string) : bool :=
  match parseComparators (Js.split " " range) with
  | Some _ => true
  | None => false
  end.

(** [semver.satisfies(version, range)] for the ranges of
    [isPrimitiveRange].  The other range forms of the package (hyphen, x,
    tilde and caret ranges, [||], a [v] or white space after the operator)
    are not modelled: the properties that depend on the answer are stated
    for primitive ranges. *)
Definition satisfies (version range : string) : bool :=
  match parseComparators (Js.split " " range) with
  | None => false
  | Some set =>
      match parse version with
      | None => false
      | Some v => testSet set v
      end
  end.

End Semver.

(** [Array.prototype.sort(cmp)].  The sort is stable, so for a comparator
    that is a consistent ordering the result is the one stable sorted
    arrangement, whatever algorithm the engine runs; insertion from the
    right computes it.  The comparator is not called on arrays of fewer
    than two elements, and an exception it throws leaves the sort.  For a
    comparator that is not a consistent ordering of the elements the
    language leaves the arrangement to the engine ([mayReturn] below). *)

Module JsArray.

Section Sort.
Context {A : Type}.
Variable cmp : A -> A -> Js.result Z.

Fixpoint insert (x : A) (l : list A) : Js.result (list A) :=
  match l with
  | [] => Js.Return [x]
  | y :: l' =>
      let* c := cmp x y in
      if (c <=? 0)%Z then Js.Return (x :: l)
      else let* r := insert x l' in Js.Return (y :: r)
  end.

Fixpoint sort (l : list A) : Js.result (list A) :=
  match l with
  | [] => Js.Return []
  | x :: l' => let* s := sort l' in insert x s
  end.
End Sort.

End JsArray.

(** ** The image builder *)

Module Build.

Definition BUILD_NUM : N := 1.
Definition IMAGE_NAME : string := "benallfree/meshtastic-docker".
Definition CONTAINER_RUNTIME : string := "docker".

Record VersionEntry : Type := mkEntry {
  tag : string;
  version : string
}.

(** [tag.replace(/^v/, '')] *)
Definition stripV (tag : string) : string :=
  match Js.matchChar "v" tag with
  | Some r => r
  | None => tag
  end.

(** [version.match(/^(\d+\.\d+\.\d+(?:-[a-zA-Z0-9.-]+)?)/)]: the first
    capture group, or none when the pattern does not match. *)
Definition matchVersion (s : string) : option string :=
  match Js.matchTriple s with
  | None => None
  | Some (d1, d2, d3, r) =>
      let main := Js.tripleText d1 d2 d3 in
      match Js.matchChar "-" r with
      | Some r' =>
          let '(p, _) := Js.span Js.isWordDotDash r' in
          if Js.isEmpty p then Some main else Some (main +:+ "-" +:+ p)
      | None => Some main
      end
  end.

(** The callback of [tags.map] in [getAllValidVersions]. *)
Definition extractVersion (tag : string) : VersionEntry :=
  let version := stripV tag in
  let version :=
    match matchVersion version with
    | Some m => m
    | None => version
    end in
  mkEntry tag version.

(** The comparator [(a, b) => semver.compare(b.version, a.version)]. *)
Definition newestFirst (a b : VersionEntry) : Js.result Z :=
  Semver.compare (version b) (version a).

(** The warning printed when nothing is valid is not modelled. *)
Definition getAllValidVersions (tags : list string) : Js.result (list VersionEntry) :=
  JsArray.sort newestFirst
    (filter (fun e => Semver.valid (version e) = true) (map extractVersion tags)).

Definition filterTagsBySemver (tags : list string) (minVersion : string)
  : Js.result (list VersionEntry) :=
  let* validVersions := getAllValidVersions tags in
  Js.Return
    (filter (fun e => Semver.satisfies (version e) minVersion = true) validVersions).

Definition getLatestTag (tags : list string) : Js.result (list VersionEntry) :=
  let* validVersions := getAllValidVersions tags in
  Js.Return
    match validVersions with
    | first :: _ => [first]
    | [] => []
    end.

(** The template literal [`${parsed.major}.${parsed.minor}`]. *)
Definition minorKey (parsed : Semver.SemVer) : string :=
  Js.showN (Semver.major parsed) +:+ "." +:+ Js.showN (Semver.minor parsed).

(** The body of the [for] loop of [getLatestPatchPerMinor], carrying the
    map [seen] and the array [result]. *)
Fixpoint latestPatchLoop (seen : gmap string bool) (result : list VersionEntry)
    (versions : list VersionEntry) : list VersionEntry :=
  match versions with
  | [] => result
  | e :: rest =>
      match Semver.parse (version e) with
      | None => latestPatchLoop seen result rest
      | Some parsed =>
          let k := minorKey parsed in
          match seen !! k with
          | Some _ => latestPatchLoop seen result rest
          | None => latestPatchLoop (<[k := true]> seen) (result ++ [e]) rest
          end
      end
  end.

Definition getLatestPatchPerMinor (versions : list VersionEntry) : list VersionEntry :=
  latestPatchLoop ∅ [] versions.

(** How a spawned child process ends: the [close] event with its exit
    code, an integer (null when a signal ended it), or the [error] event of
    a process that could not be spawned. *)
Inductive ProcessOutcome : Type :=
| Close (code : option Z)
| SpawnError (message : string).

(** The outside world of [spawn]: the outcome of a command line, given the
    command lines spawned before it. *)
Definition Spawner : Type := list (list string) -> list string -> ProcessOutcome.

Record BuildResult : Type := mkResult {
  builtVersion : string;
  imageTag : string;
  success : bool;
  error : option string
}.

(** Template literal interpolation of an exit code. *)
Definition showCode (code : option Z) : string :=
  match code with
  | Some c => pretty c
  | None => "null"
  end.

(** Truthiness of the [cacheCleanup] argument: null and the empty string
    are falsy. *)
Definition truthy (s : option string) : bool :=
  match s with
  | Some t => negb (Js.isEmpty t)
  | None => false
  end.

Definition fullTagOf (version : string) (buildNum : N) : string :=
  IMAGE_NAME +:+ ":" +:+ ("v" +:+ version +:+ "-" +:+ Js.showN buildNum).

Definition buildCommand (tag version : string) (buildNum : N)
    (cacheBust : string) (cacheCleanup : option string) : list string :=
  let fullTag := fullTagOf version buildNum in
  let buildArgs :=
    ["--build-arg"; "MESHTASTIC_VERSION=" +:+ tag;
     "--build-arg"; "CACHE_BUST=" +:+ cacheBust] in
  let buildArgs :=
    if truthy cacheCleanup then
      buildArgs ++ ["--build-arg"; "CACHE_CLEANUP=" +:+ default "" cacheCleanup]
    else buildArgs in
  CONTAINER_RUNTIME :: ["build"] ++ buildArgs ++ ["-t"; fullTag; "."].

(** [buildImage] spawns one build and resolves with its result; the second
    component is the list of command lines spawned so far.  Console and
    relayed output are not modelled. *)
Definition buildImage (spawn : Spawner) (tag version : string) (buildNum : N)
    (cacheBust : string) (cacheCleanup : option string)
    (spawned : list (list string)) : BuildResult * list (list string) :=
  let imageTag := "v" +:+ version +:+ "-" +:+ Js.showN buildNum in
  let command := buildCommand tag version buildNum cacheBust cacheCleanup in
  let result :=
    match spawn spawned command with
    | Close code =>
        if bool_decide (code = Some 0%Z) then mkResult version imageTag true None
        else mkResult version imageTag false (Some ("Exit code: " +:+ showCode code))
    | SpawnError message => mkResult version imageTag false (Some message)
    end in
  (result, spawned ++ [command]).

Fixpoint buildLoop (spawn : Spawner) (buildNum : N) (cacheBust : string)
    (cacheCleanup : option string) (results : list BuildResult)
    (versions : list VersionEntry) (spawned : list (list string))
  : list BuildResult * list (list string) :=
  match versions with
  | [] => (results, spawned)
  | e :: rest =>
      let '(result, spawned') :=
        buildImage spawn (tag e) (version e) buildNum cacheBust cacheCleanup spawned in
      buildLoop spawn buildNum cacheBust cacheCleanup (results ++ [result]) rest spawned'
  end.

Definition buildSequentially (spawn : Spawner) (versions : list VersionEntry)
    (buildNum : N) (cacheBust : string) (cacheCleanup : option string)
    (spawned : list (list string)) : list BuildResult * list (list string) :=
  buildLoop spawn buildNum cacheBust cacheCleanup [] versions spawned.

(** The selection of [main]: the versions to build for the [semver]
    argument and the [--all-patches] flag. *)
Definition selectVersions (tags : list string) (semverArg : string)
    (allPatches : bool) : Js.result (list VersionEntry) :=
  if String.eqb semverArg "latest" then getLatestTag tags
  else
    let* filteredVersions := filterTagsBySemver tags semverArg in
    if negb allPatches then Js.Return (getLatestPatchPerMinor filteredVersions)
    else Js.Return filteredVersions.

(** [stdout.split('\n').filter((tag) => tag.trim().length > 0)], on the
    output of the tag listing; a failed listing throws. *)
Definition fetchTags (listing : Js.result string) : Js.result (list string) :=
  match listing with
  | Js.Return stdout =>
      Js.Return (filter (fun t => Js.isEmpty (Js.trim t) = false)
                        (Js.split "010" stdout))
  | Js.Throw _ =>
      Js.Throw "Failed to fetch tags from firmware submodule. Make sure the submodule is initialized."
  end.

(** [value || fallback] on an optional string: undefined and the empty
    string are falsy. *)
Definition orElse (value : option string) (fallback : string) : string :=
  match value with
  | Some s => if Js.isEmpty s then fallback else s
  | None => fallback
  end.

(** What the command line parser hands to [main]: the positional argument
    [program.args[0]] and the options [cacheBust], [allPatches] and
    [cacheClean] (the paths collected from the repeated [--cache-clean]
    flag, in the order given). *)
Record Options : Type := mkOptions {
  positional : option string;
  cacheBustOption : option string;
  allPatchesOption : bool;
  cacheCleanOption : list string
}.

(** How a run of the build command ends: the exit status, the command
    lines spawned, and the build results. *)
Record Run : Type := mkRun {
  status : Z;
  spawnedBuilds : list (list string);
  buildResults : list BuildResult
}.

(** [main().catch(...)] of the build command.  [listing] is the outcome of
    the tag listing command.  A rejection of [main] and a failed build exit
    with status 1; a normal return leaves status 0.  Console output is not
    modelled. *)
Definition main (listing : Js.result string) (spawn : Spawner)
    (options : Options) : Run :=
  let semverArg := orElse (positional options) "latest" in
  let cacheBust := orElse (cacheBustOption options) "1" in
  let allPatches := allPatchesOption options in
  let cacheCleanupPaths := cacheCleanOption options in
  let cacheCleanup :=
    if (0 <? length cacheCleanupPaths)%nat
    then Some (Js.join " " cacheCleanupPaths) else None in
  match (let* tags := fetchTags listing in
         selectVersions tags semverArg allPatches) with
  | Js.Throw _ => mkRun 1 [] []
  | Js.Return [] => mkRun 0 [] []
  | Js.Return filteredVersions =>
      let '(results, spawned) :=
        buildSequentially spawn filteredVersions BUILD_NUM cacheBust cacheCleanup [] in
      let failed := filter (fun r => success r = false) results in
      if (0 <? length failed)%nat then mkRun 1 spawned results
      else mkRun 0 spawned results
  end.

End Build.

(** ** The shell launcher *)

Module Shell.

Definition IMAGE_NAME : string := "meshtastic-docker".
Definition CONTAINER_RUNTIME : string := "docker".

Record VersionEntry : Type := mkEntry {
  tag : string;
  version : string
}.

(** [stdout.split('\n').filter((tag) => tag.trim().length > 0)], on the
    output of the tag listing; a failed listing throws. *)
Definition fetchTags (listing : Js.result string) : Js.result (list string) :=
  match listing with
  | Js.Return stdout =>
      Js.Return (filter (fun t => Js.isEmpty (Js.trim t) = false)
                        (Js.split "010" stdout))
  | Js.Throw _ =>
      Js.Throw "Failed to fetch tags from firmware submodule. Make sure the submodule is initialized."
  end.

Definition extractVersion (tag : string) : VersionEntry :=
  let version := Build.stripV tag in
  let version :=
    match Build.matchVersion version with
    | Some m => m
    | None => version
    end in
  mkEntry tag version.

Definition getAllValidVersions (tags : list string) : Js.result (list VersionEntry) :=
  JsArray.sort (fun a b => Semver.compare (version b) (version a))
    (filter (fun e => Semver.valid (version e) = true) (map extractVersion tags)).

Definition getLatestTag (tags : list string) : Js.result (option VersionEntry) :=
  let* validVersions := getAllValidVersions tags in
  Js.Return (head validVersions).

(** An element of the array [images] of [findImageForVersion]; the build
    number is a number, given by the integer it is equal to. *)
Record Image : Type := mkImage {
  image : string;
  imageVersion : string;
  buildNum : N
}.

(** [-(\d+)$]: the digits of the build number. *)
Definition matchBuildNum (s : string) : option string :=
  match Js.matchChar "-" s with
  | Some r =>
      match Js.matchDigits r with
      | Some (d, EmptyString) => Some d
      | _ => None
      end
  | None => None
  end.

(** [[a-zA-Z0-9.-]+] followed by [-(\d+)$], where [run] is the longest
    stretch of characters of the class and [after] what follows it.  The
    repetition is greedy: the longest prefix of [run] is tried first and
    given back one character at a time.  Returns the prefix kept and the
    digits of the build number. *)
Fixpoint matchGroup (run after : string) : option (string * string) :=
  match run with
  | EmptyString => None
  | String c run' =>
      match matchGroup run' after with
      | Some (p, d) => Some (String c p, d)
      | None =>
          match matchBuildNum (run' +:+ after) with
          | Some d => Some (String c EmptyString, d)
          | None => None
          end
      end
  end.

(** [line.match(/^meshtastic-docker:v(\d+\.\d+\.\d+(?:-[a-zA-Z0-9.-]+)?)-(\d+)$/)]:
    the two capture groups.  The optional group is tried first, then
    skipped. *)
Definition matchImageLine (line : string) : option (string * string) :=
  match Js.stripPrefix "meshtastic-docker:v" line with
  | None => None
  | Some s =>
      match Js.matchTriple s with
      | None => None
      | Some (d1, d2, d3, r) =>
          let main := Js.tripleText d1 d2 d3 in
          let withGroup :=
            match Js.matchChar "-" r with
            | Some r' =>
                let '(run, after) := Js.span Js.isWordDotDash r' in
                match matchGroup run after with
                | Some (p, d) => Some (main +:+ "-" +:+ p, d)
                | None => None
                end
            | None => None
            end in
          match withGroup with
          | Some m => Some m
          | None =>
              match matchBuildNum r with
              | Some d => Some (main, d)
              | None => None
              end
          end
      end
  end.

(** The callback of [.map] in [findImageForVersion]; none stands for
    null.  The build number is [parseInt(match[2], 10)], a number. *)
Definition parseImageLine (line : string) : option Image :=
  match matchImageLine line with
  | Some (v, d) => Some (mkImage line v (Js.digitsNumber d))
  | None => None
  end.

(** The comparator of [findImageForVersion]: newest version first, then
    highest build number first.  The sort reads the sign of the difference
    of the two numbers, which is the sign of the difference of the integers
    that represent them (zero for two infinities, whose difference is
    NaN). *)
Definition newestImageFirst (a b : Image) : Js.result Z :=
  let* versionCompare := Semver.compare (imageVersion b) (imageVersion a) in
  if negb (versionCompare =? 0)%Z then Js.Return versionCompare
  else Js.Return (Z.of_N (buildNum b) - Z.of_N (buildNum a))%Z.

Definition truthy (s : option string) : bool :=
  match s with
  | Some t => negb (Js.isEmpty t)
  | None => false
  end.

(** The [try] block of [findImageForVersion].  [listing] is the outcome of
    the image listing command, [version] the argument, none when it is
    not given. *)
Definition findImageForVersion_try (listing : Js.result string)
    (version : option string) : Js.result (option string) :=
  let* stdout := listing in
  let* images :=
    JsArray.sort newestImageFirst
      (omap parseImageLine
         (filter (fun line => Js.isEmpty (Js.trim line) = false)
                 (Js.split "010" stdout))) in
  if truthy version then
    let matching :=
      find (fun img => String.eqb (imageVersion img) (default "" version)) images in
    Js.Return (option_map image matching)
  else
    Js.Return (option_map image (head images)).

Definition findImageForVersion (listing : Js.result string)
    (version : option string) : option string :=
  Js.tryCatch (findImageForVersion_try listing version) (fun _ => None).

(** The outside world of one run of the command: the outcomes of the
    image listing before and after a build, of the tag listing, of the
    build command run through [execSync], and of the interactive
    container process. *)
Record World : Type := mkWorld {
  imagesBefore : Js.result string;
  imagesAfter : Js.result string;
  tagListing : Js.result string;
  buildRun : Js.result unit;
  shellOutcome : Build.ProcessOutcome
}.

(** How the command ends: the status passed to [process.exit], and the
    command line of the container process when one was spawned. *)
Record Exit : Type := mkExit {
  exitCode : Z;
  launched : option (list string)
}.

(** [code || 0] *)
Definition orZero (code : option Z) : Z :=
  match code with
  | Some c => if (c =? 0)%Z then 0%Z else c
  | None => 0%Z
  end.

(** The end of [main]: spawn the container and exit from its [close] or
    [error] handler. *)
Definition openShell (w : World) (imageToUse : string) : Exit :=
  let command := [CONTAINER_RUNTIME; "run"; "-it"; "--rm"; imageToUse; "bash"] in
  match shellOutcome w with
  | Build.Close code => mkExit (orZero code) (Some command)
  | Build.SpawnError _ => mkExit 1 (Some command)
  end.

(** Find the image of [version], building it when it is absent. *)
Definition findOrBuild (w : World) (version : string) : Js.result (option string) :=
  match findImageForVersion (imagesBefore w) (Some version) with
  | Some img => Js.Return (Some img)
  | None =>
      let* _ := buildRun w in
      Js.Return (findImageForVersion (imagesAfter w) (Some version))
  end.

(** [main] up to the choice of the image; none stands for the
    [process.exit(1)] of a failed lookup. *)
Definition resolveImage (w : World) (versionArg : option string)
  : Js.result (option string) :=
  if truthy versionArg then findOrBuild w (default "" versionArg)
  else
    let* tags := fetchTags (tagListing w) in
    let* latest := getLatestTag tags in
    match latest with
    | None => Js.Return None
    | Some l => findOrBuild w (version l)
    end.

(** [main().catch(...)]: a rejection of [main] exits with status 1. *)
Definition main (w : World) (versionArg : option string) : Exit :=
  match resolveImage w versionArg with
  | Js.Return (Some imageToUse) => openShell w imageToUse
  | Js.Return None => mkExit 1 None
  | Js.Throw _ => mkExit 1 None
  end.

End Shell.

(** ** The first build script

    The script [build.js], the builder that tags its images
    [meshtastic-docker:v<version>-<buildNumber>] and builds in batches.
    Its tag functions are those of [Build]. *)

Module Batch.

Definition BUILD_NUM : N := 1.
Definition MAX_PARALLEL : nat := 3.
Definition IMAGE_NAME : string := "meshtastic-docker".
Definition CONTAINER_RUNTIME : string := "docker".

Definition fullTagOf (version : string) (buildNum : N) : string :=
  IMAGE_NAME +:+ ":" +:+ ("v" +:+ version +:+ "-" +:+ Js.showN buildNum).

Definition buildCommand (tag version : string) (buildNum : N) : list string :=
  [CONTAINER_RUNTIME; "build"; "--build-arg"; "MESHTASTIC_VERSION=" +:+ tag;
   "-t"; fullTagOf version buildNum; "."].

(** The result [buildImage] resolves with, for the outcome of the process
    it spawned. *)
Definition buildImage (outcome : Build.ProcessOutcome) (tag version : string)
    (buildNum : N) : Build.BuildResult :=
  let imageTag := "v" +:+ version +:+ "-" +:+ Js.showN buildNum in
  match outcome with
  | Build.Close code =>
      if bool_decide (code = Some 0%Z)
      then Build.mkResult version imageTag true None
      else Build.mkResult version imageTag false
             (Some ("Exit code: " +:+ Build.showCode code))
  | Build.SpawnError message =>
      Build.mkResult version imageTag false (Some message)
  end.

(** One batch: the builds of [batch] are spawned in order and awaited
    together; [Promise.all] keeps their results in the order of the batch.
    [outcomes] gives the outcome of the n-th process spawned by the run and
    [spawned] counts the processes spawned before the batch. *)
Definition buildBatch (outcomes : nat -> Build.ProcessOutcome)
    (buildNum : N) (spawned : nat) (batch : list Build.VersionEntry)
  : list Build.BuildResult :=
  imap (fun j e =>
          buildImage (outcomes (spawned + j)%nat) (Build.tag e) (Build.version e)
                     buildNum) batch.

(** The [for] loop of [buildInBatches], from index [i]; [fuel] bounds the
    number of iterations and none stands for a loop that is still running
    when the fuel is spent. *)
Fixpoint batchLoop (fuel : nat) (outcomes : nat -> Build.ProcessOutcome)
    (versions : list Build.VersionEntry) (buildNum : N) (maxParallel : nat)
    (i : nat) (results : list Build.BuildResult)
  : option (list Build.BuildResult) :=
  if (i <? length versions)%nat then
    match fuel with
    | O => None
    | S fuel' =>
        let batch := take maxParallel (drop i versions) in
        let batchResults := buildBatch outcomes buildNum i batch in
        batchLoop fuel' outcomes versions buildNum maxParallel
                  (i + maxParallel)%nat (results ++ batchResults)
    end
  else Some results.

Definition buildInBatches (fuel : nat) (outcomes : nat -> Build.ProcessOutcome)
    (versions : list Build.VersionEntry) (buildNum : N) (maxParallel : nat)
  : option (list Build.BuildResult) :=
  batchLoop fuel outcomes versions buildNum maxParallel 0 [].

End Batch.

(** ** Orderings and the pure view of the sort *)

(** A three-way comparison that is a total order. *)
Record CompareOrder {A : Type} (f : A -> A -> comparison) : Prop := {
  co_eq : forall x y, f x y = Eq -> x = y;
  co_refl : forall x, f x x = Eq;
  co_antisym : forall x y, f y x = CompOpp (f x y);
  co_trans : forall x y z, f x y = Lt -> f y z = Lt -> f x z = Lt
}.

(** The sort of [JsArray] for a comparator that never throws. *)
Module PureSort.
Section Pure.
Context {A : Type}.
Variable c : A -> A -> Z.

Fixpoint insert (x : A) (l : list A) : list A :=
  match l with
  | [] => [x]
  | y :: l' => if (c x y <=? 0)%Z then x :: l else y :: insert x l'
  end.

Fixpoint sort (l : list A) : list A :=
  match l with
  | [] => []
  | x :: l' => insert x (sort l')
  end.

(** [x] may stand before [y]. *)
Definition before (x y : A) : Prop := (c x y <= 0)%Z.

(** [x] and [y] tie. *)
Definition tie (x y : A) : bool := (c x y =? 0)%Z.
End Pure.
End PureSort.

(** The key a version string is ordered by; strings that are not versions
    get an arbitrary one. *)
Definition versionKey (version : string) : Semver.SemVer :=
  default (Semver.mkSemVer 0 0 0 []) (Semver.parse version).

(** [Build.newestFirst] on entries whose versions are valid. *)
Definition newestFirstPure (a b : Build.VersionEntry) : Z :=
  Semver.toNumber
    (Semver.compareSemVer (versionKey (Build.version b)) (versionKey (Build.version a))).

(** ** Precedence where the numbers are exact *)

(** Precedence as Semantic Versioning 2.0.0 defines it on parsed versions:
    numeric identifiers compared as integers, every pair of identifiers
    taking part.  The package computes it, on the identifiers read as
    integers ([readVersion] below), for the versions whose numeric
    identifiers are at most 2^53 ([exactVersion]). *)
Module Precedence.

Definition compareIdentifiers (a b : Semver.identifier) : comparison :=
  match a, b with
  | Semver.Numeric x, Semver.Numeric y => N.compare x y
  | Semver.Numeric _, Semver.Alnum _ => Lt
  | Semver.Alnum _, Semver.Numeric _ => Gt
  | Semver.Alnum x, Semver.Alnum y => String.compare x y
  end.

Fixpoint comparePreLoop (a b : list Semver.identifier) : comparison :=
  match a, b with
  | [], [] => Eq
  | _ :: _, [] => Gt
  | [], _ :: _ => Lt
  | x :: a', y :: b' =>
      Semver.lexico (compareIdentifiers x y) (comparePreLoop a' b')
  end.

Definition comparePrerelease (pa pb : list Semver.identifier) : comparison :=
  match pa, pb with
  | _ :: _, [] => Lt
  | [], _ :: _ => Gt
  | [], [] => Eq
  | _ :: _, _ :: _ => comparePreLoop pa pb
  end.

Definition compareSemVer (a b : Semver.SemVer) : comparison :=
  Semver.lexico (Semver.compareMain a b)
    (comparePrerelease (Semver.prerelease a) (Semver.prerelease b)).

End Precedence.

(** [/^[0-9]+$/.test(s)] *)
Definition isNumericString (s : string) : bool :=
  negb (Js.isEmpty s) && Js.allChars Js.isDigit s.

(** An identifier as Semantic Versioning reads it: a numeric identifier
    that the package keeps as the string of its digits is the integer the
    digits write. *)
Definition readIdentifier (a : Semver.identifier) : Semver.identifier :=
  match a with
  | Semver.Numeric n => Semver.Numeric n
  | Semver.Alnum s =>
      if isNumericString s then Semver.Numeric (Js.digitsValue s)
      else Semver.Alnum s
  end.

Definition readVersion (v : Semver.SemVer) : Semver.SemVer :=
  Semver.mkSemVer (Semver.major v) (Semver.minor v) (Semver.patch v)
    (map readIdentifier (Semver.prerelease v)).

(** What the constructor of the package keeps: a number is below
    [MAX_SAFE_INTEGER], and a string of digits is a numeric identifier that
    is not. *)
Definition wellFormed (a : Semver.identifier) : Prop :=
  match a with
  | Semver.Numeric n => (n < Semver.MAX_SAFE_INTEGER)%N
  | Semver.Alnum s =>
      isNumericString s = true ->
      Semver.isNumericIdentifier s = true
      /\ (Semver.MAX_SAFE_INTEGER <= Js.digitsValue s)%N
  end.

Definition wellFormedVersion (v : Semver.SemVer) : Prop :=
  Forall wellFormed (Semver.prerelease v).

(** A numeric identifier is at most 2^53, the integers up to which every
    integer is a JavaScript number: the package compares it exactly. *)
Definition exactIdentifier (a : Semver.identifier) : bool :=
  match a with
  | Semver.Numeric _ => true
  | Semver.Alnum s =>
      if isNumericString s then (Js.digitsValue s <=? 2 ^ 53)%N else true
  end.

Definition exactVersion (v : Semver.SemVer) : bool :=
  forallb exactIdentifier (Semver.prerelease v).

(** Every numeric prerelease identifier of the version is at most 2^53
    (strings that are not versions have none). *)
Definition safeIdentifiers (version : string) : bool :=
  exactVersion (versionKey version).

(** The versions extracted from the tags have their numeric prerelease
    identifiers at most 2^53. *)
Definition safeTags (tags : list string) : Prop :=
  Forall (fun tag =>
            safeIdentifiers (Build.version (Build.extractVersion tag)) = true)
         tags.

(** The images carry valid versions whose numeric prerelease identifiers
    are at most 2^53, and build numbers below 2^53, which [parseInt] reads
    exactly. *)
Definition safeImages (images : list Shell.Image) : Prop :=
  Forall (fun img => Semver.valid (Shell.imageVersion img) = true
                     /\ safeIdentifiers (Shell.imageVersion img) = true
                     /\ (Shell.buildNum img < 2 ^ 53)%N)
         images.

(** ** Vocabulary of the properties *)

(** The precedence of [a] is at least that of [b]:
    [semver.compare(a, b) >= 0]. *)
Definition notOlder (a b : string) : Prop :=
  exists c, Semver.compare a b = Js.Return c /\ (0 <= c)%Z.

(** The precedence of [a] is above that of [b]:
    [semver.compare(a, b) > 0]. *)
Definition newer (a b : string) : Prop :=
  exists c, Semver.compare a b = Js.Return c /\ (0 < c)%Z.

(** The entry's version has the precedence of [v]:
    [semver.compare(e.version, v) === 0]. *)
Definition sameVersion (v : string) (e : Build.VersionEntry) : bool :=
  match Semver.compare (Build.version e) v with
  | Js.Return c => (c =? 0)%Z
  | Js.Throw _ => false
  end.

(** What [getAllValidVersions] sorts: the entries extracted from the tags
    whose version is valid, in catalog order. *)
Definition validEntries (tags : list string) : list Build.VersionEntry :=
  filter (fun e => Semver.valid (Build.version e) = true)
         (map Build.extractVersion tags).

(** The [(major, minor)] pair of an entry; none when its version does not
    parse. *)
Definition minorOf (e : Build.VersionEntry) : option (N * N) :=
  match Semver.parse (Build.version e) with
  | Some parsed => Some (Semver.major parsed, Semver.minor parsed)
  | None => None
  end.

(** The collapse as the specification words it: one pass over the
    sequence that keeps an entry when its [(major, minor)] pair is not among
    the pairs met [earlier]. *)
Fixpoint collapse (earlier : list (N * N)) (versions : list Build.VersionEntry)
  : list Build.VersionEntry :=
  match versions with
  | [] => []
  | e :: rest =>
      match minorOf e with
      | None => collapse earlier rest
      | Some k =>
          if decide (k ∈ earlier) then collapse earlier rest
          else e :: collapse (k :: earlier) rest
      end
  end.

(** The map key of a [(major, minor)] pair. *)
Definition pairKey (k : N * N) : string :=
  Js.showN k.1 +:+ "." +:+ Js.showN k.2.

(** The command line [buildSequentially] spawns for an entry, written out
    for a build number that is a safe integer (below 2^53), which is
    printed as its decimal digits: the cache cleanup argument is passed
    when it is neither null nor empty. *)
Definition commandOf (buildNum : N) (cacheBust : string)
    (cacheCleanup : option string) (e : Build.VersionEntry) : list string :=
  ["docker"; "build";
   "--build-arg"; "MESHTASTIC_VERSION=" +:+ Build.tag e;
   "--build-arg"; "CACHE_BUST=" +:+ cacheBust]
  ++ match cacheCleanup with
     | Some (String c paths) =>
         ["--build-arg"; "CACHE_CLEANUP=" +:+ String c paths]
     | _ => []
     end
  ++ ["-t";
      "benallfree/meshtastic-docker:v" +:+ Build.version e +:+ "-"
        +:+ pretty buildNum;
      "."].

(** The build result [r] records the outcome [o] of a build.  The text of
    an exit code is stated for the safe integers, which are printed as
    their decimal digits. *)
Definition records (o : Build.ProcessOutcome) (r : Build.BuildResult) : Prop :=
  match o with
  | Build.Close (Some 0%Z) =>
      Build.success r = true /\ Build.error r = None
  | Build.Close (Some c) =>
      Build.success r = false
      /\ exists code,
           Build.error r = Some ("Exit code: " +:+ code)
           /\ ((Z.abs c < 2 ^ 53)%Z -> code = pretty c)
  | Build.Close None =>
      Build.success r = false /\ Build.error r = Some "Exit code: null"
  | Build.SpawnError message =>
      Build.success r = false /\ Build.error r = Some message
  end.

(** The outcome counts as a failed build. *)
Definition failed (o : Build.ProcessOutcome) : bool :=
  match o with
  | Build.Close (Some 0%Z) => false
  | _ => true
  end.

(** The images of a listing: what [findImageForVersion] parses from the
    output of the listing command before it sorts. *)
Definition listedImages (stdout : string) : list Shell.Image :=
  omap Shell.parseImageLine
    (filter (fun line => Js.isEmpty (Js.trim line) = false)
            (Js.split "010" stdout)).

(** [Shell.newestImageFirst] on images whose versions are valid. *)
Definition newestImageFirstPure (a b : Shell.Image) : Z :=
  let versionCompare :=
    Semver.toNumber
      (Semver.compareSemVer (versionKey (Shell.imageVersion b))
                            (versionKey (Shell.imageVersion a))) in
  if negb (versionCompare =? 0)%Z then versionCompare
  else (Z.of_N (Shell.buildNum b) - Z.of_N (Shell.buildNum a))%Z.

(** What an image is ordered by. *)
Definition imageKey (a : Shell.Image) : Semver.SemVer * N :=
  (readVersion (versionKey (Shell.imageVersion a)), Shell.buildNum a).

Definition compareImageKey (x y : Semver.SemVer * N) : comparison :=
  Semver.lexico (Precedence.compareSemVer x.1 y.1) (N.compare x.2 y.2).

(** The arguments [main] of the builder derives from its options: the
    [semver] argument ([latest] when the positional argument is absent or
    empty), the cache bust value (1 when the option is absent or empty),
    and the cache cleanup paths joined by spaces (null when there are
    none). *)
Definition semverArgOf (options : Build.Options) : string :=
  match Build.positional options with
  | Some (String c s) => String c s
  | _ => "latest"
  end.

Definition cacheBustOf (options : Build.Options) : string :=
  match Build.cacheBustOption options with
  | Some (String c s) => String c s
  | _ => "1"
  end.

Definition cacheCleanupOf (options : Build.Options) : option string :=
  if (0 <? length (Build.cacheCleanOption options))%nat
  then Some (Js.join " " (Build.cacheCleanOption options)) else None.

(** The entry of the builder seen as an entry of the launcher. *)
Definition toShellEntry (e : Build.VersionEntry) : Shell.VersionEntry :=
  Shell.mkEntry (Build.tag e) (Build.version e).

(** The string [b] does not start with a character of the class [p]: a
    greedy repetition of [p] stops in front of it. *)
Definition stopsAt (p : ascii -> bool) (b : string) : Prop :=
  match b with
  | EmptyString => True
  | String c _ => p c = false
  end.

(** The three digit groups of a [\d+\.\d+\.\d+] match. *)
Definition digitGroups (d1 d2 d3 : string) : Prop :=
  (Js.allChars Js.isDigit d1 = true /\ Js.isEmpty d1 = false)
  /\ (Js.allChars Js.isDigit d2 = true /\ Js.isEmpty d2 = false)
  /\ (Js.allChars Js.isDigit d3 = true /\ Js.isEmpty d3 = false).

(** ** What the language leaves to the engine *)

(** The comparator [c] is a consistent comparator for the elements of [l],
    as the language defines it: comparing an element with itself gives
    zero, and being equal, being below and being above are transitive,
    equality being symmetric as well. *)
Definition consistentOn {A : Type} (c : A -> A -> Z) (l : list A) : Prop :=
  (forall a, a ∈ l -> c a a = 0%Z)
  /\ (forall a b, a ∈ l -> b ∈ l -> c a b = 0%Z -> c b a = 0%Z)
  /\ (forall a b d, a ∈ l -> b ∈ l -> d ∈ l ->
        c a b = 0%Z -> c b d = 0%Z -> c a d = 0%Z)
  /\ (forall a b d, a ∈ l -> b ∈ l -> d ∈ l ->
        (c a b < 0)%Z -> (c b d < 0)%Z -> (c a d < 0)%Z)
  /\ (forall a b d, a ∈ l -> b ∈ l -> d ∈ l ->
        (c a b > 0)%Z -> (c b d > 0)%Z -> (c a d > 0)%Z).

(** The arrangements [l.sort(c)] may return for a comparator that does not
    throw: a rearrangement of [l], which is the stable sorted one when the
    comparator is consistent for the elements of [l], and which is the
    choice of the engine when it is not. *)
Definition mayReturn {A : Type} (c : A -> A -> Z) (l out : list A) : Prop :=
  out ≡ₚ l /\ (consistentOn c l -> out = PureSort.sort c l).

(** The catalogs [getAllValidVersions] may return. *)
Definition possibleCatalog (tags : list string) (out : list Build.VersionEntry)
  : Prop :=
  mayReturn newestFirstPure (validEntries tags) out.

(** Insertion sort from the left that finds the place of each element by
    binary search, the way engines sort short arrays; it is stable for a
    consistent comparator.  [search] narrows the place of [pivot] in the
    sorted prefix [l] between the positions [left] and [right]. *)
Module BinaryInsertion.
Section Sort.
Context {A : Type}.
Variable c : A -> A -> Z.

Fixpoint search (fuel : nat) (pivot : A) (l : list A) (left right : nat) : nat :=
  match fuel with
  | O => left
  | S fuel' =>
      if (left <? right)%nat then
        let mid := (left + (right - left) / 2)%nat in
        match l !! mid with
        | Some m =>
            if (c pivot m <? 0)%Z then search fuel' pivot l left mid
            else search fuel' pivot l (mid + 1)%nat right
        | None => left
        end
      else left
  end.

Definition insert (l : list A) (pivot : A) : list A :=
  let k := search (S (length l)) pivot l 0 (length l) in
  take k l ++ pivot :: drop k l.

Definition sort (l : list A) : list A := foldl insert [] l.
End Sort.
End BinaryInsertion.

(** The entry's version has its numeric identifiers at most 2^53. *)
Definition exactEntry (e : Build.VersionEntry) : Prop :=
  safeIdentifiers (Build.version e) = true.

(** The image's version has its numeric identifiers at most 2^53. *)
Definition exactImage (img : Shell.Image) : Prop :=
  safeIdentifiers (Shell.imageVersion img) = true.

(** * Properties *)

(** ** Laws of the orderings *)

Lemma lexico_assoc a b c :
  Semver.lexico (Semver.lexico a b) c = Semver.lexico a (Semver.lexico b c).
Proof. by destruct a. Qed.

Lemma N_compare_order : CompareOrder N.compare.
Proof.
  split.
  - intros x y. apply N.compare_eq.
  - apply N.compare_refl.
  - intros x y. apply N.compare_antisym.
  - intros x y z. rewrite !N.compare_lt_iff. lia.
Qed.

Lemma ascii_compare_order : CompareOrder Ascii.compare.
Proof.
  split.
  - apply Ascii.compare_eq_iff.
  - intros x. apply N.compare_refl.
  - intros x y. apply Ascii.compare_antisym.
  - intros x y z. unfold Ascii.compare. rewrite !N.compare_lt_iff. lia.
Qed.

Section Lexicographic.
Context {A B : Type}.
Variable fa : A -> A -> comparison.
Variable fb : B -> B -> comparison.
Hypothesis Ha : CompareOrder fa.
Hypothesis Hb : CompareOrder fb.

Lemma lexico_pair_order :
  CompareOrder (fun x y : A * B => Semver.lexico (fa x.1 y.1) (fb x.2 y.2)).
Proof.
  destruct Ha as [ea ra aa ta], Hb as [eb rb ab tb].
  split.
  - intros [a1 b1] [a2 b2]; simpl. destruct (fa a1 a2) eqn:E; simpl; try done.
    intros E'. by rewrite (ea _ _ E), (eb _ _ E').
  - intros [a b]; simpl. rewrite ra. apply rb.
  - intros [a1 b1] [a2 b2]; simpl. rewrite aa, ab.
    by destruct (fa a1 a2).
  - intros [a1 b1] [a2 b2] [a3 b3]; simpl.
    destruct (fa a1 a2) eqn:E12; simpl; try done.
    + apply ea in E12 as ->. destruct (fa a2 a3); simpl; try done. apply tb.
    + intros _. destruct (fa a2 a3) eqn:E23; simpl; try done.
      * apply ea in E23 as <-. by rewrite E12.
      * by rewrite (ta _ _ _ E12 E23).
Qed.
End Lexicographic.

Section ByKey.
Context {X K : Type}.
Variable g : X -> K.
Variable f : K -> K -> comparison.
Hypothesis Hg : forall x y, g x = g y -> x = y.
Hypothesis Hf : CompareOrder f.

Lemma by_key_order : CompareOrder (fun x y => f (g x) (g y)).
Proof.
  destruct Hf as [e r a t]. split.
  - intros x y E. by apply Hg, e.
  - intros x. apply r.
  - intros x y. apply a.
  - intros x y z. apply t.
Qed.
End ByKey.

Section OrderFacts.
Context {A : Type}.
Variable f : A -> A -> comparison.
Hypothesis Hf : CompareOrder f.

Lemma co_gt_lt x y : f x y = Gt -> f y x = Lt.
Proof. intros E. by rewrite (co_antisym f Hf), E. Qed.

Lemma co_le_trans x y z : f x y <> Gt -> f y z <> Gt -> f x z <> Gt.
Proof.
  intros H1 H2 H3.
  destruct (f x y) eqn:E1; try done.
  - apply (co_eq f Hf) in E1 as ->. done.
  - destruct (f y z) eqn:E2; try done.
    + apply (co_eq f Hf) in E2 as ->. congruence.
    + pose proof (co_trans f Hf _ _ _ E1 E2). congruence.
Qed.
End OrderFacts.

Lemma CompareOrder_ext {A : Type} (f g : A -> A -> comparison) :
  (forall x y, f x y = g x y) -> CompareOrder f -> CompareOrder g.
Proof.
  intros E [e r a t]. split.
  - intros x y. rewrite <- E. apply e.
  - intros x. rewrite <- E. apply r.
  - intros x y. rewrite <- !E. apply a.
  - intros x y z. rewrite <- !E. apply t.
Qed.

Lemma string_compare_order : CompareOrder String.compare.
Proof.
  destruct ascii_compare_order as [e r a t].
  split.
  - apply String.compare_eq_iff.
  - intros x. induction x as [|c x IH]; simpl; [done|]. by rewrite r.
  - intros x y. apply String.compare_antisym.
  - intros x. induction x as [|c x IH]; intros [|d y] [|k z]; simpl; try done.
    destruct (Ascii.compare c d) eqn:E1; try done.
    + apply e in E1 as ->. destruct (Ascii.compare d k); try done. apply IH.
    + intros _. destruct (Ascii.compare d k) eqn:E2; try done.
      * apply e in E2 as <-. by rewrite E1.
      * by rewrite (t _ _ _ E1 E2).
Qed.

Lemma precedence_identifiers_order : CompareOrder Precedence.compareIdentifiers.
Proof.
  destruct N_compare_order as [en rn an tn].
  destruct string_compare_order as [es rs as' ts].
  split.
  - intros [x|x] [y|y]; simpl; try done; intros E; f_equal; auto.
  - intros [x|x]; simpl; auto.
  - intros [x|x] [y|y]; simpl; auto.
  - intros [x|x] [y|y] [z|z]; simpl; try done; eauto.
Qed.

Lemma precedence_preLoop_order : CompareOrder Precedence.comparePreLoop.
Proof.
  destruct precedence_identifiers_order as [e r a t].
  split.
  - intros x. induction x as [|i x IH]; intros [|j y]; simpl; try done.
    destruct (Precedence.compareIdentifiers i j) eqn:E; simpl; try done.
    intros E'. apply e in E as ->. f_equal. by apply IH.
  - intros x. induction x as [|i x IH]; simpl; [done|]. by rewrite r.
  - intros x. induction x as [|i x IH]; intros [|j y]; simpl; try done.
    rewrite a, IH. by destruct (Precedence.compareIdentifiers i j).
  - intros x. induction x as [|i x IH]; intros [|j y] [|k z]; simpl; try done.
    destruct (Precedence.compareIdentifiers i j) eqn:E1; simpl; try done.
    + apply e in E1 as ->.
      destruct (Precedence.compareIdentifiers j k); simpl; try done. apply IH.
    + intros _. destruct (Precedence.compareIdentifiers j k) eqn:E2; simpl; try done.
      * apply e in E2 as <-. by rewrite E1.
      * by rewrite (t _ _ _ E1 E2).
Qed.

Lemma precedence_prerelease_order : CompareOrder Precedence.comparePrerelease.
Proof.
  destruct precedence_preLoop_order as [e r a t].
  split.
  - intros [|i x] [|j y]; try done. apply e.
  - intros [|i x]; [done|]. apply r.
  - intros [|i x] [|j y]; try done. apply a.
  - intros [|i x] [|j y] [|k z]; try done. apply t.
Qed.

(** Precedence of parsed versions is a total order. *)
Lemma precedence_order : CompareOrder Precedence.compareSemVer.
Proof.
  pose (g := fun v : Semver.SemVer =>
    (Semver.major v, (Semver.minor v, (Semver.patch v, Semver.prerelease v)))).
  pose proof (lexico_pair_order _ _ N_compare_order precedence_prerelease_order) as H3.
  pose proof (lexico_pair_order _ _ N_compare_order H3) as H2.
  pose proof (lexico_pair_order _ _ N_compare_order H2) as H1.
  assert (Hg : forall x y, g x = g y -> x = y).
  { intros [a b c d] [a' b' c' d']. unfold g; simpl. congruence. }
  pose proof (by_key_order g _ Hg H1) as Hk.
  revert Hk. apply CompareOrder_ext.
  intros x y. unfold g; simpl.
  unfold Precedence.compareSemVer, Semver.compareMain.
  by rewrite !lexico_assoc.
Qed.

(** ** Strings of digits *)

Lemma append_nil s : "" +:+ s = s.
Proof. reflexivity. Qed.

Lemma append_cons c a s : String c a +:+ s = String c (a +:+ s).
Proof. reflexivity. Qed.

Lemma string_app_assoc a b c : (a +:+ b) +:+ c = a +:+ b +:+ c.
Proof. induction a as [|x a IH]; [done|]. by rewrite !append_cons, IH. Qed.

Lemma string_app_nil_r a : a +:+ "" = a.
Proof. induction a as [|x a IH]; [done|]. by rewrite append_cons, IH. Qed.

Lemma nearestNumber_exact n : (n < 2 ^ 53)%N -> Js.nearestNumber n = n.
Proof.
  intros H. unfold Js.nearestNumber.
  by rewrite (proj2 (N.ltb_lt _ _) H).
Qed.

Lemma pretty_N_go_app x s : pretty_N_go x s = pretty_N_go x "" +:+ s.
Proof.
  revert s. induction (N.lt_wf_0 x) as [x _ IH]. intros s.
  destruct (decide (x = 0%N)) as [->|Hx]; [by rewrite !pretty_N_go_0|].
  rewrite (pretty_N_go_step x s), (pretty_N_go_step x "") by lia.
  rewrite (IH (x `div` 10)%N) by (apply N.div_lt; lia).
  rewrite (IH (x `div` 10)%N ltac:(apply N.div_lt; lia) (String _ "")).
  by rewrite string_app_assoc.
Qed.

Lemma pretty_N_char_digitValue c :
  Js.isDigit c = true -> pretty_N_char (Js.digitValue c) = c.
Proof.
  destruct c as [[] [] [] [] [] [] [] []]; intros H; vm_compute in H;
    try discriminate; reflexivity.
Qed.

Lemma digitValue_lt c : Js.isDigit c = true -> (Js.digitValue c < 10)%N.
Proof.
  unfold Js.isDigit, Js.digitValue. intros [H1 H2]%andb_true_iff.
  apply N.leb_le in H1, H2. lia.
Qed.

Lemma pretty_N_go_digits_go acc s :
  (0 < acc)%N -> Js.allChars Js.isDigit s = true ->
  pretty_N_go (Js.digitsValue_go acc s) "" = pretty_N_go acc "" +:+ s.
Proof.
  revert acc. induction s as [|c s IH]; intros acc Hacc; simpl.
  - intros _. by rewrite string_app_nil_r.
  - intros [Hc Hs]%andb_true_iff.
    pose proof (digitValue_lt c Hc) as Hlt.
    rewrite IH by (done || lia).
    rewrite (pretty_N_go_step (10 * acc + Js.digitValue c)) by lia.
    replace ((10 * acc + Js.digitValue c) `div` 10)%N with acc
      by (apply (N.div_unique _ 10 acc (Js.digitValue c)); lia).
    replace ((10 * acc + Js.digitValue c) `mod` 10)%N with (Js.digitValue c)
      by (apply (N.mod_unique _ 10 acc (Js.digitValue c)); lia).
    rewrite pretty_N_char_digitValue by done.
    rewrite (pretty_N_go_app acc (String c "")), string_app_assoc. done.
Qed.

(** Printing the integer a numeric identifier writes gives the identifier
    back. *)
Lemma showN_numericIdentifier s :
  Semver.isNumericIdentifier s = true -> Js.showN (Js.digitsValue s) = s.
Proof.
  destruct s as [|c s]; [done|].
  intros H.
  assert (Hc : Js.isDigit c = true /\ Js.allChars Js.isDigit s = true
               /\ (s = "" \/ c <> "0"%char)).
  { unfold Semver.isNumericIdentifier in H.
    destruct (decide (c = "0"%char)) as [->|Hn].
    - destruct s; [by auto|done].
    - assert (Js.allChars Js.isDigit (String c s) = true) as [? ?]%andb_true_iff.
      { destruct c as [[] [] [] [] [] [] [] []]; try done. }
      auto. }
  destruct Hc as (Hc & Hs & Hz).
  pose proof (digitValue_lt c Hc) as Hlt.
  unfold Js.digitsValue.
  change (Js.digitsValue_go 0 (String c s))
    with (Js.digitsValue_go (Js.digitValue c) s).
  destruct (decide (Js.digitValue c = 0%N)) as [E|E].
  - assert (c = "0"%char) as ->.
    { rewrite <- (pretty_N_char_digitValue c Hc), E. done. }
    destruct Hz as [->|?]; [reflexivity|done].
  - unfold Js.showN, pretty, pretty_N.
    assert (Hpos : (0 < Js.digitsValue_go (Js.digitValue c) s)%N).
    { assert (Hgo : forall acc, (0 < acc)%N -> (0 < Js.digitsValue_go acc s)%N).
      { clear. induction s as [|d s IH]; intros acc Hacc; simpl; [done|].
        apply IH. lia. }
      apply Hgo. lia. }
    rewrite decide_False by lia.
    rewrite pretty_N_go_digits_go by (done || lia).
    rewrite (pretty_N_go_step (Js.digitValue c)) by lia.
    rewrite N.div_small, N.mod_small, pretty_N_go_0 by done.
    by rewrite pretty_N_char_digitValue.
Qed.

Lemma digitsValue_numericIdentifier_inj s s' :
  Semver.isNumericIdentifier s = true -> Semver.isNumericIdentifier s' = true ->
  Js.digitsValue s = Js.digitsValue s' -> s = s'.
Proof.
  intros H H' E.
  by rewrite <- (showN_numericIdentifier s H), <- (showN_numericIdentifier s' H'), E.
Qed.

Lemma nearestNumber_le n : (n <= 2 ^ 53)%N -> Js.nearestNumber n = n.
Proof.
  intros H. destruct (decide (n = 2 ^ 53)%N) as [->|Hn]; [by vm_compute|].
  apply nearestNumber_exact. lia.
Qed.

(** ** The comparison of the package *)

Lemma lexico_opp a b :
  Semver.lexico (CompOpp a) (CompOpp b) = CompOpp (Semver.lexico a b).
Proof. by destruct a. Qed.

Lemma compareMain_antisym a b :
  Semver.compareMain b a = CompOpp (Semver.compareMain a b).
Proof.
  unfold Semver.compareMain.
  rewrite (N.compare_antisym (Semver.major a)), (N.compare_antisym (Semver.minor a)),
    (N.compare_antisym (Semver.patch a)).
  by rewrite !lexico_opp.
Qed.

Lemma compareMain_refl a : Semver.compareMain a a = Eq.
Proof. unfold Semver.compareMain. by rewrite !N.compare_refl. Qed.

Lemma compareIdentifiers_antisym a b :
  Semver.compareIdentifiers b a = CompOpp (Semver.compareIdentifiers a b).
Proof.
  unfold Semver.compareIdentifiers.
  destruct (Semver.numberOf a), (Semver.numberOf b); try done.
  - apply N.compare_antisym.
  - apply String.compare_antisym.
Qed.

Lemma comparePreLoop_antisym a :
  forall b, Semver.comparePreLoop b a = CompOpp (Semver.comparePreLoop a b).
Proof.
  induction a as [|x a IH]; intros [|y b]; simpl; try done.
  destruct (decide (x = y)) as [->|Hn].
  - rewrite decide_True by done. apply IH.
  - rewrite decide_False by congruence. apply compareIdentifiers_antisym.
Qed.

Lemma comparePreLoop_refl a : Semver.comparePreLoop a a = Eq.
Proof. induction a as [|x a IH]; simpl; [done|]. by rewrite decide_True. Qed.

(** The comparison of the package is reflexive and antisymmetric on all
    versions. *)
Lemma compareSemVer_refl a : Semver.compareSemVer a a = Eq.
Proof.
  unfold Semver.compareSemVer, Semver.comparePre, Semver.comparePrerelease.
  rewrite compareMain_refl. simpl.
  destruct (Semver.prerelease a) eqn:E; [done|]. apply comparePreLoop_refl.
Qed.

Lemma compareSemVer_antisym a b :
  Semver.compareSemVer b a = CompOpp (Semver.compareSemVer a b).
Proof.
  unfold Semver.compareSemVer, Semver.comparePre, Semver.comparePrerelease.
  rewrite compareMain_antisym, <- lexico_opp. f_equal.
  destruct (Semver.prerelease a) eqn:Ea, (Semver.prerelease b) eqn:Eb; try done.
  apply comparePreLoop_antisym.
Qed.

Lemma compareIdentifiers_read a b :
  exactIdentifier a = true -> exactIdentifier b = true ->
  Semver.compareIdentifiers a b
  = Precedence.compareIdentifiers (readIdentifier a) (readIdentifier b).
Proof.
  unfold Semver.compareIdentifiers, Semver.numberOf, Js.digitsNumber.
  destruct a as [x|x], b as [y|y]; simpl; unfold isNumericString.
  - done.
  - destruct (negb (Js.isEmpty y) && _); [|done].
    intros _ Hy%N.leb_le. by rewrite nearestNumber_le.
  - destruct (negb (Js.isEmpty x) && _); [|done].
    intros Hx%N.leb_le _. by rewrite nearestNumber_le.
  - destruct (negb (Js.isEmpty x) && _), (negb (Js.isEmpty y) && _); try done.
    intros Hx%N.leb_le Hy%N.leb_le. by rewrite !nearestNumber_le.
Qed.

Lemma readIdentifier_inj a b :
  wellFormed a -> wellFormed b -> readIdentifier a = readIdentifier b -> a = b.
Proof.
  destruct a as [x|x], b as [y|y]; simpl.
  - done.
  - destruct (isNumericString y); [|done].
    intros Hx Hy [= ->]. destruct (Hy eq_refl). lia.
  - destruct (isNumericString x); [|done].
    intros Hx Hy [= <-]. destruct (Hx eq_refl). lia.
  - destruct (isNumericString x), (isNumericString y); try done.
    intros Hx Hy [= E]. destruct (Hx eq_refl), (Hy eq_refl).
    f_equal. by apply digitsValue_numericIdentifier_inj.
Qed.

Lemma comparePreLoop_read a :
  forall b,
  Forall wellFormed a -> Forall wellFormed b ->
  forallb exactIdentifier a = true -> forallb exactIdentifier b = true ->
  Semver.comparePreLoop a b
  = Precedence.comparePreLoop (map readIdentifier a) (map readIdentifier b).
Proof.
  induction a as [|x a IH]; intros [|y b]; simpl; try done.
  intros [Wx Wa]%Forall_cons [Wy Wb]%Forall_cons
         [Hx Ha]%andb_true_iff [Hy Hb]%andb_true_iff.
  rewrite <- (compareIdentifiers_read _ _ Hx Hy), <- IH by done.
  destruct (decide (x = y)) as [->|Hn].
  - rewrite (compareIdentifiers_read _ _ Hy Hy).
    by rewrite (co_refl _ precedence_identifiers_order).
  - destruct (Semver.compareIdentifiers x y) eqn:E; try done.
    rewrite (compareIdentifiers_read _ _ Hx Hy) in E.
    apply (co_eq _ precedence_identifiers_order) in E.
    by apply readIdentifier_inj in E.
Qed.

Lemma compareSemVer_read a b :
  wellFormedVersion a -> wellFormedVersion b ->
  exactVersion a = true -> exactVersion b = true ->
  Semver.compareSemVer a b = Precedence.compareSemVer (readVersion a) (readVersion b).
Proof.
  unfold wellFormedVersion, exactVersion, Semver.compareSemVer,
    Precedence.compareSemVer, Semver.comparePre, Semver.comparePrerelease,
    Precedence.comparePrerelease.
  intros Wa Wb Ha Hb. f_equal. simpl.
  destruct (Semver.prerelease a) eqn:Ea, (Semver.prerelease b) eqn:Eb; try done.
  by apply comparePreLoop_read.
Qed.

Lemma parsePrereleaseId_wellFormed s i :
  Semver.parsePrereleaseId s = Some i -> wellFormed i.
Proof.
  unfold Semver.parsePrereleaseId.
  destruct (Js.isEmpty s) eqn:Hn; [done|].
  destruct (Js.allChars Js.isDigit s) eqn:Hd.
  - destruct (Semver.isNumericIdentifier s) eqn:Hc; [|done].
    destruct (Js.digitsNumber s <? Semver.MAX_SAFE_INTEGER)%N eqn:Hlt; intros [= <-]; simpl.
    + by apply N.ltb_lt.
    + intros _. split; [done|]. apply N.ltb_ge in Hlt.
      unfold Js.digitsNumber in Hlt.
      destruct (decide (Js.digitsValue s < 2 ^ 53)%N) as [Hs|Hs].
      * by rewrite nearestNumber_exact in Hlt.
      * unfold Semver.MAX_SAFE_INTEGER. lia.
  - destruct (Js.allChars Js.isWordDash s); [|done]. intros [= <-]. simpl.
    unfold isNumericString. rewrite Hd. by rewrite andb_false_r.
Qed.

Lemma parsePrereleaseIds_wellFormed l :
  forall ids, Semver.parsePrereleaseIds l = Some ids -> Forall wellFormed ids.
Proof.
  induction l as [|s l IH]; simpl; intros ids.
  - by intros [= <-].
  - destruct (Semver.parsePrereleaseId s) as [i|] eqn:Hi; [|done].
    destruct (Semver.parsePrereleaseIds l) as [ids'|]; [|done].
    intros [= <-]. constructor; [by eapply parsePrereleaseId_wellFormed|by apply IH].
Qed.

Lemma parse_wellFormed v p :
  Semver.parse v = Some p -> wellFormedVersion p.
Proof.
  unfold Semver.parse, Semver.construct.
  destruct (_ <? _)%nat; [done|].
  destruct (Semver.matchFull (Js.trim v)) as [q|] eqn:Hm; [|done].
  simpl. repeat (destruct (_ <? _)%N; [done|]). simpl. intros [= <-].
  unfold Semver.matchFull in Hm.
  destruct (Js.matchTriple _) as [[[[d1 d2] d3] r]|]; [|done].
  destruct (_ && _); [|done].
  destruct (Semver.matchSuffix r) as [ids|] eqn:Hs; [|done].
  injection Hm as <-. unfold wellFormedVersion. simpl.
  unfold Semver.matchSuffix in Hs.
  assert (Hb : forall s, (if Semver.matchBuild s then Some ([] : list Semver.identifier) else None) = Some ids -> Forall wellFormed ids).
  { intros s. destruct (Semver.matchBuild s); [|done]. by intros [= <-]. }
  destruct r as [|c r]; [by eapply Hb|].
  destruct (Ascii.eqb c "-") eqn:Hc.
  - apply Ascii.eqb_eq in Hc as ->.
    destruct (Js.span _ r) as [pr b].
    destruct (Semver.parsePrereleaseIds _) as [ids'|] eqn:Hp; [|done].
    destruct (Semver.matchBuild b); [|done].
    injection Hs as <-. by eapply parsePrereleaseIds_wellFormed.
  - destruct c as [[] [] [] [] [] [] [] []]; try discriminate Hc; by eapply Hb.
Qed.

Lemma versionKey_wellFormed v : wellFormedVersion (versionKey v).
Proof.
  unfold versionKey. destruct (Semver.parse v) eqn:E; simpl.
  - by eapply parse_wellFormed.
  - constructor.
Qed.

(** On the versions of the scripts whose numeric identifiers are at most
    2^53 the package computes the precedence. *)
Lemma compareSemVer_key x y :
  safeIdentifiers x = true -> safeIdentifiers y = true ->
  Semver.compareSemVer (versionKey x) (versionKey y)
  = Precedence.compareSemVer (readVersion (versionKey x))
                             (readVersion (versionKey y)).
Proof.
  intros Hx Hy. apply compareSemVer_read; try done; apply versionKey_wellFormed.
Qed.

(** ** The sort *)

Section SortTheory.
Context {A : Type}.
Variable c : A -> A -> Z.
Variable P : A -> Prop.
Hypothesis c_opp : forall x y, Z.sgn (c y x) = (- Z.sgn (c x y))%Z.
Hypothesis c_trans : forall x y z, P x -> P y -> P z ->
  PureSort.before c x y -> PureSort.before c y z -> PureSort.before c x z.

Abbreviation before := (PureSort.before c).
Abbreviation tie := (PureSort.tie c).

Lemma before_total x y : before x y \/ before y x.
Proof. unfold PureSort.before. pose proof (c_opp x y). lia. Qed.

Lemma before_refl x : before x x.
Proof. destruct (before_total x x); done. Qed.

Lemma pure_insert_perm x l : PureSort.insert c x l ≡ₚ x :: l.
Proof.
  induction l as [|y l IH]; simpl; [done|].
  destruct (c x y <=? 0)%Z; [done|].
  rewrite IH. apply Permutation_swap.
Qed.

Lemma pure_sort_perm l : PureSort.sort c l ≡ₚ l.
Proof.
  induction l as [|x l IH]; simpl; [done|].
  by rewrite pure_insert_perm, IH.
Qed.

Lemma pure_insert_sorted x l :
  P x -> Forall P l ->
  StronglySorted before l -> StronglySorted before (PureSort.insert c x l).
Proof.
  intros Hx Hl Hs. induction Hs as [|y l Hs IH Hy]; simpl.
  - repeat constructor.
  - apply Forall_cons in Hl as [HPy HPl].
    destruct (c x y <=? 0)%Z eqn:E.
    + apply Z.leb_le in E. constructor; [by constructor|].
      constructor; [done|].
      apply Forall_forall. intros z Hz.
      apply (c_trans x y z); try done.
      * by eapply Forall_forall in HPl.
      * by eapply Forall_forall in Hy.
    + apply Z.leb_gt in E. constructor; [by apply IH|].
      rewrite pure_insert_perm. constructor; [|done].
      destruct (before_total x y) as [H|H]; [|done].
      unfold PureSort.before in H. lia.
Qed.

Lemma pure_sort_sorted l :
  Forall P l -> StronglySorted before (PureSort.sort c l).
Proof.
  induction l as [|x l IH]; simpl; [constructor|].
  intros [Hx Hl]%Forall_cons. apply pure_insert_sorted; [done| |by apply IH].
  by rewrite pure_sort_perm.
Qed.

Lemma tie_not_after w x y :
  P w -> P x -> P y -> tie w x = true -> tie w y = true -> before x y.
Proof.
  unfold PureSort.tie. rewrite !Z.eqb_eq. intros Hw Hx Hy Ex Ey.
  apply (c_trans x w y); try done; unfold PureSort.before.
  - pose proof (c_opp w x). lia.
  - lia.
Qed.

Lemma pure_insert_filter w x l :
  P w -> P x -> Forall P l ->
  filter (fun y => tie w y = true) (PureSort.insert c x l)
  = filter (fun y => tie w y = true) (x :: l).
Proof.
  intros Hw Hx. induction l as [|y l IH]; simpl; [done|].
  intros [Hy Hl]%Forall_cons.
  destruct (c x y <=? 0)%Z eqn:E; [done|].
  apply Z.leb_gt in E.
  rewrite (filter_cons _ y (PureSort.insert _ _ _)), IH by done.
  rewrite !filter_cons.
  destruct (decide (tie w x = true)) as [Tx|Tx];
    destruct (decide (tie w y = true)) as [Ty|Ty]; try done.
  pose proof (tie_not_after w x y Hw Hx Hy Tx Ty) as H.
  unfold PureSort.before in H. lia.
Qed.

(** Stability: the entries that tie with [w] keep their order. *)
Lemma pure_sort_stable w l :
  P w -> Forall P l ->
  filter (fun y => tie w y = true) (PureSort.sort c l)
  = filter (fun y => tie w y = true) l.
Proof.
  intros Hw. induction l as [|x l IH]; simpl; [done|].
  intros [Hx Hl]%Forall_cons.
  rewrite pure_insert_filter, !filter_cons, IH; try done.
  by rewrite pure_sort_perm.
Qed.
End SortTheory.

Section SortRefines.
Context {A : Type}.
Variable cmp : A -> A -> Js.result Z.
Variable c : A -> A -> Z.

Lemma pure_insert_elem x y l : y ∈ PureSort.insert c x l -> y = x \/ y ∈ l.
Proof.
  induction l as [|z l IH]; simpl.
  - intros ->%list_elem_of_singleton. by left.
  - destruct (c x z <=? 0)%Z.
    + intros [->|H]%elem_of_cons; auto.
    + intros [->|H]%elem_of_cons; [right; left|].
      destruct (IH H) as [->|?]; [by left|right; by right].
Qed.

Lemma pure_sort_elem y l : y ∈ PureSort.sort c l -> y ∈ l.
Proof.
  induction l as [|x l IH]; simpl; [done|].
  intros [->|H]%pure_insert_elem; [left|right; auto].
Qed.

Lemma insert_refines x l :
  (forall y, y ∈ l -> cmp x y = Js.Return (c x y)) ->
  JsArray.insert cmp x l = Js.Return (PureSort.insert c x l).
Proof.
  induction l as [|y l IH]; simpl; [done|]. intros H.
  rewrite (H y) by left. simpl.
  destruct (c x y <=? 0)%Z; [done|].
  rewrite IH; [done|]. intros z Hz. apply H. by right.
Qed.

(** Where the comparator does not throw, the sort is the pure one. *)
Lemma sort_refines l :
  (forall x y, x ∈ l -> y ∈ l -> cmp x y = Js.Return (c x y)) ->
  JsArray.sort cmp l = Js.Return (PureSort.sort c l).
Proof.
  induction l as [|x l IH]; simpl; [done|]. intros H.
  rewrite IH; simpl.
  - apply insert_refines. intros y Hy%pure_sort_elem. apply H; [left|by right].
  - intros y z Hy Hz. apply H; by right.
Qed.
End SortRefines.

(** ** The [semver] functions on valid versions *)

Lemma parse_construct v x :
  Semver.parse v = Some x <-> Semver.construct v = Js.Return x.
Proof.
  unfold Semver.parse. destruct (Semver.construct v); simpl; split; congruence.
Qed.

Lemma valid_parse v :
  Semver.valid v = true <-> exists x, Semver.parse v = Some x.
Proof.
  unfold Semver.valid. destruct (Semver.parse v); split; eauto; try done.
  intros [? ?]; done.
Qed.

Lemma valid_construct v :
  Semver.valid v = true -> Semver.construct v = Js.Return (versionKey v).
Proof.
  intros [x Hx]%valid_parse. unfold versionKey. rewrite Hx. simpl.
  by apply parse_construct.
Qed.

Lemma invalid_construct v :
  Semver.valid v = false -> exists msg, Semver.construct v = Js.Throw msg.
Proof.
  unfold Semver.valid, Semver.parse.
  destruct (Semver.construct v); simpl; [done|eauto].
Qed.

Lemma compare_valid a b :
  Semver.valid a = true -> Semver.valid b = true ->
  Semver.compare a b
  = Js.Return (Semver.toNumber (Semver.compareSemVer (versionKey a) (versionKey b))).
Proof.
  intros Ha Hb. unfold Semver.compare.
  by rewrite (valid_construct _ Ha), (valid_construct _ Hb).
Qed.

Lemma compare_Return_valid a b c :
  Semver.compare a b = Js.Return c ->
  Semver.valid a = true /\ Semver.valid b = true.
Proof.
  unfold Semver.compare. intros H.
  destruct (Semver.valid a) eqn:Ha.
  - destruct (Semver.valid b) eqn:Hb; [done|].
    rewrite (valid_construct _ Ha) in H.
    destruct (invalid_construct _ Hb) as [m Hm]. by rewrite Hm in H.
  - destruct (invalid_construct _ Ha) as [m Hm]. by rewrite Hm in H.
Qed.

Lemma toNumber_sgn k : Z.sgn (Semver.toNumber (CompOpp k)) = (- Z.sgn (Semver.toNumber k))%Z.
Proof. by destruct k. Qed.

Lemma toNumber_le k : (Semver.toNumber k <= 0)%Z <-> k <> Gt.
Proof. destruct k; simpl; split; (done || lia). Qed.

Lemma newestFirstPure_opp x y :
  Z.sgn (newestFirstPure y x) = (- Z.sgn (newestFirstPure x y))%Z.
Proof.
  unfold newestFirstPure.
  rewrite compareSemVer_antisym. apply toNumber_sgn.
Qed.

Lemma newestFirstPure_trans x y z :
  exactEntry x -> exactEntry y -> exactEntry z ->
  PureSort.before newestFirstPure x y -> PureSort.before newestFirstPure y z ->
  PureSort.before newestFirstPure x z.
Proof.
  unfold exactEntry, PureSort.before, newestFirstPure.
  intros Hx Hy Hz.
  rewrite !compareSemVer_key, !toNumber_le by done.
  intros H1 H2. by eapply (co_le_trans _ precedence_order).
Qed.

Lemma validEntries_valid tags e :
  e ∈ validEntries tags -> Semver.valid (Build.version e) = true.
Proof. unfold validEntries. by intros [? _]%list_elem_of_filter. Qed.

Lemma safeTags_validEntries tags :
  safeTags tags -> Forall exactEntry (validEntries tags).
Proof.
  intros Hs. apply Forall_forall. intros e He.
  unfold validEntries in He. apply list_elem_of_filter in He as [_ He].
  apply list_elem_of_fmap in He as (t & -> & Ht).
  by eapply Forall_forall in Hs.
Qed.

(** The catalog is the pure sort of its valid entries: the comparator never
    throws on them. *)
Lemma getAllValidVersions_pure tags :
  Build.getAllValidVersions tags
  = Js.Return (PureSort.sort newestFirstPure (validEntries tags)).
Proof.
  unfold Build.getAllValidVersions. apply sort_refines.
  intros x y Hx%validEntries_valid Hy%validEntries_valid.
  unfold Build.newestFirst, newestFirstPure. by apply compare_valid.
Qed.

(** ** The version catalog *)

Lemma before_notOlder a b :
  Semver.valid (Build.version a) = true -> Semver.valid (Build.version b) = true ->
  PureSort.before newestFirstPure a b ->
  notOlder (Build.version a) (Build.version b).
Proof.
  intros Ha Hb H. unfold notOlder. rewrite (compare_valid _ _ Ha Hb).
  eexists; split; [done|].
  unfold PureSort.before, newestFirstPure in H.
  rewrite compareSemVer_antisym in H.
  destruct (Semver.compareSemVer _ _); simpl in *; lia.
Qed.

Lemma StronglySorted_impl_elem {A : Type} (R S : A -> A -> Prop) l :
  (forall x y, x ∈ l -> y ∈ l -> R x y -> S x y) ->
  StronglySorted R l -> StronglySorted S l.
Proof.
  intros H Hs. induction Hs as [|x l Hs IH Hx]; constructor.
  - apply IH. intros y z Hy Hz. apply H; by right.
  - apply Forall_forall. intros y Hy.
    apply H; [left|by right|]. by eapply Forall_forall in Hx.
Qed.

(** The catalog of tags with safe identifiers is in descending order. *)
Lemma catalog_sorted tags :
  safeTags tags ->
  StronglySorted (fun a b => notOlder (Build.version a) (Build.version b))
    (PureSort.sort newestFirstPure (validEntries tags)).
Proof.
  intros Hsafe.
  pose proof (pure_sort_perm newestFirstPure (validEntries tags)) as Hp.
  eapply StronglySorted_impl_elem;
    [|apply (pure_sort_sorted _ _ newestFirstPure_opp newestFirstPure_trans);
      by apply safeTags_validEntries].
  intros x y Hx Hy. rewrite Hp in Hx, Hy.
  apply before_notOlder; by eapply validEntries_valid.
Qed.

(** C3, as the code has it: for every list of raw tags the catalog is
    returned without an exception; every entry carries a valid semantic
    version extracted from its own tag, and the entries are exactly the
    extracted entries whose version is valid, so the tags whose extracted
    version is not valid are dropped.  When the numeric prerelease
    identifiers of the versions are at most 2^53, where the package
    compares them exactly, the catalog is sorted descending by
    semantic-version precedence with ties allowed: no entry is older than a
    later one. *)
Theorem getAllValidVersions_sorted_valid (tags : list string) :
  exists out,
    Build.getAllValidVersions tags = Js.Return out
    /\ Forall (fun e => Semver.valid (Build.version e) = true
                        /\ Build.tag e ∈ tags
                        /\ e = Build.extractVersion (Build.tag e)) out
    /\ out ≡ₚ filter (fun e => Semver.valid (Build.version e) = true)
                     (map Build.extractVersion tags)
    /\ (safeTags tags ->
        StronglySorted
          (fun a b => notOlder (Build.version a) (Build.version b)) out).
Proof.
  exists (PureSort.sort newestFirstPure (validEntries tags)).
  pose proof (pure_sort_perm newestFirstPure (validEntries tags)) as Hp.
  assert (Hv : forall e, e ∈ PureSort.sort newestFirstPure (validEntries tags) ->
                         Semver.valid (Build.version e) = true).
  { intros e He. rewrite Hp in He. by eapply validEntries_valid. }
  split; [apply getAllValidVersions_pure|].
  split; [|split; [exact Hp|apply catalog_sorted]].
  apply Forall_forall. intros e He. split; [auto|].
  rewrite Hp in He. unfold validEntries in He.
  apply list_elem_of_filter in He as [_ He].
  apply list_elem_of_fmap in He as [t [-> Ht]]. done.
Qed.

(** C3, witness: a listing with a prerelease and a tag that is not a
    version. *)
Lemma getAllValidVersions_sorted_valid_witness :
  exists out,
    Build.getAllValidVersions ["v2.6.1-rc.2"; "nightly"; "v2.7.16"; "v2.6.1"]
    = Js.Return out
    /\ StronglySorted
         (fun a b => notOlder (Build.version a) (Build.version b)) out.
Proof.
  destruct (getAllValidVersions_sorted_valid
              ["v2.6.1-rc.2"; "nightly"; "v2.7.16"; "v2.6.1"])
    as (out & H1 & _ & _ & H4).
  exists out. split; [exact H1|]. apply H4.
  repeat constructor.
Defined.

(** C3, counterexample: the tags [v1.0.0] and [1.0.0] both yield the
    version 1.0.0, so the catalog holds two entries of equal precedence and
    is not strictly descending. *)
Lemma getAllValidVersions_not_strictly_descending :
  Build.getAllValidVersions ["v1.0.0"; "1.0.0"]
  = Js.Return [Build.mkEntry "v1.0.0" "1.0.0"; Build.mkEntry "1.0.0" "1.0.0"]
  /\ ~ StronglySorted (fun a b => newer (Build.version a) (Build.version b))
         [Build.mkEntry "v1.0.0" "1.0.0"; Build.mkEntry "1.0.0" "1.0.0"].
Proof.
  split; [by vm_compute|].
  intros H. apply StronglySorted_inv in H as [_ H].
  apply Forall_inv in H. destruct H as [c [Hc Hlt]].
  vm_compute in Hc. injection Hc as <-. lia.
Qed.

(** Beyond that range the catalog need not be in descending order.  The
    version [1.0.0-9007199254740993.5] ties with the two others, whose first
    identifier it is rounded to, so nothing is moved, and the version
    [1.0.0-9007199254740992.1] stays in front of the newer
    [1.0.0-9007199254740992.2]. *)
Lemma getAllValidVersions_unsorted_beyond_safe_identifiers :
  Build.getAllValidVersions
    ["1.0.0-9007199254740992.1"; "1.0.0-9007199254740993.5";
     "1.0.0-9007199254740992.2"]
  = Js.Return
      [Build.mkEntry "1.0.0-9007199254740992.1" "1.0.0-9007199254740992.1";
       Build.mkEntry "1.0.0-9007199254740993.5" "1.0.0-9007199254740993.5";
       Build.mkEntry "1.0.0-9007199254740992.2" "1.0.0-9007199254740992.2"]
  /\ BinaryInsertion.sort newestFirstPure
       (validEntries ["1.0.0-9007199254740992.1"; "1.0.0-9007199254740993.5";
                      "1.0.0-9007199254740992.2"])
     = [Build.mkEntry "1.0.0-9007199254740992.1" "1.0.0-9007199254740992.1";
        Build.mkEntry "1.0.0-9007199254740993.5" "1.0.0-9007199254740993.5";
        Build.mkEntry "1.0.0-9007199254740992.2" "1.0.0-9007199254740992.2"]
  /\ newer "1.0.0-9007199254740992.2" "1.0.0-9007199254740992.1"
  /\ ~ notOlder "1.0.0-9007199254740992.1" "1.0.0-9007199254740992.2".
Proof.
  split_and!; try by vm_compute.
  - eexists. split; [vm_compute; reflexivity|lia].
  - intros (c & Hc & Hle). vm_compute in Hc. injection Hc as <-. lia.
Qed.

Lemma sameVersion_tie v e :
  Semver.valid v = true -> Semver.valid (Build.version e) = true ->
  sameVersion v e = PureSort.tie newestFirstPure (Build.mkEntry "" v) e.
Proof.
  intros Hv He. unfold sameVersion, PureSort.tie, newestFirstPure.
  by rewrite (compare_valid _ _ He Hv).
Qed.

Lemma sameVersion_valid v e :
  sameVersion v e = true ->
  Semver.valid (Build.version e) = true /\ Semver.valid v = true.
Proof.
  unfold sameVersion.
  destruct (Semver.compare (Build.version e) v) eqn:E; [|done].
  intros _. by eapply compare_Return_valid.
Qed.

Lemma filter_ext_elem {A : Type} (P Q : A -> Prop)
    `{!forall x, Decision (P x)} `{!forall x, Decision (Q x)} (l : list A) :
  (forall x, x ∈ l -> P x <-> Q x) -> filter P l = filter Q l.
Proof.
  induction l as [|x l IH]; intros Hext; [done|].
  rewrite !filter_cons, IH by (intros y Hy; apply Hext; by right).
  pose proof (Hext x ltac:(left)) as Hx.
  destruct (decide (P x)), (decide (Q x)); tauto.
Qed.

(** C4, as the code has it: for every tag list the catalog retains every
    entry whose version is valid, in particular all the entries with
    identical versions extracted from distinct raw tags.  When the versions
    of the list have their numeric prerelease identifiers at most 2^53,
    then for every such version [v] the entries whose version has the
    precedence of [v] are exactly those extracted from the tag list, in
    catalog order. *)
Theorem getAllValidVersions_ties_in_catalog_order (tags : list string) :
  exists out,
    Build.getAllValidVersions tags = Js.Return out
    /\ out ≡ₚ filter (fun e => Semver.valid (Build.version e) = true)
                     (map Build.extractVersion tags)
    /\ (forall v,
          filter (fun e => sameVersion v e = true) out
          ≡ₚ filter (fun e => sameVersion v e = true)
                    (map Build.extractVersion tags))
    /\ (safeTags tags ->
        forall v,
          safeIdentifiers v = true ->
          filter (fun e => sameVersion v e = true) out
          = filter (fun e => sameVersion v e = true)
                   (map Build.extractVersion tags)).
Proof.
  exists (PureSort.sort newestFirstPure (validEntries tags)).
  pose proof (pure_sort_perm newestFirstPure (validEntries tags)) as Hp.
  assert (Hin : forall v,
            filter (fun e => sameVersion v e = true) (validEntries tags)
            = filter (fun e => sameVersion v e = true)
                     (map Build.extractVersion tags)).
  { intros v. unfold validEntries. rewrite list_filter_filter.
    apply list_filter_iff. intros e. split; [tauto|].
    intros H. split; [done|]. by destruct (sameVersion_valid _ _ H). }
  split; [apply getAllValidVersions_pure|]. split; [exact Hp|]. split.
  { intros v. by rewrite <- Hin, Hp. }
  intros Hsafe v Hsv. rewrite <- Hin.
  destruct (Semver.valid v) eqn:Hv.
  - assert (Ht : forall l : list Build.VersionEntry,
      (forall e, e ∈ l -> Semver.valid (Build.version e) = true) ->
      filter (fun e => sameVersion v e = true) l
      = filter (fun e => PureSort.tie newestFirstPure (Build.mkEntry "" v) e = true) l).
    { intros l Hl. apply filter_ext_elem. intros e He.
      by rewrite (sameVersion_tie v e Hv (Hl e He)). }
    rewrite !Ht.
    + apply (pure_sort_stable _ _ newestFirstPure_opp newestFirstPure_trans);
        [exact Hsv|by apply safeTags_validEntries].
    + intros e. apply validEntries_valid.
    + intros e He. rewrite Hp in He. by eapply validEntries_valid.
  - assert (Hn : forall l : list Build.VersionEntry,
              filter (fun e => sameVersion v e = true) l = []).
    { intros l. induction l as [|e l IH]; [done|].
      rewrite filter_cons, IH. destruct (decide _) as [H|]; [|done].
      destruct (sameVersion_valid _ _ H) as [_ H']. congruence. }
    by rewrite !Hn.
Qed.

(** C4, witness: the version 2.7.16 listed under three tags, two of them
    with build metadata. *)
Lemma getAllValidVersions_ties_in_catalog_order_witness :
  exists out,
    Build.getAllValidVersions ["2.7.16"; "v2.8.0"; "v2.7.16"; "v2.7.16+abc"]
    = Js.Return out
    /\ filter (fun e => sameVersion "2.7.16" e = true) out
       = [Build.mkEntry "2.7.16" "2.7.16"; Build.mkEntry "v2.7.16" "2.7.16";
          Build.mkEntry "v2.7.16+abc" "2.7.16"].
Proof.
  destruct (getAllValidVersions_ties_in_catalog_order
              ["2.7.16"; "v2.8.0"; "v2.7.16"; "v2.7.16+abc"])
    as (out & H1 & _ & _ & H2).
  exists out. split; [exact H1|].
  rewrite (H2 ltac:(repeat constructor) "2.7.16" eq_refl).
  vm_compute. reflexivity.
Defined.

Lemma newestFirstPure_consistent l :
  Forall exactEntry l -> consistentOn newestFirstPure l.
Proof.
  intros Hl.
  pose (k := fun e => readVersion (versionKey (Build.version e))).
  assert (E : forall a b, a ∈ l -> b ∈ l ->
            newestFirstPure a b
            = Semver.toNumber (Precedence.compareSemVer (k b) (k a))).
  { intros a b Ha Hb. unfold newestFirstPure, k.
    rewrite compareSemVer_key; [done| |];
      by eapply (Forall_forall exactEntry l). }
  pose proof precedence_order as [e r an t].
  split_and!.
  - intros a Ha. by rewrite E, r.
  - intros a b Ha Hb. rewrite !E by done. rewrite (an (k b)).
    by destruct (Precedence.compareSemVer _ _).
  - intros a b d Ha Hb Hd. rewrite !E by done.
    destruct (Precedence.compareSemVer (k b) (k a)) eqn:E1; try done.
    apply e in E1 as <-. done.
  - intros a b d Ha Hb Hd. rewrite !E by done.
    destruct (Precedence.compareSemVer (k b) (k a)) eqn:E1; try done.
    destruct (Precedence.compareSemVer (k d) (k b)) eqn:E2; try done.
    by rewrite (t _ _ _ E2 E1).
  - intros a b d Ha Hb Hd. rewrite !E by done.
    destruct (Precedence.compareSemVer (k b) (k a)) eqn:E1; try done.
    destruct (Precedence.compareSemVer (k d) (k b)) eqn:E2; try done.
    apply (co_gt_lt _ precedence_order) in E1, E2.
    pose proof (t _ _ _ E1 E2) as E3.
    rewrite an, E3. done.
Qed.

(** What the embedding returns is a catalog the engine may return, and the
    only one when the numeric prerelease identifiers are at most 2^53. *)
Lemma possibleCatalog_embedding tags :
  (exists out, Build.getAllValidVersions tags = Js.Return out
               /\ possibleCatalog tags out)
  /\ (safeTags tags ->
      forall out, possibleCatalog tags out ->
                  Build.getAllValidVersions tags = Js.Return out).
Proof.
  rewrite getAllValidVersions_pure. split.
  - eexists. split; [done|]. split; [apply pure_sort_perm|done].
  - intros Hsafe out [_ H]. f_equal. symmetry. apply H.
    by apply newestFirstPure_consistent, safeTags_validEntries.
Qed.

Lemma binary_insert_perm {A : Type} (c : A -> A -> Z) l x :
  BinaryInsertion.insert c l x ≡ₚ x :: l.
Proof.
  unfold BinaryInsertion.insert.
  by rewrite <- Permutation_middle, take_drop.
Qed.

(** Insertion with binary search rearranges its input. *)
Lemma binary_sort_perm {A : Type} (c : A -> A -> Z) l :
  BinaryInsertion.sort c l ≡ₚ l.
Proof.
  unfold BinaryInsertion.sort.
  assert (H : forall acc, foldl (BinaryInsertion.insert c) acc l ≡ₚ acc ++ l).
  { induction l as [|x l IH]; intros acc; simpl; [by rewrite app_nil_r|].
    by rewrite IH, binary_insert_perm, <- Permutation_middle. }
  apply (H []).
Qed.

(** C4, counterexample: numeric prerelease identifiers from 2^53 on are
    rounded when they are compared, so 9007199254740993 ties with
    9007199254740992, and the version [1.0.0-9007199254740993.5] ties with
    both [1.0.0-9007199254740992.1] and [1.0.0-9007199254740992.2], which do
    not tie with each other.  The comparator is then not consistent, the
    arrangement is the engine's choice, and insertion with binary search
    puts the entry of the tag listed last in front of the entry of the same
    version listed before it. *)
Lemma getAllValidVersions_ties_left_to_engine :
  let tags := ["1.0.0-9007199254740992.1"; "1.0.0-9007199254740993.5";
               "v1.0.0-9007199254740992.2"; "3.0.0"; "2.0.0";
               "1.0.0-9007199254740992.2"] in
  let out := BinaryInsertion.sort newestFirstPure (validEntries tags) in
  ~ consistentOn newestFirstPure (validEntries tags)
  /\ possibleCatalog tags out
  /\ filter (fun e => String.eqb (Build.version e) "1.0.0-9007199254740992.2")
            (map Build.extractVersion tags)
     = [Build.mkEntry "v1.0.0-9007199254740992.2" "1.0.0-9007199254740992.2";
        Build.mkEntry "1.0.0-9007199254740992.2" "1.0.0-9007199254740992.2"]
  /\ filter (fun e => String.eqb (Build.version e) "1.0.0-9007199254740992.2") out
     = [Build.mkEntry "1.0.0-9007199254740992.2" "1.0.0-9007199254740992.2";
        Build.mkEntry "v1.0.0-9007199254740992.2" "1.0.0-9007199254740992.2"]
  /\ filter (fun e => sameVersion "1.0.0-9007199254740992.2" e = true) out
     <> filter (fun e => sameVersion "1.0.0-9007199254740992.2" e = true)
               (map Build.extractVersion tags).
Proof.
  intros tags out.
  assert (Hn : ~ consistentOn newestFirstPure (validEntries tags)).
  { intros (_ & _ & Ht & _).
    specialize (Ht (Build.mkEntry "1.0.0-9007199254740992.1" "1.0.0-9007199254740992.1")
                   (Build.mkEntry "1.0.0-9007199254740993.5" "1.0.0-9007199254740993.5")
                   (Build.mkEntry "v1.0.0-9007199254740992.2" "1.0.0-9007199254740992.2")).
    assert (H : (1 = 0)%Z); [|done].
    apply Ht; try (apply list_elem_of_In; vm_compute; tauto); by vm_compute. }
  split; [exact Hn|]. split; [|split_and!].
  - split; [apply binary_sort_perm|done].
  - by vm_compute.
  - by vm_compute.
  - vm_compute. discriminate.
Qed.

(** ** The map keys of [getLatestPatchPerMinor] *)

Lemma pretty_N_char_digit y : Js.isDigit (pretty_N_char y) = true.
Proof. unfold pretty_N_char. by repeat case_match. Qed.

Lemma pretty_N_go_digits x s :
  Js.allChars Js.isDigit s = true -> Js.allChars Js.isDigit (pretty_N_go x s) = true.
Proof.
  revert s. induction (N.lt_wf_0 x) as [x _ IH]. intros s Hs.
  destruct (decide (x = 0%N)) as [->|Hx]; [by rewrite pretty_N_go_0|].
  rewrite pretty_N_go_step by lia. apply IH.
  - apply N.div_lt; lia.
  - simpl. by rewrite pretty_N_char_digit.
Qed.

Lemma showN_digits n : Js.allChars Js.isDigit (Js.showN n) = true.
Proof.
  unfold Js.showN, pretty, pretty_N. case_decide; [done|].
  by apply pretty_N_go_digits.
Qed.

Lemma digits_dot_inj a b x y :
  Js.allChars Js.isDigit a = true -> Js.allChars Js.isDigit b = true ->
  a +:+ "." +:+ x = b +:+ "." +:+ y -> a = b /\ x = y.
Proof.
  revert b. induction a as [|c a IH]; intros [|d b]; simpl;
    rewrite ?append_cons, ?append_nil.
  - intros _ _ H. by injection H as ->.
  - intros _ Hb H. injection H as <- _. done.
  - intros Ha _ H. injection H as -> _. done.
  - intros [_ Ha]%andb_prop [_ Hb]%andb_prop H. injection H as -> H.
    destruct (IH _ Ha Hb H) as [-> ->]. done.
Qed.

(** The template literal is an injective encoding of the pair. *)
Lemma pairKey_inj k k' : pairKey k = pairKey k' -> k = k'.
Proof.
  destruct k as [a b], k' as [a' b']. unfold pairKey; simpl. intros H.
  apply digits_dot_inj in H as [Ha Hb]; try apply showN_digits.
  unfold Js.showN in *. apply (inj pretty) in Ha, Hb. congruence.
Qed.

(** ** Collapse to the latest patch of each minor line *)

Lemma minorKey_pairKey e parsed :
  Semver.parse (Build.version e) = Some parsed ->
  minorOf e = Some (Semver.major parsed, Semver.minor parsed)
  /\ Build.minorKey parsed = pairKey (Semver.major parsed, Semver.minor parsed).
Proof. intros H. unfold minorOf. by rewrite H. Qed.

(** The loop is the single pass of [collapse], the map [seen] holding the
    keys of the pairs met earlier. *)
Lemma latestPatchLoop_collapse versions :
  forall (seen : gmap string bool) result earlier,
    (forall k, seen !! pairKey k = None <-> k ∉ earlier) ->
    Build.latestPatchLoop seen result versions
    = result ++ collapse earlier versions.
Proof.
  induction versions as [|e rest IH]; intros seen result earlier Hinv; simpl.
  - by rewrite app_nil_r.
  - destruct (Semver.parse (Build.version e)) as [parsed|] eqn:Hp.
    + destruct (minorKey_pairKey _ _ Hp) as [-> ->].
      set (k := (Semver.major parsed, Semver.minor parsed)).
      destruct (seen !! pairKey k) eqn:Hs.
      * rewrite decide_True; [by apply IH|].
        destruct (decide (k ∈ earlier)) as [|Hn]; [done|].
        apply Hinv in Hn. congruence.
      * rewrite decide_False by by apply Hinv.
        rewrite (IH _ _ (k :: earlier)); [by rewrite <- app_assoc|].
        intros k'. rewrite lookup_insert_None, not_elem_of_cons, Hinv.
        split; intros [H1 H2]; split; try done.
        -- intros ->. done.
        -- intros Heq%pairKey_inj. done.
    + unfold minorOf. rewrite Hp. by apply IH.
Qed.

Lemma getLatestPatchPerMinor_collapse versions :
  Build.getLatestPatchPerMinor versions = collapse [] versions.
Proof.
  unfold Build.getLatestPatchPerMinor.
  rewrite (latestPatchLoop_collapse versions ∅ [] []); [done|].
  intros k. rewrite lookup_empty. split; [|done]. intros _. apply not_elem_of_nil.
Qed.

Lemma collapse_sublist versions :
  forall earlier, collapse earlier versions `sublist_of` versions.
Proof.
  induction versions as [|e rest IH]; intros earlier; simpl; [done|].
  destruct (minorOf e) as [k|]; [|by apply sublist_cons].
  case_decide; [by apply sublist_cons|by apply sublist_skip].
Qed.

Lemma collapse_fresh versions :
  forall earlier e, e ∈ collapse earlier versions ->
    exists k, minorOf e = Some k /\ k ∉ earlier.
Proof.
  induction versions as [|x rest IH]; intros earlier e; simpl.
  - by intros ?%elem_of_nil.
  - destruct (minorOf x) as [k|] eqn:Hk; [|by apply IH].
    case_decide as Hd; [by apply IH|].
    intros [->|He]%elem_of_cons; [eauto|].
    destruct (IH _ _ He) as [k' [H1 H2]]. exists k'. split; [done|].
    by apply not_elem_of_cons in H2 as [_ ?].
Qed.

Lemma collapse_NoDup versions :
  forall earlier, NoDup (minorOf <$> collapse earlier versions).
Proof.
  induction versions as [|x rest IH]; intros earlier; simpl; [constructor|].
  destruct (minorOf x) as [k|] eqn:Hk; [|by apply IH].
  case_decide as Hd; [by apply IH|].
  rewrite fmap_cons, Hk. constructor; [|by apply IH].
  intros [e [He1 He2]]%list_elem_of_fmap.
  destruct (collapse_fresh _ _ _ He2) as [k' [H1 H2]].
  apply not_elem_of_cons in H2 as [H2 _]. congruence.
Qed.

Lemma collapse_first pre :
  forall earlier e post k,
    minorOf e = Some k -> k ∉ earlier ->
    (forall x, x ∈ pre -> minorOf x <> Some k) ->
    e ∈ collapse earlier (pre ++ e :: post).
Proof.
  induction pre as [|x pre IH]; intros earlier e post k Hk Hn Hpre; simpl.
  - rewrite Hk, decide_False by done. left.
  - assert (Hx : minorOf x <> Some k) by (apply Hpre; left).
    assert (Hpre' : forall y, y ∈ pre -> minorOf y <> Some k)
      by (intros y Hy; apply Hpre; by right).
    destruct (minorOf x) as [k'|] eqn:Hk'; [|by eapply IH].
    case_decide; [by eapply IH|].
    right. eapply IH; eauto.
    apply not_elem_of_cons. split; [congruence|done].
Qed.

Lemma first_occurrence {A B : Type} `{!EqDecision B}
    (f : A -> option B) (l : list A) x k :
  x ∈ l -> f x = Some k ->
  exists pre e post, l = pre ++ e :: post /\ f e = Some k
    /\ (forall y, y ∈ pre -> f y <> Some k) /\ (x = e \/ x ∈ post).
Proof.
  induction l as [|y l IH]; [by intros ?%elem_of_nil|].
  intros Hx Hk.
  destruct (f y) as [k'|] eqn:Hy.
  - destruct (decide (k' = k)) as [->|Hne].
    + exists [], y, l. split_and!; [done|done|by intros ? ?%elem_of_nil|].
      apply elem_of_cons in Hx as [->|?]; auto.
    + apply elem_of_cons in Hx as [->|Hx]; [congruence|].
      destruct (IH Hx Hk) as (pre & e & post & -> & He & Hpre & Hpost).
      exists (y :: pre), e, post. split_and!; try done.
      intros z [->|Hz]%elem_of_cons; [congruence|by apply Hpre].
  - apply elem_of_cons in Hx as [->|Hx]; [congruence|].
    destruct (IH Hx Hk) as (pre & e & post & -> & He & Hpre & Hpost).
    exists (y :: pre), e, post. split_and!; try done.
    intros z [->|Hz]%elem_of_cons; [congruence|by apply Hpre].
Qed.

Lemma NoDup_fmap_elem {A B : Type} (f : A -> B) (l : list A) x y :
  NoDup (f <$> l) -> x ∈ l -> y ∈ l -> f x = f y -> x = y.
Proof.
  induction l as [|z l IH]; [by intros _ ?%elem_of_nil|].
  rewrite fmap_cons. intros [Hz Hl]%NoDup_cons.
  intros [->|Hx]%elem_of_cons [->|Hy]%elem_of_cons E; auto.
  - destruct Hz. rewrite E. by apply list_elem_of_fmap_2.
  - destruct Hz. rewrite <- E. by apply list_elem_of_fmap_2.
Qed.

Lemma notOlder_refl e k : minorOf e = Some k -> notOlder (Build.version e) (Build.version e).
Proof.
  unfold minorOf. destruct (Semver.parse (Build.version e)) eqn:Hp; [|done].
  intros _. assert (Hv : Semver.valid (Build.version e) = true)
    by (apply valid_parse; eauto).
  unfold notOlder. rewrite (compare_valid _ _ Hv Hv).
  rewrite compareSemVer_refl. by eexists.
Qed.

(** C2: for every sequence of entries sorted descending by precedence,
    [getLatestPatchPerMinor] is the single pass [collapse] that remembers
    only the pairs met earlier; its output is a subsequence of the input
    (order of first appearance), holds at most one entry per
    [(major, minor)] pair, holds the first entry met for each pair, and that
    entry is not older than any entry of the input sharing its pair. *)
Theorem getLatestPatchPerMinor_first_of_each_minor
    (versions : list Build.VersionEntry) :
  StronglySorted (fun a b => notOlder (Build.version a) (Build.version b)) versions ->
  Build.getLatestPatchPerMinor versions = collapse [] versions
  /\ Build.getLatestPatchPerMinor versions `sublist_of` versions
  /\ Forall (fun e => is_Some (minorOf e)) (Build.getLatestPatchPerMinor versions)
  /\ NoDup (minorOf <$> Build.getLatestPatchPerMinor versions)
  /\ (forall pre e post k,
        versions = pre ++ e :: post -> minorOf e = Some k ->
        (forall x, x ∈ pre -> minorOf x <> Some k) ->
        e ∈ Build.getLatestPatchPerMinor versions)
  /\ (forall e e',
        e ∈ Build.getLatestPatchPerMinor versions -> e' ∈ versions ->
        minorOf e' = minorOf e ->
        notOlder (Build.version e) (Build.version e')).
Proof.
  intros Hsorted. rewrite getLatestPatchPerMinor_collapse.
  assert (Hfirst : forall pre e post k,
        versions = pre ++ e :: post -> minorOf e = Some k ->
        (forall x, x ∈ pre -> minorOf x <> Some k) ->
        e ∈ collapse [] versions).
  { intros pre e post k -> Hk Hpre. eapply collapse_first; eauto.
    apply not_elem_of_nil. }
  split_and!; try done.
  - apply collapse_sublist.
  - apply Forall_forall. intros e He.
    destruct (collapse_fresh _ _ _ He) as [k [Hk _]]. by rewrite Hk.
  - apply collapse_NoDup.
  - intros e e' He He' Hsame.
    destruct (collapse_fresh _ _ _ He) as [k [Hk _]].
    rewrite Hk in Hsame.
    destruct (first_occurrence minorOf versions e' k He' Hsame)
      as (pre & e0 & post & Hv & Hk0 & Hpre & Hpos).
    assert (e = e0) as <-.
    { eapply (NoDup_fmap_elem minorOf); [apply (collapse_NoDup versions [])|done| |congruence].
      eapply Hfirst; eauto. }
    destruct Hpos as [->|Hpost]; [by eapply notOlder_refl|].
    rewrite Hv in Hsorted. apply StronglySorted_app_1_r in Hsorted.
    apply StronglySorted_inv in Hsorted as [_ Hall].
    by eapply Forall_forall in Hall.
Qed.

(** C2, witness: the catalog of the tags v2.7.16, v2.7.15, v2.6.1 and
    v2.6.0. *)
Lemma getLatestPatchPerMinor_first_of_each_minor_witness :
  Build.getLatestPatchPerMinor
    [Build.mkEntry "v2.7.16" "2.7.16"; Build.mkEntry "v2.7.15" "2.7.15";
     Build.mkEntry "v2.6.1" "2.6.1"; Build.mkEntry "v2.6.0" "2.6.0"]
  `sublist_of`
    [Build.mkEntry "v2.7.16" "2.7.16"; Build.mkEntry "v2.7.15" "2.7.15";
     Build.mkEntry "v2.6.1" "2.6.1"; Build.mkEntry "v2.6.0" "2.6.0"].
Proof.
  apply (getLatestPatchPerMinor_first_of_each_minor
    [Build.mkEntry "v2.7.16" "2.7.16"; Build.mkEntry "v2.7.15" "2.7.15";
     Build.mkEntry "v2.6.1" "2.6.1"; Build.mkEntry "v2.6.0" "2.6.0"]).
  repeat constructor;
    (eexists; split; [vm_compute; reflexivity|vm_compute; discriminate]).
Defined.

(** ** The build orchestrator *)

Lemma buildCommand_commandOf e buildNum cacheBust cacheCleanup :
  Build.buildCommand (Build.tag e) (Build.version e) buildNum cacheBust cacheCleanup
  = commandOf buildNum cacheBust cacheCleanup e.
Proof. by destruct cacheCleanup as [[|c paths]|]. Qed.

Lemma buildImage_records spawn e buildNum cacheBust cacheCleanup spawned :
  let command := commandOf buildNum cacheBust cacheCleanup e in
  let built := Build.buildImage spawn (Build.tag e) (Build.version e) buildNum
                 cacheBust cacheCleanup spawned in
  built.2 = spawned ++ [command]
  /\ Build.builtVersion built.1 = Build.version e
  /\ Build.imageTag built.1 = "v" +:+ Build.version e +:+ "-" +:+ pretty buildNum
  /\ records (spawn spawned command) built.1
  /\ Build.success built.1 = negb (failed (spawn spawned command)).
Proof.
  unfold Build.buildImage. rewrite buildCommand_commandOf. simpl.
  destruct (spawn spawned _) as [[[|p|p]|]|m]; simpl; split_and!; try done;
    by eexists.
Qed.

Lemma buildLoop_spec spawn buildNum cacheBust cacheCleanup versions :
  forall results spawned,
  exists rs,
    Build.buildLoop spawn buildNum cacheBust cacheCleanup results versions spawned
    = (results ++ rs,
       spawned ++ map (commandOf buildNum cacheBust cacheCleanup) versions)
    /\ length rs = length versions
    /\ (forall i e, versions !! i = Some e ->
          exists r, rs !! i = Some r
            /\ Build.builtVersion r = Build.version e
            /\ Build.imageTag r
               = "v" +:+ Build.version e +:+ "-" +:+ pretty buildNum
            /\ records
                 (spawn (spawned ++ map (commandOf buildNum cacheBust cacheCleanup)
                                        (take i versions))
                        (commandOf buildNum cacheBust cacheCleanup e)) r
            /\ Build.success r
               = negb (failed
                   (spawn (spawned ++ map (commandOf buildNum cacheBust cacheCleanup)
                                          (take i versions))
                          (commandOf buildNum cacheBust cacheCleanup e)))).
Proof.
  induction versions as [|e rest IH]; intros results spawned;
    cbn [Build.buildLoop].
  - exists []. simpl. rewrite !app_nil_r. split_and!; try done.
  - destruct (buildImage_records spawn e buildNum cacheBust cacheCleanup spawned)
      as (Hsp & Hver & Htag & Hrec & Hsucc).
    destruct (Build.buildImage spawn (Build.tag e) (Build.version e) buildNum
                cacheBust cacheCleanup spawned) as [r spawned'] eqn:Hb.
    simpl in Hsp, Hver, Htag, Hrec, Hsucc. subst spawned'.
    destruct (IH (results ++ [r])
                 (spawned ++ [commandOf buildNum cacheBust cacheCleanup e]))
      as (rs & Heq & Hlen & Hall).
    exists (r :: rs). rewrite Heq, <- !app_assoc. simpl.
    split_and!; [done|by rewrite Hlen|].
    intros [|i] e' Hi; simpl in *.
    + injection Hi as <-. exists r. rewrite app_nil_r. done.
    + destruct (Hall i e' Hi) as (r' & Hr' & Hver' & Htag' & Hrec' & Hsucc').
      exists r'. rewrite <- app_assoc in Hrec', Hsucc'. done.
Qed.

(** C1: for every plan, build number and behaviour of the spawned
    processes, [buildSequentially] spawns one process per plan entry, in
    plan order, the build of that entry's tag, and returns one result per
    entry, in plan order.  The result of an entry carries its version; it
    has [success = true] exactly when the process closes with code 0, and
    otherwise [success = false] with the error [Exit code: <code>] (the
    code being null when a signal ended the process) or the message of the
    spawn error.  Later entries are built whatever the earlier outcomes
    were; in particular a plan of three entries of which only the second
    build fails gives three results, the second alone with
    [success = false].  The digits of the exit code, and for the build
    number the whole command line and the image tag of the result (as
    written out in [commandOf]), are stated for the safe integers, below
    2^53 in size, which are printed as their decimal digits. *)
Theorem buildSequentially_attempts_every_entry
    (spawn : Build.Spawner) (plan : list Build.VersionEntry) (buildNum : N)
    (cacheBust : string) (cacheCleanup : option string) :
  exists results spawned,
    Build.buildSequentially spawn plan buildNum cacheBust cacheCleanup []
    = (results, spawned)
    /\ length results = length plan
    /\ length spawned = length plan
    /\ (forall i e, plan !! i = Some e ->
          exists r command,
            results !! i = Some r /\ spawned !! i = Some command
            /\ take 6 command
               = ["docker"; "build";
                  "--build-arg"; "MESHTASTIC_VERSION=" +:+ Build.tag e;
                  "--build-arg"; "CACHE_BUST=" +:+ cacheBust]
            /\ Build.builtVersion r = Build.version e
            /\ match spawn (take i spawned) command with
               | Build.Close (Some 0%Z) =>
                   Build.success r = true /\ Build.error r = None
               | Build.Close (Some c) =>
                   Build.success r = false
                   /\ exists code,
                        Build.error r = Some ("Exit code: " +:+ code)
                        /\ ((Z.abs c < 2 ^ 53)%Z -> code = pretty c)
               | Build.Close None =>
                   Build.success r = false
                   /\ Build.error r = Some "Exit code: null"
               | Build.SpawnError message =>
                   Build.success r = false /\ Build.error r = Some message
               end
            /\ ((buildNum < 2 ^ 53)%N ->
                command = commandOf buildNum cacheBust cacheCleanup e
                /\ Build.imageTag r
                   = "v" +:+ Build.version e +:+ "-" +:+ pretty buildNum))
    /\ (forall e1 e2 e3 c1 c2 c3,
          plan = [e1; e2; e3] -> spawned = [c1; c2; c3] ->
          failed (spawn [] c1) = false ->
          failed (spawn [c1] c2) = true ->
          failed (spawn [c1; c2] c3) = false ->
          Build.success <$> results = [true; false; true]).
Proof.
  unfold Build.buildSequentially.
  destruct (buildLoop_spec spawn buildNum cacheBust cacheCleanup plan [] [])
    as (rs & Heq & Hlen & Hall).
  simpl in Heq.
  exists rs, (map (commandOf buildNum cacheBust cacheCleanup) plan).
  split_and!; try done.
  - by rewrite length_map.
  - intros i e Hi. destruct (Hall i e Hi) as (r & Hr & Hver & Htag & Hrec & _).
    exists r, (commandOf buildNum cacheBust cacheCleanup e).
    simpl in Hrec. rewrite <- fmap_take.
    split_and!; try done.
    by rewrite list_lookup_fmap, Hi.
  - intros e1 e2 e3 c1 c2 c3 -> [= <- <- <-] H1 H2 H3.
    destruct (Hall 0 e1 eq_refl) as (r1 & Hr1 & _ & _ & _ & Hs1).
    destruct (Hall 1 e2 eq_refl) as (r2 & Hr2 & _ & _ & _ & Hs2).
    destruct (Hall 2 e3 eq_refl) as (r3 & Hr3 & _ & _ & _ & Hs3).
    simpl in *. rewrite H1 in Hs1. rewrite H2 in Hs2. rewrite H3 in Hs3.
    destruct rs as [|? [|? [|? [|? ?]]]]; simpl in *; try done.
    injection Hr1 as ->. injection Hr2 as ->. injection Hr3 as ->.
    by rewrite Hs1, Hs2, Hs3.
Qed.

(** C1, witness: three entries with build number 1, the second build
    exits with code 2; the third is built all the same, and the second
    result carries the error [Exit code: 2]. *)
Lemma buildSequentially_attempts_every_entry_witness :
  exists results spawned,
    Build.buildSequentially
      (fun spawned _ =>
         if bool_decide (length spawned = 1)
         then Build.Close (Some 2%Z) else Build.Close (Some 0%Z))
      [Build.mkEntry "v2.7.16" "2.7.16"; Build.mkEntry "v2.6.1" "2.6.1";
       Build.mkEntry "v2.5.0" "2.5.0"] 1 "1" None []
    = (results, spawned)
    /\ Build.success <$> results = [true; false; true]
    /\ results !! 1
       = Some (Build.mkResult "2.6.1" "v2.6.1-1" false (Some "Exit code: 2"))
    /\ spawned !! 2
       = Some ["docker"; "build"; "--build-arg"; "MESHTASTIC_VERSION=v2.5.0";
               "--build-arg"; "CACHE_BUST=1";
               "-t"; "benallfree/meshtastic-docker:v2.5.0-1"; "."].
Proof.
  destruct (buildSequentially_attempts_every_entry
    (fun spawned _ =>
       if bool_decide (length spawned = 1)
       then Build.Close (Some 2%Z) else Build.Close (Some 0%Z))
    [Build.mkEntry "v2.7.16" "2.7.16"; Build.mkEntry "v2.6.1" "2.6.1";
     Build.mkEntry "v2.5.0" "2.5.0"] 1 "1" None)
    as (results & spawned & H1 & Hlen & Hlen' & Hall & H4).
  exists results, spawned. split; [exact H1|].
  destruct spawned as [|c1 [|c2 [|c3 [|c4 spawned]]]]; try discriminate Hlen'.
  split; [apply (H4 _ _ _ c1 c2 c3 eq_refl eq_refl); reflexivity|].
  destruct (Hall 1 (Build.mkEntry "v2.6.1" "2.6.1") eq_refl)
    as (r & command & Hr & _ & _ & Hver & Hrec & Htag).
  destruct (Htag ltac:(reflexivity)) as [_ Htag'].
  destruct (Hall 2 (Build.mkEntry "v2.5.0" "2.5.0") eq_refl)
    as (r' & command' & _ & Hc & _ & _ & _ & Hcmd).
  destruct (Hcmd ltac:(reflexivity)) as [Hcmd' _].
  split; [|by rewrite Hc, Hcmd'].
  rewrite Hr. simpl in Hrec. destruct Hrec as (Hs & code & He & Hcode).
  rewrite (Hcode ltac:(reflexivity)) in He.
  destruct r as [bv it su er]; simpl in *. by subst.
Defined.

(** ** The plan of the example catalog *)

(** C5: for the tags v2.7.16, v2.7.15, v2.6.0, v2.6.1 and notaversion the
    catalog is 2.7.16, 2.7.15, 2.6.1, 2.6.0, and the range [>2.6.0]
    followed by the collapse to the latest patch gives the plan 2.7.16,
    2.6.1, in this order; it is the plan [main] selects for that range. *)
Theorem plan_of_example_catalog :
  Build.getAllValidVersions ["v2.7.16"; "v2.7.15"; "v2.6.0"; "v2.6.1"; "notaversion"]
  = Js.Return [Build.mkEntry "v2.7.16" "2.7.16"; Build.mkEntry "v2.7.15" "2.7.15";
               Build.mkEntry "v2.6.1" "2.6.1"; Build.mkEntry "v2.6.0" "2.6.0"]
  /\ (let* filtered :=
        Build.filterTagsBySemver
          ["v2.7.16"; "v2.7.15"; "v2.6.0"; "v2.6.1"; "notaversion"] ">2.6.0" in
      Js.Return (Build.getLatestPatchPerMinor filtered))
     = Js.Return [Build.mkEntry "v2.7.16" "2.7.16"; Build.mkEntry "v2.6.1" "2.6.1"]
  /\ Build.selectVersions
       ["v2.7.16"; "v2.7.15"; "v2.6.0"; "v2.6.1"; "notaversion"] ">2.6.0" false
     = Js.Return [Build.mkEntry "v2.7.16" "2.7.16"; Build.mkEntry "v2.6.1" "2.6.1"].
Proof. split_and!; by vm_compute. Qed.

(** ** The image locator *)

Lemma stripPrefix_Some p s r : Js.stripPrefix p s = Some r -> s = p +:+ r.
Proof.
  revert s. induction p as [|a p IH]; intros [|b s]; simpl; try done.
  - by intros [= <-].
  - by intros [= <-].
  - destruct (Ascii.eqb a b) eqn:E; [|done].
    apply Ascii.eqb_eq in E as ->. intros H. by rewrite (IH _ H).
Qed.

Lemma parseImageLine_repository line img :
  Shell.parseImageLine line = Some img ->
  exists rest, line = "meshtastic-docker:" +:+ rest.
Proof.
  unfold Shell.parseImageLine, Shell.matchImageLine.
  destruct (Js.stripPrefix "meshtastic-docker:v" line) as [s|] eqn:E; [|done].
  intros _. apply stripPrefix_Some in E. exists ("v" +:+ s). by rewrite E.
Qed.

(** C8, as the code has it: the tag parser maps
    [meshtastic-docker:v2.7.16-3] to version 2.7.16 and build number 3, and
    produces nothing for [myrepo:latest] (nor for [myrepo:v2.7.16-3], nor
    for [meshtastic-docker:latest]). *)
Theorem parseImageLine_examples :
  Shell.parseImageLine "meshtastic-docker:v2.7.16-3"
  = Some (Shell.mkImage "meshtastic-docker:v2.7.16-3" "2.7.16" 3)
  /\ Shell.parseImageLine "myrepo:latest" = None
  /\ Shell.parseImageLine "myrepo:v2.7.16-3" = None
  /\ Shell.parseImageLine "meshtastic-docker:latest" = None.
Proof. split_and!; by vm_compute. Qed.

(** C8, counterexample: the tag [myrepo:v2.7.16-3] is not parsed to
    version 2.7.16 and build number 3; the pattern names the repository
    [meshtastic-docker]. *)
Lemma parseImageLine_rejects_myrepo :
  ~ exists img,
      Shell.parseImageLine "myrepo:v2.7.16-3" = Some img
      /\ Shell.imageVersion img = "2.7.16" /\ Shell.buildNum img = 3%N.
Proof. intros (img & H & _). vm_compute in H. discriminate. Qed.

(** C10: for every version and build number the tag [buildImage] gives to
    the build has the form
    [benallfree/meshtastic-docker:v<version>-<buildNumber>]; the locator
    parses no such tag, since every tag it parses starts with the repository
    [meshtastic-docker] followed by a colon. *)
Theorem builder_tags_unknown_to_locator
    (tag version : string) (buildNum : N) (cacheBust : string)
    (cacheCleanup : option string) :
  Build.fullTagOf version buildNum
  = "benallfree/meshtastic-docker:v" +:+ version +:+ "-" +:+ Js.showN buildNum
  /\ (exists args,
        Build.buildCommand tag version buildNum cacheBust cacheCleanup
        = args ++ ["-t"; Build.fullTagOf version buildNum; "."])
  /\ Shell.parseImageLine (Build.fullTagOf version buildNum) = None
  /\ (forall line img,
        Shell.parseImageLine line = Some img ->
        exists rest, line = "meshtastic-docker:" +:+ rest).
Proof.
  split_and!.
  - reflexivity.
  - unfold Build.buildCommand. eexists (_ :: _ :: _).
    rewrite <- app_comm_cons. simpl. by repeat f_equal.
  - reflexivity.
  - apply parseImageLine_repository.
Qed.

(** C10, witness: the locator parses [meshtastic-docker:v2.7.16-1], whose
    repository is [meshtastic-docker]. *)
Lemma builder_tags_unknown_to_locator_witness :
  exists rest, "meshtastic-docker:v2.7.16-1" = "meshtastic-docker:" +:+ rest.
Proof.
  apply (proj2 (proj2 (proj2
    (builder_tags_unknown_to_locator "v2.7.16" "2.7.16" 1 "1" None)))
    "meshtastic-docker:v2.7.16-1"
    (Shell.mkImage "meshtastic-docker:v2.7.16-1" "2.7.16" 1)).
  reflexivity.
Defined.

Lemma compareImageKey_order : CompareOrder compareImageKey.
Proof. apply (lexico_pair_order _ _ precedence_order N_compare_order). Qed.

Lemma newestImageFirstPure_before a b :
  exactImage a -> exactImage b ->
  PureSort.before newestImageFirstPure a b
  <-> compareImageKey (imageKey b) (imageKey a) <> Gt.
Proof.
  unfold exactImage. intros Ha Hb.
  unfold PureSort.before, newestImageFirstPure, compareImageKey, imageKey; simpl.
  rewrite (compareSemVer_key _ _ Hb Ha).
  destruct (Precedence.compareSemVer _ _); simpl; try (split; (done || lia)).
  destruct (N.compare_spec (Shell.buildNum b) (Shell.buildNum a));
    split; (done || lia).
Qed.

Lemma newestImageFirstPure_opp x y :
  Z.sgn (newestImageFirstPure y x) = (- Z.sgn (newestImageFirstPure x y))%Z.
Proof.
  unfold newestImageFirstPure.
  rewrite (compareSemVer_antisym
             (versionKey (Shell.imageVersion y)) (versionKey (Shell.imageVersion x))).
  destruct (Semver.compareSemVer _ _); simpl; try done. lia.
Qed.

Lemma newestImageFirstPure_trans x y z :
  exactImage x -> exactImage y -> exactImage z ->
  PureSort.before newestImageFirstPure x y ->
  PureSort.before newestImageFirstPure y z ->
  PureSort.before newestImageFirstPure x z.
Proof.
  intros Hx Hy Hz. rewrite !newestImageFirstPure_before by done. intros H1 H2.
  by eapply (co_le_trans _ compareImageKey_order).
Qed.

Lemma newestImageFirst_valid a b :
  Semver.valid (Shell.imageVersion a) = true ->
  Semver.valid (Shell.imageVersion b) = true ->
  Shell.newestImageFirst a b = Js.Return (newestImageFirstPure a b).
Proof.
  intros Ha Hb. unfold Shell.newestImageFirst, newestImageFirstPure.
  rewrite (compare_valid _ _ Hb Ha). simpl. by destruct (negb _).
Qed.

Lemma find_first {A : Type} (f : A -> bool) (l : list A) x :
  find f l = Some x ->
  f x = true /\ exists pre post,
    l = pre ++ x :: post /\ forall y, y ∈ pre -> f y = false.
Proof.
  induction l as [|y l IH]; simpl; [done|].
  destruct (f y) eqn:E.
  - intros [= ->]. split; [done|]. exists [], l. split; [done|].
    by intros ? ?%elem_of_nil.
  - intros H. destruct (IH H) as [Hx (pre & post & -> & Hpre)].
    split; [done|]. exists (y :: pre), post. split; [done|].
    intros z [->|Hz]%elem_of_cons; auto.
Qed.

Lemma find_None_elem {A : Type} (f : A -> bool) (l : list A) x :
  find f l = None -> x ∈ l -> f x = false.
Proof.
  intros H Hx. apply list_elem_of_In in Hx. by eapply find_none in H.
Qed.

Lemma insert_Return_perm {A : Type} (cmp : A -> A -> Js.result Z) x l r :
  JsArray.insert cmp x l = Js.Return r -> r ≡ₚ x :: l.
Proof.
  revert r. induction l as [|y l IH]; intros r; simpl.
  - by intros [= <-].
  - destruct (cmp x y) as [c|]; simpl; [|done].
    destruct (c <=? 0)%Z; [by intros [= <-]|].
    destruct (JsArray.insert cmp x l) as [r'|]; simpl; [|done].
    intros [= <-]. rewrite (IH _ eq_refl). apply Permutation_swap.
Qed.

(** A sort that returns has rearranged its input. *)
Lemma sort_Return_perm {A : Type} (cmp : A -> A -> Js.result Z) l s :
  JsArray.sort cmp l = Js.Return s -> s ≡ₚ l.
Proof.
  revert s. induction l as [|x l IH]; intros s; simpl.
  - by intros [= <-].
  - destruct (JsArray.sort cmp l) as [s'|]; simpl; [|done].
    intros H%insert_Return_perm. by rewrite H, (IH _ eq_refl).
Qed.

Lemma listedImages_line stdout img :
  img ∈ listedImages stdout ->
  Shell.image img ∈ Js.split "010" stdout
  /\ Shell.parseImageLine (Shell.image img) = Some img.
Proof.
  unfold listedImages. intros (line & Hl & Hp)%list_elem_of_omap.
  apply list_elem_of_filter in Hl as [_ Hl].
  assert (Shell.image img = line) as ->; [|done].
  unfold Shell.parseImageLine in Hp.
  destruct (Shell.matchImageLine line) as [[v d]|]; [|done].
  by injection Hp as <-.
Qed.

Lemma findImageForVersion_sound listing version line :
  Shell.findImageForVersion listing version = Some line ->
  exists stdout img,
    listing = Js.Return stdout
    /\ line ∈ Js.split "010" stdout
    /\ img ∈ listedImages stdout
    /\ Shell.parseImageLine line = Some img
    /\ (forall v, version = Some v -> v <> "" -> Shell.imageVersion img = v).
Proof.
  unfold Shell.findImageForVersion, Shell.findImageForVersion_try.
  destruct listing as [stdout|]; [|done]. cbn [Js.bind].
  fold (listedImages stdout).
  destruct (JsArray.sort Shell.newestImageFirst (listedImages stdout))
    as [images|] eqn:Hs; [|done].
  apply sort_Return_perm in Hs. cbn [Js.bind].
  intros H. exists stdout.
  assert (Hfound : exists img, img ∈ images /\ Shell.image img = line
            /\ (forall v, version = Some v -> v <> "" -> Shell.imageVersion img = v)).
  { destruct (Shell.truthy version) eqn:Ht; simpl in H.
    - destruct (find _ images) as [img|] eqn:F; [|done].
      injection H as <-. apply find_first in F as [Hv (pre & post & -> & _)].
      exists img. split_and!; [apply elem_of_app; right; left|done|].
      intros v -> _. by apply String.eqb_eq in Hv.
    - destruct images as [|img images]; [done|]. injection H as <-.
      exists img. split_and!; [left|done|].
      intros v -> Hv. by destruct v. }
  destruct Hfound as (img & Hin & <- & Hv). rewrite Hs in Hin.
  destruct (listedImages_line _ _ Hin) as [H1 H2].
  exists img. split_and!; done.
Qed.

Lemma safeImages_valid imgs :
  safeImages imgs ->
  Forall (fun img => Semver.valid (Shell.imageVersion img) = true) imgs.
Proof. intros H. eapply Forall_impl; [exact H|]. by intros img [? _]. Qed.

Lemma safeImages_exact imgs : safeImages imgs -> Forall exactImage imgs.
Proof. intros H. eapply Forall_impl; [exact H|]. by intros img (_ & ? & _). Qed.

(** The sorted images of a listing whose versions are all valid. *)
Lemma sort_listedImages imgs :
  Forall (fun img => Semver.valid (Shell.imageVersion img) = true) imgs ->
  JsArray.sort Shell.newestImageFirst imgs
  = Js.Return (PureSort.sort newestImageFirstPure imgs).
Proof.
  intros Hvalid. apply sort_refines. intros x y Hx Hy.
  apply newestImageFirst_valid; by eapply Forall_forall in Hvalid.
Qed.

Lemma same_version_build_order a b :
  Shell.imageVersion a = Shell.imageVersion b ->
  PureSort.before newestImageFirstPure a b ->
  (Shell.buildNum b <= Shell.buildNum a)%N.
Proof.
  unfold PureSort.before, newestImageFirstPure. intros ->.
  rewrite compareSemVer_refl. simpl. lia.
Qed.

(** A sort that throws and a search that fails both give none. *)
Lemma findImageForVersion_absent stdout version :
  version <> "" ->
  (forall img, img ∈ listedImages stdout -> Shell.imageVersion img <> version) ->
  Shell.findImageForVersion (Js.Return stdout) (Some version) = None.
Proof.
  intros Hne Habs.
  destruct (Shell.findImageForVersion (Js.Return stdout) (Some version))
    as [line|] eqn:E; [|done].
  apply findImageForVersion_sound in E
    as (stdout' & img & [= <-] & _ & Hin & _ & Hv).
  destruct (Habs img Hin). by apply Hv.
Qed.

(** In the sorted images the first image of a listed version is the one
    with the highest build number. *)
Lemma locate_in_sorted imgs v img0 :
  Forall exactImage imgs ->
  img0 ∈ imgs -> Shell.imageVersion img0 = v ->
  exists img,
    find (fun img => String.eqb (Shell.imageVersion img) v)
         (PureSort.sort newestImageFirstPure imgs) = Some img
    /\ img ∈ imgs /\ Shell.imageVersion img = v
    /\ forall img', img' ∈ imgs -> Shell.imageVersion img' = v ->
         (Shell.buildNum img' <= Shell.buildNum img)%N.
Proof.
  intros Hexact Hin Hv.
  pose proof (pure_sort_perm newestImageFirstPure imgs) as Hp.
  pose proof (pure_sort_sorted _ _ newestImageFirstPure_opp newestImageFirstPure_trans
                imgs Hexact) as Hs.
  rewrite <- Hp in Hin.
  destruct (find _ (PureSort.sort newestImageFirstPure imgs)) as [img|] eqn:F.
  - exists img. apply find_first in F as [Heq (pre & post & Hl & Hpre)].
    apply String.eqb_eq in Heq. split_and!; try done.
    + rewrite <- Hp, Hl. apply elem_of_app. right. left.
    + intros img' Hin' Hv'. rewrite <- Hp, Hl in Hin'. rewrite Hl in Hs.
      apply elem_of_app in Hin' as [Hin'|Hin'].
      { apply Hpre in Hin'. rewrite Hv' in Hin'.
        by rewrite String.eqb_refl in Hin'. }
      apply same_version_build_order; [congruence|].
      apply elem_of_cons in Hin' as [->|Hin'];
        [apply (before_refl _ newestImageFirstPure_opp)|].
      apply StronglySorted_app_1_r, StronglySorted_inv in Hs as [_ Hall].
      by eapply Forall_forall in Hall.
  - apply (find_None_elem _ _ _ F) in Hin. rewrite Hv in Hin.
    by rewrite String.eqb_refl in Hin.
Qed.

(** C6, failing input: the listing holds an image of version 1.2.3 and a
    tag that matches the pattern with the invalid version 01.0.0; the
    comparison of the sort throws on it, the [catch] of the function
    returns null, and the locator returns none although an image of the
    desired version 1.2.3 is listed.  Alone, the image of version 1.2.3 is
    returned, and so is the image of the invalid version when it is alone
    and asked for. *)
Theorem findImageForVersion_misses_listed_image :
  Shell.mkImage "meshtastic-docker:v1.2.3-1" "1.2.3" 1
    ∈ listedImages (Js.lines ["meshtastic-docker:v1.2.3-1";
                              "meshtastic-docker:v01.0.0-1"])
  /\ Shell.findImageForVersion
       (Js.Return (Js.lines ["meshtastic-docker:v1.2.3-1";
                             "meshtastic-docker:v01.0.0-1"]))
       (Some "1.2.3")
     = None
  /\ Shell.findImageForVersion
       (Js.Return (Js.lines ["meshtastic-docker:v1.2.3-1"])) (Some "1.2.3")
     = Some "meshtastic-docker:v1.2.3-1"
  /\ Shell.findImageForVersion
       (Js.Return (Js.lines ["meshtastic-docker:v01.0.0-1"])) (Some "01.0.0")
     = Some "meshtastic-docker:v01.0.0-1"
  /\ Semver.compare "1.2.3" "01.0.0" = Js.Throw "Invalid Version: 01.0.0".
Proof. split_and!; try by vm_compute. vm_compute. left. Qed.

(** Build numbers from 2^53 on are rounded when they are read: the tags of
    the builds 9007199254740992 and 9007199254740993 of one version carry
    the same number, the sort leaves them in the order of the listing, and
    the locator returns the first listed, whichever it is. *)
Lemma findImageForVersion_rounds_build_numbers :
  listedImages (Js.lines ["meshtastic-docker:v1.0.0-9007199254740992";
                          "meshtastic-docker:v1.0.0-9007199254740993"])
  = [Shell.mkImage "meshtastic-docker:v1.0.0-9007199254740992" "1.0.0"
       9007199254740992;
     Shell.mkImage "meshtastic-docker:v1.0.0-9007199254740993" "1.0.0"
       9007199254740992]
  /\ Shell.findImageForVersion
       (Js.Return (Js.lines ["meshtastic-docker:v1.0.0-9007199254740992";
                             "meshtastic-docker:v1.0.0-9007199254740993"]))
       (Some "1.0.0")
     = Some "meshtastic-docker:v1.0.0-9007199254740992"
  /\ Shell.findImageForVersion
       (Js.Return (Js.lines ["meshtastic-docker:v1.0.0-9007199254740993";
                             "meshtastic-docker:v1.0.0-9007199254740992"]))
       (Some "1.0.0")
     = Some "meshtastic-docker:v1.0.0-9007199254740993".
Proof. split_and!; by vm_compute. Qed.

(** C7: the locator never throws.  It returns none for an empty listing,
    none when the listing command fails, and none whenever anything inside
    its [try] block throws; its result is always a value. *)
Theorem findImageForVersion_never_throws (version : option string) :
  Shell.findImageForVersion (Js.Return "") version = None
  /\ (forall msg, Shell.findImageForVersion (Js.Throw msg) version = None)
  /\ (forall listing msg,
        Shell.findImageForVersion_try listing version = Js.Throw msg ->
        Shell.findImageForVersion listing version = None)
  /\ (forall listing,
        Shell.findImageForVersion listing version
        = match Shell.findImageForVersion_try listing version with
          | Js.Return found => found
          | Js.Throw _ => None
          end).
Proof.
  split_and!.
  - unfold Shell.findImageForVersion, Shell.findImageForVersion_try. simpl.
    by destruct (Shell.truthy version).
  - done.
  - intros listing msg H. unfold Shell.findImageForVersion. by rewrite H.
  - done.
Qed.

(** C7, witness: the comparison of the sort throws on the invalid version
    01.0.0 and the locator returns none. *)
Lemma findImageForVersion_never_throws_witness :
  Shell.findImageForVersion
    (Js.Return (Js.lines ["meshtastic-docker:v1.2.3-1";
                          "meshtastic-docker:v01.0.0-1"]))
    (Some "1.2.3")
  = None.
Proof.
  apply (proj1 (proj2 (proj2 (findImageForVersion_never_throws (Some "1.2.3"))))
           _ "Invalid Version: 01.0.0").
  vm_compute. reflexivity.
Defined.

(** ** The shell launcher *)

Lemma orZero_code c : Shell.orZero (Some c) = c.
Proof.
  unfold Shell.orZero. destruct (c =? 0)%Z eqn:E; [|done].
  by apply Z.eqb_eq in E.
Qed.

(** C9: whenever the launcher resolves an image and the interactive
    container process it spawns closes with exit code [c], the command
    exits with status [c], after spawning that process on the resolved
    image. *)
Theorem main_propagates_exit_code
    (w : Shell.World) (versionArg : option string) (imageToUse : string) (c : Z) :
  Shell.resolveImage w versionArg = Js.Return (Some imageToUse) ->
  Shell.shellOutcome w = Build.Close (Some c) ->
  Shell.main w versionArg
  = Shell.mkExit c (Some ["docker"; "run"; "-it"; "--rm"; imageToUse; "bash"]).
Proof.
  intros Hres Hout. unfold Shell.main, Shell.openShell.
  by rewrite Hres, Hout, orZero_code.
Qed.

(** C9, witness: the image of version 2.7.16 is listed and the shell
    exits with code 3. *)
Lemma main_propagates_exit_code_witness :
  Shell.main
    (Shell.mkWorld (Js.Return (Js.lines ["meshtastic-docker:v2.7.16-1"; ""]))
                   (Js.Return "") (Js.Return "") (Js.Return ())
                   (Build.Close (Some 3%Z)))
    (Some "2.7.16")
  = Shell.mkExit 3
      (Some ["docker"; "run"; "-it"; "--rm"; "meshtastic-docker:v2.7.16-1"; "bash"]).
Proof.
  apply (main_propagates_exit_code
    (Shell.mkWorld (Js.Return (Js.lines ["meshtastic-docker:v2.7.16-1"; ""]))
                   (Js.Return "") (Js.Return "") (Js.Return ())
                   (Build.Close (Some 3%Z)))
    (Some "2.7.16") "meshtastic-docker:v2.7.16-1" 3).
  - vm_compute. reflexivity.
  - reflexivity.
Defined.

(** * Further properties of the scripts *)

(** ** The catalog and the selection of the builder *)

Lemma StronglySorted_sublist {A : Type} (R : A -> A -> Prop) (l1 l2 : list A) :
  l1 `sublist_of` l2 -> StronglySorted R l2 -> StronglySorted R l1.
Proof.
  induction 1 as [|x l1 l2 Hsub IH|x l1 l2 Hsub IH]; intros Hs; [done| |].
  - apply StronglySorted_inv in Hs as [Hs Hx].
    constructor; [by apply IH|].
    apply Forall_forall. intros y Hy. eapply Forall_forall in Hx; [done|].
    by eapply sublist_subseteq.
  - apply StronglySorted_inv in Hs as [Hs _]. by apply IH.
Qed.

Lemma pure_sort_id {A : Type} (c : A -> A -> Z) (l : list A) :
  StronglySorted (PureSort.before c) l -> PureSort.sort c l = l.
Proof.
  induction 1 as [|x l Hs IH Hx]; simpl; [done|].
  rewrite IH. destruct l as [|y l]; simpl; [done|].
  apply Forall_inv in Hx. unfold PureSort.before in Hx.
  by rewrite (proj2 (Z.leb_le _ _) Hx).
Qed.

Lemma notOlder_valid a b :
  notOlder a b -> Semver.valid a = true /\ Semver.valid b = true.
Proof. intros (c & Hc & _). by eapply compare_Return_valid. Qed.

Lemma notOlder_before a b :
  notOlder (Build.version a) (Build.version b) ->
  PureSort.before newestFirstPure a b.
Proof.
  intros H. destruct (notOlder_valid _ _ H) as [Ha Hb].
  destruct H as (c & Hc & Hle). rewrite (compare_valid _ _ Ha Hb) in Hc.
  injection Hc as <-. unfold PureSort.before, newestFirstPure.
  rewrite compareSemVer_antisym.
  destruct (Semver.compareSemVer _ _); simpl in *; lia.
Qed.

Lemma newestFirstPure_tie_refl e : PureSort.tie newestFirstPure e e = true.
Proof.
  unfold PureSort.tie, newestFirstPure.
  by rewrite compareSemVer_refl.
Qed.

Lemma not_tie_newer e x :
  notOlder (Build.version e) (Build.version x) ->
  PureSort.tie newestFirstPure e x <> true ->
  newer (Build.version e) (Build.version x).
Proof.
  intros H Hn. destruct (notOlder_valid _ _ H) as [He Hx].
  destruct H as (c & Hc & Hle). exists c. split; [done|].
  rewrite (compare_valid _ _ He Hx) in Hc. injection Hc as <-.
  unfold PureSort.tie, newestFirstPure in Hn.
  rewrite compareSemVer_antisym in Hn.
  destruct (Semver.compareSemVer _ _); simpl in *; (done || lia).
Qed.

Lemma filter_cons_split {A : Type} (P : A -> Prop) `{!forall x, Decision (P x)}
    (l : list A) x r :
  filter P l = x :: r ->
  exists pre post, l = pre ++ x :: post /\ forall y, y ∈ pre -> ~ P y.
Proof.
  induction l as [|y l IH]; [done|]. rewrite filter_cons.
  destruct (decide (P y)) as [Hy|Hy].
  - intros [= -> _]. exists [], l. split; [done|]. by intros ? ?%elem_of_nil.
  - intros Hf. destruct (IH Hf) as (pre & post & -> & Hpre).
    exists (y :: pre), post. split; [done|].
    intros z [->|Hz]%elem_of_cons; auto.
Qed.

(** The head of the sorted catalog is not older than any valid entry, and
    the valid entries listed before it are older. *)
Lemma sorted_head_newest tags e rest :
  safeTags tags ->
  PureSort.sort newestFirstPure (validEntries tags) = e :: rest ->
  (forall e', e' ∈ validEntries tags ->
     notOlder (Build.version e) (Build.version e'))
  /\ exists pre post,
       validEntries tags = pre ++ e :: post
       /\ forall x, x ∈ pre -> newer (Build.version e) (Build.version x).
Proof.
  intros Hsafe Hs.
  pose proof (pure_sort_perm newestFirstPure (validEntries tags)) as Hp.
  pose proof (safeTags_validEntries _ Hsafe) as Hexact.
  pose proof (pure_sort_sorted _ _ newestFirstPure_opp newestFirstPure_trans
                (validEntries tags) Hexact) as Hsorted.
  assert (Hexe : exactEntry e).
  { eapply Forall_forall; [exact Hexact|]. rewrite <- Hp, Hs. left. }
  pose proof (pure_sort_stable _ _ newestFirstPure_opp newestFirstPure_trans
                e (validEntries tags) Hexe Hexact) as Hstable.
  rewrite Hs in Hp, Hsorted, Hstable.
  assert (He : Semver.valid (Build.version e) = true).
  { apply (validEntries_valid tags). rewrite <- Hp. left. }
  assert (Hmax : forall e', e' ∈ validEntries tags ->
                   notOlder (Build.version e) (Build.version e')).
  { intros e' He'. pose proof (validEntries_valid _ _ He') as Hv.
    apply before_notOlder; try done.
    rewrite <- Hp in He'. apply elem_of_cons in He' as [->|He'].
    - apply (before_refl _ newestFirstPure_opp).
    - apply StronglySorted_inv in Hsorted as [_ Hall].
      by eapply Forall_forall in Hall. }
  split; [done|].
  rewrite filter_cons_True in Hstable by apply newestFirstPure_tie_refl.
  symmetry in Hstable.
  destruct (filter_cons_split _ _ _ _ Hstable) as (pre & post & Hl & Hpre).
  exists pre, post. split; [done|]. intros x Hx.
  apply not_tie_newer; [|by apply Hpre].
  apply Hmax. rewrite Hl. apply elem_of_app. by left.
Qed.

(** X1: [getLatestTag] never throws and returns at most one entry, an
    entry extracted from a listed tag whose version is valid, and none
    exactly when no tag carries a valid version.  When the numeric
    prerelease identifiers of the versions are at most 2^53, the entry it
    returns is not older than any valid entry, and it is the first such
    entry of the listing: every valid entry listed before it is older.  For
    the argument [latest] the selection of [main] is this list, whatever
    the [--all-patches] flag. *)
Theorem getLatestTag_newest_first_listed (tags : list string) :
  exists out,
    Build.getLatestTag tags = Js.Return out
    /\ length out <= 1
    /\ (out = [] <-> validEntries tags = [])
    /\ (forall e, e ∈ out -> e ∈ validEntries tags)
    /\ (safeTags tags ->
        forall e, e ∈ out ->
          (forall e', e' ∈ validEntries tags ->
             notOlder (Build.version e) (Build.version e'))
          /\ exists pre post,
               validEntries tags = pre ++ e :: post
               /\ forall x, x ∈ pre -> newer (Build.version e) (Build.version x))
    /\ (forall allPatches,
          Build.selectVersions tags "latest" allPatches = Js.Return out).
Proof.
  unfold Build.selectVersions, Build.getLatestTag. simpl.
  rewrite getAllValidVersions_pure. simpl.
  pose proof (pure_sort_perm newestFirstPure (validEntries tags)) as Hp.
  destruct (PureSort.sort newestFirstPure (validEntries tags)) as [|e rest] eqn:Hs.
  - exists []. split_and!; try done;
      [simpl; lia| |by intros ? ?%elem_of_nil|by intros _ ? ?%elem_of_nil].
    split; [|done]. intros _. by apply Permutation_nil.
  - exists [e]. split_and!; try done.
    + split; [done|]. intros Hnil. rewrite Hnil in Hp. symmetry in Hp.
      by apply Permutation_nil_cons in Hp.
    + intros e0 ->%list_elem_of_singleton. rewrite <- Hp. left.
    + intros Hsafe e0 ->%list_elem_of_singleton. by eapply sorted_head_newest.
Qed.

Lemma selectVersions_range tags range allPatches :
  range <> "latest" ->
  Build.selectVersions tags range allPatches
  = Js.Return
      (let filtered :=
         filter (fun e => Semver.satisfies (Build.version e) range = true)
                (PureSort.sort newestFirstPure (validEntries tags)) in
       if allPatches then filtered else Build.getLatestPatchPerMinor filtered).
Proof.
  intros Hr. unfold Build.selectVersions, Build.filterTagsBySemver.
  destruct (String.eqb range "latest") eqn:E;
    [by apply String.eqb_eq in E|].
  rewrite getAllValidVersions_pure. simpl. by destruct allPatches.
Qed.

(** X2: for a range of primitive comparators and [--all-patches], the
    selection of [main] never throws and holds exactly the entries
    extracted from the listed tags whose version is valid and satisfies the
    range; when the numeric prerelease identifiers of the versions are
    at most 2^53 it is sorted descending by precedence. *)
Theorem selectVersions_all_patches (tags : list string) (range : string) :
  range <> "latest" ->
  Semver.isPrimitiveRange range = true ->
  exists plan,
    Build.selectVersions tags range true = Js.Return plan
    /\ (forall e,
          e ∈ plan <->
          (exists t, t ∈ tags /\ e = Build.extractVersion t)
          /\ Semver.valid (Build.version e) = true
          /\ Semver.satisfies (Build.version e) range = true)
    /\ (safeTags tags ->
        StronglySorted
          (fun a b => notOlder (Build.version a) (Build.version b)) plan).
Proof.
  intros Hr _. rewrite (selectVersions_range _ _ _ Hr). eexists. split; [done|].
  pose proof (pure_sort_perm newestFirstPure (validEntries tags)) as Hp.
  split.
  - intros e. rewrite list_elem_of_filter, Hp. unfold validEntries.
    rewrite list_elem_of_filter, list_elem_of_fmap. split.
    + intros (Hsat & Hv & t & -> & Ht). eauto.
    + intros ((t & Ht & ->) & Hv & Hsat). eauto.
  - intros Hsafe.
    eapply StronglySorted_sublist; [apply sublist_filter|by apply catalog_sorted].
Qed.

(** X2, witness: the example tags and the range [>2.6.0 <2.7.16]. *)
Lemma selectVersions_all_patches_witness :
  exists plan,
    Build.selectVersions ["v2.7.16"; "v2.7.15"; "v2.6.0"; "v2.6.1"; "notaversion"]
      ">2.6.0 <2.7.16" true = Js.Return plan
    /\ plan = [Build.mkEntry "v2.7.15" "2.7.15"; Build.mkEntry "v2.6.1" "2.6.1"]
    /\ StronglySorted
         (fun a b => notOlder (Build.version a) (Build.version b)) plan.
Proof.
  destruct (selectVersions_all_patches
    ["v2.7.16"; "v2.7.15"; "v2.6.0"; "v2.6.1"; "notaversion"] ">2.6.0 <2.7.16")
    as (plan & H1 & _ & H3); [discriminate|reflexivity|].
  exists plan. split; [exact H1|]. split.
  - vm_compute in H1. by injection H1 as <-.
  - apply H3. repeat constructor.
Defined.

Lemma minorOf_valid e :
  Semver.valid (Build.version e) = true -> is_Some (minorOf e).
Proof.
  intros [x Hx]%valid_parse. unfold minorOf. rewrite Hx. by eexists.
Qed.

(** On a descending sequence every entry is represented in the collapse by
    an entry of its minor line that is not older. *)
Lemma collapse_represents versions e k :
  StronglySorted (fun a b => notOlder (Build.version a) (Build.version b)) versions ->
  e ∈ versions -> minorOf e = Some k ->
  exists e', e' ∈ collapse [] versions /\ minorOf e' = Some k
             /\ notOlder (Build.version e') (Build.version e).
Proof.
  intros Hsorted He Hk.
  destruct (first_occurrence minorOf versions e k He Hk)
    as (pre & e0 & post & Hv & Hk0 & Hpre & Hpos).
  exists e0. split_and!; [|done|].
  - rewrite Hv. eapply collapse_first; eauto. apply not_elem_of_nil.
  - destruct Hpos as [->|Hpost]; [by eapply notOlder_refl|].
    rewrite Hv in Hsorted. apply StronglySorted_app_1_r in Hsorted.
    apply StronglySorted_inv in Hsorted as [_ Hall].
    by eapply Forall_forall in Hall.
Qed.

(** X3: for a range of primitive comparators and tags whose versions have
    their numeric prerelease identifiers at most 2^53, the default
    selection of [main] (without [--all-patches]) is a subsequence of the
    selection with [--all-patches], so it is no longer; it holds at most one
    entry per [(major, minor)] pair, and every entry the flag would select
    is represented in it by an entry of the same pair that is not older. *)
Theorem selectVersions_collapsed (tags : list string) (range : string) :
  range <> "latest" ->
  Semver.isPrimitiveRange range = true ->
  safeTags tags ->
  exists allPlan plan,
    Build.selectVersions tags range true = Js.Return allPlan
    /\ Build.selectVersions tags range false = Js.Return plan
    /\ plan `sublist_of` allPlan
    /\ length plan <= length allPlan
    /\ NoDup (minorOf <$> plan)
    /\ (forall e, e ∈ allPlan ->
          exists e', e' ∈ plan /\ minorOf e' = minorOf e
                     /\ notOlder (Build.version e') (Build.version e)).
Proof.
  intros Hr _ Hsafe. rewrite !(selectVersions_range _ _ _ Hr). simpl.
  set (allPlan := filter _ _).
  exists allPlan, (Build.getLatestPatchPerMinor allPlan).
  rewrite getLatestPatchPerMinor_collapse.
  assert (Hsorted : StronglySorted
            (fun a b => notOlder (Build.version a) (Build.version b)) allPlan).
  { eapply StronglySorted_sublist; [apply sublist_filter|by apply catalog_sorted]. }
  split_and!; try done.
  - apply collapse_sublist.
  - apply sublist_length, collapse_sublist.
  - apply collapse_NoDup.
  - intros e He.
    assert (Hv : Semver.valid (Build.version e) = true).
    { apply list_elem_of_filter in He as [_ He].
      rewrite (pure_sort_perm newestFirstPure (validEntries tags)) in He.
      by eapply validEntries_valid. }
    destruct (minorOf_valid _ Hv) as [k Hk].
    destruct (collapse_represents _ _ _ Hsorted He Hk) as (e' & H1 & H2 & H3).
    exists e'. split_and!; [done|congruence|done].
Qed.

(** X3, witness: the example tags and the range [>=2.6.0]. *)
Lemma selectVersions_collapsed_witness :
  exists allPlan plan,
    Build.selectVersions ["v2.7.16"; "v2.7.15"; "v2.6.0"; "v2.6.1"; "notaversion"]
      ">=2.6.0" true = Js.Return allPlan
    /\ Build.selectVersions ["v2.7.16"; "v2.7.15"; "v2.6.0"; "v2.6.1"; "notaversion"]
         ">=2.6.0" false = Js.Return plan
    /\ allPlan = [Build.mkEntry "v2.7.16" "2.7.16"; Build.mkEntry "v2.7.15" "2.7.15";
                  Build.mkEntry "v2.6.1" "2.6.1"; Build.mkEntry "v2.6.0" "2.6.0"]
    /\ plan = [Build.mkEntry "v2.7.16" "2.7.16"; Build.mkEntry "v2.6.1" "2.6.1"]
    /\ plan `sublist_of` allPlan.
Proof.
  destruct (selectVersions_collapsed
    ["v2.7.16"; "v2.7.15"; "v2.6.0"; "v2.6.1"; "notaversion"] ">=2.6.0")
    as (allPlan & plan & H1 & H2 & H3 & _);
    [discriminate|reflexivity|repeat constructor|].
  exists allPlan, plan. split_and!; try done.
  - vm_compute in H1. by injection H1 as <-.
  - vm_compute in H2. by injection H2 as <-.
Defined.

Lemma collapse_idempotent versions :
  forall earlier, collapse earlier (collapse earlier versions) = collapse earlier versions.
Proof.
  induction versions as [|e rest IH]; intros earlier; simpl; [done|].
  destruct (minorOf e) as [k|] eqn:Hk; [|by apply IH].
  case_decide as Hd; [by apply IH|].
  simpl. rewrite Hk, decide_False by done. by rewrite IH.
Qed.

(** X4: [getLatestPatchPerMinor] is idempotent on every sequence, sorted
    or not; its output is a subsequence of its input, so it is no longer,
    and entries whose version does not parse are left out. *)
Theorem getLatestPatchPerMinor_idempotent (versions : list Build.VersionEntry) :
  Build.getLatestPatchPerMinor (Build.getLatestPatchPerMinor versions)
  = Build.getLatestPatchPerMinor versions
  /\ Build.getLatestPatchPerMinor versions `sublist_of` versions
  /\ length (Build.getLatestPatchPerMinor versions) <= length versions
  /\ Forall (fun e => Semver.valid (Build.version e) = true)
            (Build.getLatestPatchPerMinor versions).
Proof.
  rewrite !getLatestPatchPerMinor_collapse. split_and!.
  - apply collapse_idempotent.
  - apply collapse_sublist.
  - apply sublist_length, collapse_sublist.
  - apply Forall_forall. intros e He.
    destruct (collapse_fresh _ _ _ He) as [k [Hk _]].
    unfold minorOf in Hk. apply valid_parse.
    destruct (Semver.parse (Build.version e)); [eauto|done].
Qed.

(** X5: when the valid entries of the listing are already in descending
    order of precedence, as the tag listing command is asked to give them,
    [getAllValidVersions] returns them in the order of the listing. *)
Theorem getAllValidVersions_keeps_sorted_listing (tags : list string) :
  StronglySorted (fun a b => notOlder (Build.version a) (Build.version b))
    (validEntries tags) ->
  Build.getAllValidVersions tags = Js.Return (validEntries tags).
Proof.
  intros Hs. rewrite getAllValidVersions_pure. f_equal.
  apply pure_sort_id.
  eapply StronglySorted_impl_elem; [|exact Hs].
  intros x y _ _. apply notOlder_before.
Qed.

(** X5, witness: a listing in descending order with a tag that is not a
    version. *)
Lemma getAllValidVersions_keeps_sorted_listing_witness :
  Build.getAllValidVersions ["v2.7.16"; "nightly"; "v2.7.15"; "v2.6.1-rc1"]
  = Js.Return (validEntries ["v2.7.16"; "nightly"; "v2.7.15"; "v2.6.1-rc1"]).
Proof.
  apply (getAllValidVersions_keeps_sorted_listing
           ["v2.7.16"; "nightly"; "v2.7.15"; "v2.6.1-rc1"]).
  change (validEntries ["v2.7.16"; "nightly"; "v2.7.15"; "v2.6.1-rc1"])
    with [Build.mkEntry "v2.7.16" "2.7.16"; Build.mkEntry "v2.7.15" "2.7.15";
          Build.mkEntry "v2.6.1-rc1" "2.6.1-rc1"].
  repeat constructor;
    (eexists; split; [vm_compute; reflexivity|vm_compute; discriminate]).
Defined.

(** ** The build command *)

Lemma selectVersions_returns tags semverArg allPatches :
  exists plan,
    Build.selectVersions tags semverArg allPatches = Js.Return plan
    /\ forall e, e ∈ plan -> e ∈ validEntries tags.
Proof.
  pose proof (pure_sort_perm newestFirstPure (validEntries tags)) as Hp.
  destruct (decide (semverArg = "latest")) as [->|Hr].
  - unfold Build.selectVersions, Build.getLatestTag. simpl.
    rewrite getAllValidVersions_pure. simpl. eexists. split; [done|].
    intros e He. rewrite <- Hp.
    destruct (PureSort.sort _ _); [by apply elem_of_nil in He|].
    apply list_elem_of_singleton in He as ->. left.
  - rewrite (selectVersions_range _ _ _ Hr). eexists. split; [done|].
    intros e He. rewrite <- Hp.
    assert (Hf : e ∈ filter
              (fun e => Semver.satisfies (Build.version e) semverArg = true)
              (PureSort.sort newestFirstPure (validEntries tags))).
    { destruct allPatches; [done|].
      rewrite getLatestPatchPerMinor_collapse in He.
      by eapply sublist_subseteq; [apply collapse_sublist|]. }
    by apply list_elem_of_filter in Hf as [_ ?].
Qed.


Lemma orElse_nonempty value fallback :
  Build.orElse value fallback
  = match value with
    | Some (String c s) => String c s
    | _ => fallback
    end.
Proof. by destruct value as [[|c s]|]. Qed.

Lemma safeTags_filter (P : string -> Prop) `{!forall t, Decision (P t)} tags :
  safeTags tags -> safeTags (filter P tags).
Proof.
  unfold safeTags. intros Hs. apply Forall_forall. intros t Ht.
  apply list_elem_of_filter in Ht as [_ Ht]. by eapply Forall_forall in Hs.
Qed.

(** What a run of [main] does once the selection is known. *)
Lemma main_of_plan stdout spawn options tags plan :
  Build.fetchTags (Js.Return stdout) = Js.Return tags ->
  Build.selectVersions tags (semverArgOf options) (Build.allPatchesOption options)
  = Js.Return plan ->
  exists results,
    length results = length plan
    /\ Build.main (Js.Return stdout) spawn options
       = Build.mkRun
           (if (0 <? length (filter (fun r => Build.success r = false) results))%nat
            then 1 else 0)%Z
           (map (commandOf 1 (cacheBustOf options) (cacheCleanupOf options)) plan)
           results.
Proof.
  intros Hf Hs. unfold Build.main. rewrite !orElse_nonempty.
  fold (semverArgOf options) (cacheBustOf options) (cacheCleanupOf options).
  rewrite Hf. cbn [Js.bind]. rewrite Hs.
  destruct plan as [|e plan]; [by exists []|].
  unfold Build.buildSequentially.
  destruct (buildLoop_spec spawn Build.BUILD_NUM (cacheBustOf options)
              (cacheCleanupOf options) (e :: plan) [] [])
    as (rs & Heq & Hlen & _).
  rewrite Heq. simpl app. exists rs. split; [done|].
  by destruct (0 <? length _)%nat.
Qed.


Lemma getLatestTag_at_most_one tags :
  exists out, Build.getLatestTag tags = Js.Return out /\ length out <= 1.
Proof.
  unfold Build.getLatestTag. rewrite getAllValidVersions_pure. simpl.
  eexists. split; [done|]. destruct (PureSort.sort _ _); simpl; lia.
Qed.

(** X7: for an argument that is absent, empty, [latest] or a range of
    primitive comparators, the build command only builds listed tags: every
    command line it spawns is the build, as written out in [commandOf] for
    build number 1, of a non-blank line of the tag listing whose extracted
    version is a valid semantic version.  When the argument is absent,
    empty or [latest], at most one build is spawned. *)
Theorem main_builds_only_listed_tags
    (stdout : string) (spawn : Build.Spawner) (options : Build.Options) :
  semverArgOf options = "latest"
  \/ Semver.isPrimitiveRange (semverArgOf options) = true ->
  (forall command,
     command ∈ Build.spawnedBuilds (Build.main (Js.Return stdout) spawn options) ->
     exists t,
       t ∈ Js.split "010" stdout
       /\ Js.isEmpty (Js.trim t) = false
       /\ Semver.valid (Build.version (Build.extractVersion t)) = true
       /\ command
          = commandOf 1 (cacheBustOf options) (cacheCleanupOf options)
              (Build.extractVersion t))
  /\ (semverArgOf options = "latest" ->
      length (Build.spawnedBuilds (Build.main (Js.Return stdout) spawn options)) <= 1).
Proof.
  intros _.
  set (tags := filter (fun t => Js.isEmpty (Js.trim t) = false)
                      (Js.split "010" stdout)).
  destruct (selectVersions_returns tags (semverArgOf options)
              (Build.allPatchesOption options)) as (plan & Hplan & Hsub).
  destruct (main_of_plan stdout spawn options tags plan eq_refl Hplan)
    as (results & Hlen & ->).
  simpl. split.
  - intros command (e & -> & He)%list_elem_of_fmap.
    apply Hsub in He. unfold validEntries in He.
    apply list_elem_of_filter in He as [Hv He].
    apply list_elem_of_fmap in He as (t & -> & Ht).
    apply list_elem_of_filter in Ht as [Hblank Ht].
    exists t. split_and!; done.
  - intros Hlatest. rewrite Hlatest in Hplan.
    destruct (getLatestTag_at_most_one tags) as (out & Hout & Hle).
    unfold Build.selectVersions in Hplan. simpl in Hplan.
    rewrite Hout in Hplan. injection Hplan as <-. by rewrite length_map.
Qed.

(** X7, witness: no argument and two cache cleanup paths, a listing of
    three lines; the one build is that of the newest tag. *)
Lemma main_builds_only_listed_tags_witness :
  Build.spawnedBuilds
    (Build.main (Js.Return (Js.lines ["v2.7.15"; "v2.7.16"; "nightly"; ""]))
       (fun _ _ => Build.Close (Some 0%Z))
       (Build.mkOptions None None false ["/tmp/a"; "/tmp/b"]))
  = [["docker"; "build"; "--build-arg"; "MESHTASTIC_VERSION=v2.7.16";
      "--build-arg"; "CACHE_BUST=1";
      "--build-arg"; "CACHE_CLEANUP=/tmp/a /tmp/b";
      "-t"; "benallfree/meshtastic-docker:v2.7.16-1"; "."]].
Proof.
  destruct (main_builds_only_listed_tags
    (Js.lines ["v2.7.15"; "v2.7.16"; "nightly"; ""])
    (fun _ _ => Build.Close (Some 0%Z))
    (Build.mkOptions None None false ["/tmp/a"; "/tmp/b"]))
    as [Hall Hone]; [by left|].
  specialize (Hone eq_refl).
  destruct (Build.spawnedBuilds _) as [|command [|command' rest]] eqn:E;
    [by vm_compute in E| |simpl in Hone; lia].
  destruct (Hall command ltac:(left)) as (t & Ht & _ & Hv & ->).
  vm_compute in E. injection E as E. rewrite <- E.
  reflexivity.
Defined.

(** ** Strings and the patterns *)

Lemma allChars_app p a b :
  Js.allChars p (a +:+ b) = Js.allChars p a && Js.allChars p b.
Proof.
  induction a as [|x a IH]; [done|].
  rewrite append_cons. simpl. by rewrite IH, andb_assoc.
Qed.

Lemma allChars_impl (p q : ascii -> bool) s :
  (forall c, p c = true -> q c = true) ->
  Js.allChars p s = true -> Js.allChars q s = true.
Proof.
  intros H. induction s as [|c s IH]; [done|]. simpl.
  intros [Hc Hs]%andb_prop. by rewrite (H c Hc), IH.
Qed.

Lemma isDigit_isWordDotDash c : Js.isDigit c = true -> Js.isWordDotDash c = true.
Proof. unfold Js.isWordDotDash, Js.isWordDash. by intros ->. Qed.

Lemma span_spec p s a b :
  Js.span p s = (a, b) ->
  s = a +:+ b /\ Js.allChars p a = true /\ stopsAt p b.
Proof.
  revert a b. induction s as [|c s IH]; intros a b; simpl.
  - by intros [= <- <-].
  - destruct (p c) eqn:Hc.
    + destruct (Js.span p s) as [a' b'] eqn:E. intros [= <- <-].
      destruct (IH _ _ eq_refl) as (-> & Ha & Hb).
      rewrite append_cons. simpl. by rewrite Hc, Ha.
    + intros [= <- <-]. done.
Qed.

Lemma span_app p a b :
  Js.allChars p a = true -> stopsAt p b -> Js.span p (a +:+ b) = (a, b).
Proof.
  induction a as [|c a IH]; simpl.
  - intros _ Hb. rewrite ?append_nil. destruct b as [|c b]; [done|].
    simpl in *. by rewrite Hb.
  - intros [Hc Ha]%andb_prop Hb. rewrite ?append_cons. simpl.
    by rewrite Hc, (IH Ha Hb).
Qed.

Lemma matchChar_spec c s r : Js.matchChar c s = Some r -> s = String c r.
Proof.
  destruct s as [|c' s]; simpl; [done|].
  destruct (Ascii.eqb c c') eqn:E; [|done].
  apply Ascii.eqb_eq in E as ->. by intros [= ->].
Qed.

Lemma matchDigits_spec s d r :
  Js.matchDigits s = Some (d, r) ->
  s = d +:+ r /\ (Js.allChars Js.isDigit d = true /\ Js.isEmpty d = false)
  /\ stopsAt Js.isDigit r.
Proof.
  unfold Js.matchDigits. destruct (Js.span Js.isDigit s) as [a b] eqn:E.
  destruct (Js.isEmpty a) eqn:Ha; [done|]. intros [= <- <-].
  apply span_spec in E as (-> & Hd & Hb). done.
Qed.

Lemma matchDigits_app d r :
  Js.allChars Js.isDigit d = true -> Js.isEmpty d = false ->
  stopsAt Js.isDigit r ->
  Js.matchDigits (d +:+ r) = Some (d, r).
Proof.
  intros Hd Hne Hr. unfold Js.matchDigits.
  by rewrite (span_app _ _ _ Hd Hr), Hne.
Qed.

Lemma matchTriple_spec s d1 d2 d3 r :
  Js.matchTriple s = Some (d1, d2, d3, r) ->
  s = Js.tripleText d1 d2 d3 +:+ r /\ digitGroups d1 d2 d3
  /\ stopsAt Js.isDigit r.
Proof.
  unfold Js.matchTriple.
  destruct (Js.matchDigits s) as [[a1 r1]|] eqn:E1; [|done].
  destruct (Js.matchChar "." r1) as [r1'|] eqn:C1; [|done].
  destruct (Js.matchDigits r1') as [[a2 r2]|] eqn:E2; [|done].
  destruct (Js.matchChar "." r2) as [r2'|] eqn:C2; [|done].
  destruct (Js.matchDigits r2') as [[a3 r3]|] eqn:E3; [|done].
  intros [= <- <- <- <-].
  apply matchDigits_spec in E1 as (-> & H1 & _).
  apply matchChar_spec in C1 as ->.
  apply matchDigits_spec in E2 as (-> & H2 & _).
  apply matchChar_spec in C2 as ->.
  apply matchDigits_spec in E3 as (-> & H3 & Hr).
  split; [|done]. unfold Js.tripleText.
  by rewrite !string_app_assoc.
Qed.

Lemma matchTriple_app d1 d2 d3 r :
  digitGroups d1 d2 d3 -> stopsAt Js.isDigit r ->
  Js.matchTriple (Js.tripleText d1 d2 d3 +:+ r) = Some (d1, d2, d3, r).
Proof.
  intros ([H1 N1] & [H2 N2] & [H3 N3]) Hr.
  unfold Js.matchTriple, Js.tripleText. rewrite !string_app_assoc.
  rewrite (matchDigits_app d1) by done. rewrite append_cons, append_nil. simpl.
  rewrite (matchDigits_app d2) by done. rewrite append_cons, append_nil. simpl.
  by rewrite (matchDigits_app d3).
Qed.

Lemma stripPrefix_app p s : Js.stripPrefix p (p +:+ s) = Some s.
Proof.
  induction p as [|c p IH]; [by destruct s|].
  rewrite append_cons. simpl. by rewrite Ascii.eqb_refl.
Qed.

Lemma matchBuildNum_spec s d :
  Shell.matchBuildNum s = Some d ->
  s = "-" +:+ d /\ Js.allChars Js.isDigit d = true /\ Js.isEmpty d = false.
Proof.
  unfold Shell.matchBuildNum.
  destruct (Js.matchChar "-" s) as [r|] eqn:C; [|done].
  destruct (Js.matchDigits r) as [[a [|]]|] eqn:E; try done.
  intros [= <-]. apply matchChar_spec in C as ->.
  apply matchDigits_spec in E as (-> & [Hd Hn] & _).
  by rewrite string_app_nil_r.
Qed.

Lemma matchBuildNum_app d :
  Js.allChars Js.isDigit d = true -> Js.isEmpty d = false ->
  Shell.matchBuildNum ("-" +:+ d) = Some d.
Proof.
  intros Hd Hn. unfold Shell.matchBuildNum. rewrite append_cons, append_nil.
  simpl. rewrite <- (string_app_nil_r d) at 1.
  by rewrite (matchDigits_app d "" Hd Hn).
Qed.

Lemma matchBuildNum_digit_start c s :
  Js.isDigit c = true -> Shell.matchBuildNum (String c s) = None.
Proof.
  intros Hc. unfold Shell.matchBuildNum, Js.matchChar.
  destruct (Ascii.eqb_spec "-" c) as [<-|Hne]; done.
Qed.

Lemma matchGroup_spec run after p d :
  Shell.matchGroup run after = Some (p, d) ->
  run +:+ after = p +:+ "-" +:+ d /\ Js.isEmpty p = false
  /\ Js.allChars Js.isDigit d = true /\ Js.isEmpty d = false.
Proof.
  revert p d. induction run as [|c run IH]; intros p d; simpl; [done|].
  destruct (Shell.matchGroup run after) as [[p' d']|] eqn:E.
  - intros [= <- <-]. destruct (IH _ _ eq_refl) as (Heq & _ & Hd & Hn).
    by rewrite !append_cons, Heq.
  - destruct (Shell.matchBuildNum (run +:+ after)) as [d'|] eqn:B; [|done].
    intros [= <- <-]. apply matchBuildNum_spec in B as (Heq & Hd & Hn).
    by rewrite !append_cons, Heq.
Qed.

Lemma matchGroup_digits d :
  Js.allChars Js.isDigit d = true -> Shell.matchGroup d "" = None.
Proof.
  induction d as [|c d IH]; [done|]. simpl. intros [Hc Hd]%andb_prop.
  rewrite (IH Hd), string_app_nil_r.
  destruct d as [|c' d]; [done|].
  simpl in Hd. apply andb_prop in Hd as [Hc' _].
  by rewrite matchBuildNum_digit_start.
Qed.

(** The greedy group gives back exactly the build number. *)
Lemma matchGroup_app p d :
  Js.isEmpty p = false ->
  Js.allChars Js.isDigit d = true -> Js.isEmpty d = false ->
  Shell.matchGroup (p +:+ "-" +:+ d) "" = Some (p, d).
Proof.
  intros Hp Hd Hn. induction p as [|c p IH]; [done|].
  rewrite append_cons. simpl. destruct p as [|c' p].
  - rewrite append_nil, append_cons, append_nil. simpl.
    rewrite (matchGroup_digits d Hd), !string_app_nil_r.
    destruct d as [|c' d]; [done|].
    simpl in Hd. apply andb_prop in Hd as [Hc' Hd].
    rewrite (matchBuildNum_digit_start c' d Hc').
    change (String "-" (String c' d)) with ("-" +:+ String c' d).
    rewrite matchBuildNum_app; [done| |done]. simpl. by rewrite Hc', Hd.
  - by rewrite IH.
Qed.

(** ** The tag pattern of the locator *)

Lemma matchImageLine_spec line v d :
  Shell.matchImageLine line = Some (v, d) ->
  line = "meshtastic-docker:v" +:+ v +:+ "-" +:+ d
  /\ Js.allChars Js.isDigit d = true /\ Js.isEmpty d = false
  /\ exists d1 d2 d3,
       digitGroups d1 d2 d3
       /\ (v = Js.tripleText d1 d2 d3
           \/ exists p, v = Js.tripleText d1 d2 d3 +:+ "-" +:+ p
                        /\ Js.allChars Js.isWordDotDash p = true
                        /\ Js.isEmpty p = false).
Proof.
  unfold Shell.matchImageLine.
  destruct (Js.stripPrefix "meshtastic-docker:v" line) as [s|] eqn:Hs; [|done].
  apply stripPrefix_Some in Hs as ->.
  destruct (Js.matchTriple s) as [[[[d1 d2] d3] r]|] eqn:Ht; [|done].
  apply matchTriple_spec in Ht as (-> & Hg & _).
  destruct (Js.matchChar "-" r) as [r'|] eqn:Hc.
  - destruct (Js.span Js.isWordDotDash r') as [run after] eqn:Hsp.
    destruct (Shell.matchGroup run after) as [[p d']|] eqn:Hm.
    + intros [= <- <-]. apply matchChar_spec in Hc as ->.
      pose proof (span_spec _ _ _ _ Hsp) as (Hr' & Hrun & _).
      pose proof (matchGroup_spec _ _ _ _ Hm) as (Heq & Hp & Hd & Hn).
      rewrite Hr', Heq. split_and!; try done.
      * f_equal. rewrite !string_app_assoc. exact eq_refl.
      * exists d1, d2, d3. split; [done|]. right. exists p. split_and!; try done.
        clear - Hm Hrun. revert p d' Hm Hrun.
        induction run as [|c run IH]; intros p d'; simpl; [done|].
        intros Hm [Hc Hrun]%andb_prop.
        destruct (Shell.matchGroup run after) as [[p' d'']|] eqn:E.
        -- injection Hm as <- <-. simpl. by rewrite Hc, (IH _ _ eq_refl Hrun).
        -- destruct (Shell.matchBuildNum _); [|done].
           injection Hm as <- <-. simpl. by rewrite Hc.
    + destruct (Shell.matchBuildNum r) as [d'|] eqn:Hb; [|done].
      intros [= <- <-]. apply matchBuildNum_spec in Hb as (-> & Hd & Hn).
      split_and!; try done.
      exists d1, d2, d3. split; [done|]. by left.
  - destruct (Shell.matchBuildNum r) as [d'|] eqn:Hb; [|done].
    intros [= <- <-]. apply matchBuildNum_spec in Hb as (-> & Hd & Hn).
    split_and!; try done; exists d1, d2, d3; split; try done; by left.
Qed.

(** X8: the tag parser of the locator only accepts lines of the form
    [meshtastic-docker:v<version>-<digits>]: the image it returns carries
    the line itself, the version between the prefix and the last dash, and
    as build number the integer the digits write when it is below 2^53,
    and the number nearest to it, to the even neighbour half way, when the
    digits are at most 20; the version is three groups of digits separated
    by dots, optionally followed by a dash and characters among letters,
    digits, dots and dashes. *)
Theorem parseImageLine_sound (line : string) (img : Shell.Image) :
  Shell.parseImageLine line = Some img ->
  Shell.image img = line
  /\ exists d,
       line = "meshtastic-docker:v" +:+ Shell.imageVersion img +:+ "-" +:+ d
       /\ Js.allChars Js.isDigit d = true /\ Js.isEmpty d = false
       /\ ((Js.digitsValue d < 2 ^ 53)%N -> Shell.buildNum img = Js.digitsValue d)
       /\ ((Js.digitsValue d < 10 ^ 20)%N ->
           Shell.buildNum img = Js.nearestNumber (Js.digitsValue d))
       /\ exists d1 d2 d3,
            digitGroups d1 d2 d3
            /\ (Shell.imageVersion img = Js.tripleText d1 d2 d3
                \/ exists p,
                     Shell.imageVersion img = Js.tripleText d1 d2 d3 +:+ "-" +:+ p
                     /\ Js.allChars Js.isWordDotDash p = true
                     /\ Js.isEmpty p = false).
Proof.
  unfold Shell.parseImageLine.
  destruct (Shell.matchImageLine line) as [[v d]|] eqn:E; [|done].
  intros [= <-]. simpl. split; [done|].
  destruct (matchImageLine_spec _ _ _ E) as (Hl & Hd & Hn & Hv).
  exists d. split_and!; try done.
  intros Hsmall. by apply nearestNumber_exact.
Qed.

(** X8, witness: a tag with a prerelease, and a build number above 2^53
    that is read as the even neighbour 9007199254740996. *)
Lemma parseImageLine_sound_witness :
  (exists d,
     "meshtastic-docker:v2.7.16-rc.1-12"
     = "meshtastic-docker:v" +:+ "2.7.16-rc.1" +:+ "-" +:+ d
     /\ Js.allChars Js.isDigit d = true /\ Js.isEmpty d = false)
  /\ Shell.parseImageLine "meshtastic-docker:v1.0.0-9007199254740995"
     = Some (Shell.mkImage "meshtastic-docker:v1.0.0-9007199254740995" "1.0.0"
               9007199254740996).
Proof.
  split; [|reflexivity].
  destruct (parseImageLine_sound "meshtastic-docker:v2.7.16-rc.1-12"
              (Shell.mkImage "meshtastic-docker:v2.7.16-rc.1-12" "2.7.16-rc.1" 12))
    as (_ & d & H1 & H2 & H3 & _); [vm_compute; reflexivity|].
  by exists d.
Defined.

(** ** Printing and reading build numbers *)

Lemma digitValue_pretty_N_char y :
  (y < 10)%N -> Js.digitValue (pretty_N_char y) = y.
Proof.
  intros Hy.
  assert (y = 0 \/ y = 1 \/ y = 2 \/ y = 3 \/ y = 4 \/ y = 5 \/ y = 6
          \/ y = 7 \/ y = 8 \/ y = 9)%N as H by lia.
  destruct H as [->|[->|[->|[->|[->|[->|[->|[->|[->| ->]]]]]]]]]; done.
Qed.

Lemma digitsValue_pretty_N_go x s :
  Js.digitsValue_go 0 (pretty_N_go x s) = Js.digitsValue_go x s.
Proof.
  revert s. induction (N.lt_wf_0 x) as [x _ IH]. intros s.
  destruct (decide (x = 0%N)) as [->|Hx]; [by rewrite pretty_N_go_0|].
  rewrite pretty_N_go_step by lia.
  rewrite IH by (apply N.div_lt; lia). simpl.
  rewrite digitValue_pretty_N_char by (apply N.mod_lt; lia).
  f_equal. pose proof (N.div_mod x 10). lia.
Qed.

(** Reading the decimal digits printed for a number gives the number. *)
Lemma digitsValue_showN n : Js.digitsValue (Js.showN n) = n.
Proof.
  unfold Js.showN, pretty, pretty_N, Js.digitsValue.
  case_decide as Hn; [by subst|]. by rewrite digitsValue_pretty_N_go.
Qed.

Lemma showN_nonempty n : Js.isEmpty (Js.showN n) = false.
Proof.
  destruct (Js.showN n) eqn:E; [|done].
  pose proof (digitsValue_showN n) as H. rewrite E in H.
  unfold Js.digitsValue in H. simpl in H. subst n. done.
Qed.

Lemma span_all p a : Js.allChars p a = true -> Js.span p a = (a, "").
Proof.
  intros Ha. rewrite <- (string_app_nil_r a) at 1. by apply span_app.
Qed.

(** The shape of what the version pattern of the builder extracts. *)
Lemma matchVersion_spec s v :
  Build.matchVersion s = Some v ->
  (exists rest, s = v +:+ rest)
  /\ exists d1 d2 d3,
       digitGroups d1 d2 d3
       /\ (v = Js.tripleText d1 d2 d3
           \/ exists p, v = Js.tripleText d1 d2 d3 +:+ "-" +:+ p
                        /\ Js.allChars Js.isWordDotDash p = true
                        /\ Js.isEmpty p = false).
Proof.
  unfold Build.matchVersion.
  destruct (Js.matchTriple s) as [[[[d1 d2] d3] r]|] eqn:Ht; [|done].
  apply matchTriple_spec in Ht as (-> & Hg & _).
  destruct (Js.matchChar "-" r) as [r'|] eqn:Hc.
  - apply matchChar_spec in Hc as ->.
    destruct (Js.span Js.isWordDotDash r') as [p rest] eqn:Hsp.
    apply span_spec in Hsp as (-> & Hp & _).
    destruct (Js.isEmpty p) eqn:Hn; intros [= <-].
    + split; [by eexists|]. exists d1, d2, d3. split; [done|]. by left.
    + split.
      * exists rest. rewrite !string_app_assoc. exact eq_refl.
      * exists d1, d2, d3. split; [done|]. right. by exists p.
  - intros [= <-]. split; [by eexists|].
    exists d1, d2, d3. split; [done|]. by left.
Qed.

Lemma matchImageLine_app d1 d2 d3 v ds :
  digitGroups d1 d2 d3 ->
  (v = Js.tripleText d1 d2 d3
   \/ exists p, v = Js.tripleText d1 d2 d3 +:+ "-" +:+ p
                /\ Js.allChars Js.isWordDotDash p = true
                /\ Js.isEmpty p = false) ->
  Js.allChars Js.isDigit ds = true -> Js.isEmpty ds = false ->
  Shell.matchImageLine ("meshtastic-docker:v" +:+ v +:+ "-" +:+ ds)
  = Some (v, ds).
Proof.
  intros Hg Hv Hd Hn. unfold Shell.matchImageLine.
  rewrite stripPrefix_app.
  assert (Hclass : Js.allChars Js.isWordDotDash ds = true)
    by (eapply allChars_impl; [apply isDigit_isWordDotDash|done]).
  destruct Hv as [->|(p & -> & Hp & Hpn)].
  - rewrite (matchTriple_app d1 d2 d3 ("-" +:+ ds) Hg) by done.
    change (Js.matchChar "-" ("-" +:+ ds)) with (Some ds).
    cbv beta iota. rewrite (span_all _ _ Hclass), (matchGroup_digits _ Hd).
    by rewrite (matchBuildNum_app _ Hd Hn).
  - rewrite !string_app_assoc.
    rewrite (matchTriple_app d1 d2 d3 ("-" +:+ p +:+ "-" +:+ ds) Hg) by done.
    change (Js.matchChar "-" ("-" +:+ p +:+ "-" +:+ ds))
      with (Some (p +:+ "-" +:+ ds)).
    cbv beta iota.
    rewrite span_all.
    + by rewrite (matchGroup_app _ _ Hpn Hd Hn).
    + rewrite !allChars_app, Hp, Hclass. done.
Qed.

(** X9: the tag the first build script gives an image is read back by the
    locator.  For every tag whose version the version pattern extracts and
    every build number below 2^53, the locator parses
    [meshtastic-docker:v<version>-<buildNumber>] to that version and that
    build number. *)
Theorem batch_tag_round_trip (tag v : string) (buildNum : N) :
  Build.matchVersion (Build.stripV tag) = Some v ->
  (buildNum < 2 ^ 53)%N ->
  Build.version (Build.extractVersion tag) = v
  /\ Batch.buildCommand tag v buildNum
     = ["docker"; "build"; "--build-arg"; "MESHTASTIC_VERSION=" +:+ tag;
        "-t"; "meshtastic-docker:v" +:+ v +:+ "-" +:+ pretty buildNum; "."]
  /\ Shell.parseImageLine ("meshtastic-docker:v" +:+ v +:+ "-" +:+ pretty buildNum)
     = Some (Shell.mkImage ("meshtastic-docker:v" +:+ v +:+ "-" +:+ pretty buildNum)
               v buildNum).
Proof.
  intros Hm Hb. split; [|split; [done|]].
  - unfold Build.extractVersion. by rewrite Hm.
  - destruct (matchVersion_spec _ _ Hm) as (_ & d1 & d2 & d3 & Hg & Hv).
    unfold Shell.parseImageLine.
    change (pretty buildNum) with (Js.showN buildNum).
    rewrite (matchImageLine_app d1 d2 d3 v (Js.showN buildNum) Hg Hv
               (showN_digits _) (showN_nonempty _)).
    unfold Js.digitsNumber.
    by rewrite digitsValue_showN, nearestNumber_exact.
Qed.

(** X9, witness: a tag with a commit suffix. *)
Lemma batch_tag_round_trip_witness :
  Shell.parseImageLine "meshtastic-docker:v2.7.16-gabc123-1"
  = Some (Shell.mkImage "meshtastic-docker:v2.7.16-gabc123-1" "2.7.16-gabc123" 1).
Proof.
  apply (batch_tag_round_trip "v2.7.16-gabc123+dirty" "2.7.16-gabc123" 1).
  - vm_compute. reflexivity.
  - reflexivity.
Defined.

(** ** What the locator returns *)

(** X10: whatever the listing holds, an image the locator returns is a
    line of the listing that the tag pattern accepts, and when a non-empty
    version is asked for, the version parsed from that line is the version
    asked for. *)
Theorem findImageForVersion_returns_listed
    (listing : Js.result string) (version : option string) (line : string) :
  Shell.findImageForVersion listing version = Some line ->
  exists stdout img,
    listing = Js.Return stdout
    /\ line ∈ Js.split "010" stdout
    /\ Shell.parseImageLine line = Some img
    /\ (forall v, version = Some v -> v <> "" -> Shell.imageVersion img = v).
Proof.
  intros H. destruct (findImageForVersion_sound _ _ _ H)
    as (stdout & img & H1 & H2 & _ & H3 & H4).
  by exists stdout, img.
Qed.

(** X10, witness: two images of version 1.2.3. *)
Lemma findImageForVersion_returns_listed_witness :
  exists stdout img,
    Js.Return (Js.lines ["meshtastic-docker:v1.2.3-1";
                         "meshtastic-docker:v1.2.3-4"; "other:latest"; ""])
    = Js.Return stdout
    /\ "meshtastic-docker:v1.2.3-4" ∈ Js.split "010" stdout
    /\ Shell.parseImageLine "meshtastic-docker:v1.2.3-4" = Some img
    /\ (forall v, Some "1.2.3" = Some v -> v <> "" -> Shell.imageVersion img = v).
Proof.
  apply (findImageForVersion_returns_listed
    (Js.Return (Js.lines ["meshtastic-docker:v1.2.3-1";
                          "meshtastic-docker:v1.2.3-4"; "other:latest"; ""]))
    (Some "1.2.3") "meshtastic-docker:v1.2.3-4").
  vm_compute. reflexivity.
Defined.

Lemma before_image_order a b :
  Semver.valid (Shell.imageVersion a) = true ->
  Semver.valid (Shell.imageVersion b) = true ->
  PureSort.before newestImageFirstPure a b ->
  newer (Shell.imageVersion a) (Shell.imageVersion b)
  \/ (Semver.compare (Shell.imageVersion a) (Shell.imageVersion b) = Js.Return 0%Z
      /\ (Shell.buildNum b <= Shell.buildNum a)%N).
Proof.
  intros Ha Hb. unfold PureSort.before, newestImageFirstPure, newer.
  rewrite (compare_valid _ _ Ha Hb).
  rewrite (compareSemVer_antisym
             (versionKey (Shell.imageVersion a)) (versionKey (Shell.imageVersion b))).
  destruct (Semver.compareSemVer _ _); simpl; intros H.
  - right. split; [done|lia].
  - lia.
  - left. eexists. split; [done|lia].
Qed.

(** X11: when no version is asked for (the argument is absent or empty)
    the locator returns none for a listing in which no tag matches the
    pattern.  When the listed tags that match the pattern all carry a
    valid semantic version whose numeric prerelease identifiers are at most
    2^53 and a build number below 2^53, it returns none only then, and
    otherwise the image of the highest version, with the highest build
    number among the images of that precedence. *)
Theorem findImageForVersion_newest_image (stdout : string) (version : option string) :
  Shell.truthy version = false ->
  (listedImages stdout = [] ->
   Shell.findImageForVersion (Js.Return stdout) version = None)
  /\ (safeImages (listedImages stdout) ->
      match Shell.findImageForVersion (Js.Return stdout) version with
      | Some line =>
          exists img,
            img ∈ listedImages stdout /\ Shell.image img = line
            /\ forall img', img' ∈ listedImages stdout ->
                 img' = img
                 \/ newer (Shell.imageVersion img) (Shell.imageVersion img')
                 \/ (Semver.compare (Shell.imageVersion img) (Shell.imageVersion img')
                     = Js.Return 0%Z
                     /\ (Shell.buildNum img' <= Shell.buildNum img)%N)
      | None => listedImages stdout = []
      end).
Proof.
  intros Hfalsy. split.
  - intros Hnil.
    unfold Shell.findImageForVersion, Shell.findImageForVersion_try.
    cbn [Js.bind]. fold (listedImages stdout). rewrite Hnil. simpl.
    by rewrite Hfalsy.
  - intros Hok.
    pose proof (sort_listedImages _ (safeImages_valid _ Hok)) as Hsort.
    unfold Shell.findImageForVersion, Shell.findImageForVersion_try.
    cbn [Js.bind]. fold (listedImages stdout).
    rewrite Hsort, Hfalsy. cbn [Js.bind Js.tryCatch].
    pose proof (pure_sort_perm newestImageFirstPure (listedImages stdout)) as Hp.
    pose proof (pure_sort_sorted _ _ newestImageFirstPure_opp
                  newestImageFirstPure_trans
                  (listedImages stdout) (safeImages_exact _ Hok)) as Hs.
    destruct (PureSort.sort newestImageFirstPure (listedImages stdout))
      as [|img images] eqn:E; simpl.
    + by apply Permutation_nil.
    + exists img. split_and!; [rewrite <- Hp; left|done|].
      intros img' Hin.
      pose proof Hin as Hin'. rewrite <- Hp in Hin'.
      apply elem_of_cons in Hin' as [->|Hin']; [by left|right].
      apply StronglySorted_inv in Hs as [_ Hall].
      eapply Forall_forall in Hall; [|exact Hin'].
      pose proof (safeImages_valid _ Hok) as Hvalid.
      apply before_image_order; [| |done].
      * eapply Forall_forall in Hvalid; [done|]. rewrite <- Hp. left.
      * by eapply Forall_forall in Hvalid.
Qed.

(** X11, witness: three images; the one of version 1.10.0 with build
    number 2 is returned. *)
Lemma findImageForVersion_newest_image_witness :
  Shell.findImageForVersion
    (Js.Return (Js.lines ["meshtastic-docker:v1.2.3-7";
                          "meshtastic-docker:v1.10.0-1";
                          "meshtastic-docker:v1.10.0-2"; ""])) None
  = Some "meshtastic-docker:v1.10.0-2"
  /\ match Shell.findImageForVersion
             (Js.Return (Js.lines ["meshtastic-docker:v1.2.3-7";
                                   "meshtastic-docker:v1.10.0-1";
                                   "meshtastic-docker:v1.10.0-2"; ""])) None with
     | Some line =>
         exists img,
           img ∈ listedImages (Js.lines ["meshtastic-docker:v1.2.3-7";
                                         "meshtastic-docker:v1.10.0-1";
                                         "meshtastic-docker:v1.10.0-2"; ""])
           /\ Shell.image img = line
           /\ forall img',
                img' ∈ listedImages (Js.lines ["meshtastic-docker:v1.2.3-7";
                                               "meshtastic-docker:v1.10.0-1";
                                               "meshtastic-docker:v1.10.0-2"; ""]) ->
                img' = img
                \/ newer (Shell.imageVersion img) (Shell.imageVersion img')
                \/ (Semver.compare (Shell.imageVersion img) (Shell.imageVersion img')
                    = Js.Return 0%Z
                    /\ (Shell.buildNum img' <= Shell.buildNum img)%N)
     | None =>
         listedImages (Js.lines ["meshtastic-docker:v1.2.3-7";
                                 "meshtastic-docker:v1.10.0-1";
                                 "meshtastic-docker:v1.10.0-2"; ""]) = []
     end.
Proof.
  split; [reflexivity|].
  apply (proj2 (findImageForVersion_newest_image
    (Js.lines ["meshtastic-docker:v1.2.3-7"; "meshtastic-docker:v1.10.0-1";
               "meshtastic-docker:v1.10.0-2"; ""]) None eq_refl)).
  repeat constructor.
Defined.

Lemma trim_starts_nonblank c s :
  Js.isSpace c = false -> Js.isEmpty (Js.trim (String c s)) = false.
Proof. intros H. unfold Js.trim. simpl. rewrite H. simpl. by rewrite H. Qed.

Lemma parseImageLine_fullTag tag v buildNum :
  Build.matchVersion (Build.stripV tag) = Some v ->
  (buildNum < 2 ^ 53)%N ->
  Shell.parseImageLine (Batch.fullTagOf v buildNum)
  = Some (Shell.mkImage (Batch.fullTagOf v buildNum) v buildNum)
  /\ v <> "".
Proof.
  intros Hm Hb.
  destruct (matchVersion_spec _ _ Hm) as (_ & d1 & d2 & d3 & Hg & Hv).
  split.
  - unfold Shell.parseImageLine.
    change (Batch.fullTagOf v buildNum)
      with ("meshtastic-docker:v" +:+ v +:+ "-" +:+ Js.showN buildNum).
    rewrite (matchImageLine_app d1 d2 d3 v (Js.showN buildNum) Hg Hv
               (showN_digits _) (showN_nonempty _)).
    unfold Js.digitsNumber.
    by rewrite digitsValue_showN, nearestNumber_exact.
  - destruct Hg as ([_ Hn] & _).
    destruct d1 as [|c d1]; [done|].
    destruct Hv as [->|(p & -> & _)]; done.
Qed.

(** What [findImageForVersion] computes on a listing whose versions are
    valid, for a version that is asked for. *)
Lemma findImageForVersion_sorted stdout v :
  v <> "" ->
  Forall (fun img => Semver.valid (Shell.imageVersion img) = true)
         (listedImages stdout) ->
  Shell.findImageForVersion (Js.Return stdout) (Some v)
  = option_map Shell.image
      (find (fun img => String.eqb (Shell.imageVersion img) v)
            (PureSort.sort newestImageFirstPure (listedImages stdout))).
Proof.
  intros Hne Hvalid.
  assert (Htruthy : Shell.truthy (Some v) = true) by by destruct v.
  unfold Shell.findImageForVersion, Shell.findImageForVersion_try.
  cbn [Js.bind]. fold (listedImages stdout).
  by rewrite (sort_listedImages _ Hvalid), Htruthy.
Qed.

(** X12: the launcher finds what the first build script built.  When the
    listing holds the tag that script gives, with a build number below
    2^53, to the image of a version its pattern extracted, and the listed
    tags matching the locator's pattern all carry valid versions whose
    numeric prerelease identifiers are at most 2^53 and build numbers
    below 2^53, the locator asked for that version returns a listed image
    of that version, with a build number at least the one of the tag. *)
Theorem batch_built_image_is_found
    (stdout tag v : string) (buildNum : N) :
  Build.matchVersion (Build.stripV tag) = Some v ->
  (buildNum < 2 ^ 53)%N ->
  Batch.fullTagOf v buildNum ∈ Js.split "010" stdout ->
  safeImages (listedImages stdout) ->
  exists line img,
    Shell.findImageForVersion (Js.Return stdout) (Some v) = Some line
    /\ line ∈ Js.split "010" stdout
    /\ Shell.parseImageLine line = Some img
    /\ Shell.imageVersion img = v
    /\ (buildNum <= Shell.buildNum img)%N.
Proof.
  intros Hm Hsmall Hline Hok.
  destruct (parseImageLine_fullTag tag v buildNum Hm Hsmall) as [Hparse Hne].
  assert (Hin : Shell.mkImage (Batch.fullTagOf v buildNum) v buildNum
                  ∈ listedImages stdout).
  { unfold listedImages. apply list_elem_of_omap.
    exists (Batch.fullTagOf v buildNum). split; [|done].
    apply list_elem_of_filter. split; [|done].
    by apply trim_starts_nonblank. }
  destruct (locate_in_sorted _ v _ (safeImages_exact _ Hok) Hin eq_refl)
    as (img & Hfind & Himg & Hv & Hb).
  destruct (listedImages_line _ _ Himg) as [H1 H2].
  exists (Shell.image img), img. split_and!; try done.
  - rewrite (findImageForVersion_sorted _ _ Hne (safeImages_valid _ Hok)).
    by rewrite Hfind.
  - by apply (Hb _ Hin).
Qed.

(** X12, witness: the image of 2.7.16 built twice; the build 2 is found. *)
Lemma batch_built_image_is_found_witness :
  exists line img,
    Shell.findImageForVersion
      (Js.Return (Js.lines ["meshtastic-docker:v2.7.16-1";
                            "meshtastic-docker:v2.7.16-2";
                            "meshtastic-docker:v2.6.1-1"; ""]))
      (Some "2.7.16") = Some line
    /\ line = "meshtastic-docker:v2.7.16-2"
    /\ Shell.parseImageLine line = Some img
    /\ Shell.imageVersion img = "2.7.16"
    /\ (1 <= Shell.buildNum img)%N.
Proof.
  destruct (batch_built_image_is_found
    (Js.lines ["meshtastic-docker:v2.7.16-1"; "meshtastic-docker:v2.7.16-2";
               "meshtastic-docker:v2.6.1-1"; ""]) "v2.7.16" "2.7.16" 1)
    as (line & img & H1 & H2 & H3 & H4 & H5).
  - vm_compute. reflexivity.
  - reflexivity.
  - vm_compute. left.
  - repeat constructor.
  - exists line, img. split_and!; try done.
    vm_compute in H1. by injection H1 as <-.
Defined.

(** X18: for every non-empty desired version, the locator returns none
    when no listed tag parses to that version, whatever the listing holds.
    When the listed tags that match the pattern all carry a valid semantic
    version whose numeric prerelease identifiers are at most 2^53 and a
    build number below 2^53, and some listed tag parses to the desired
    version, it returns a listed image whose parsed version is the desired
    version, the one with the highest build number among the listed images
    of that version. *)
Theorem findImageForVersion_highest_build (stdout version : string) :
  version <> "" ->
  ((forall img, img ∈ listedImages stdout -> Shell.imageVersion img <> version) ->
   Shell.findImageForVersion (Js.Return stdout) (Some version) = None)
  /\ (safeImages (listedImages stdout) ->
      forall img0, img0 ∈ listedImages stdout ->
      Shell.imageVersion img0 = version ->
      exists img,
        Shell.findImageForVersion (Js.Return stdout) (Some version)
        = Some (Shell.image img)
        /\ img ∈ listedImages stdout
        /\ Shell.imageVersion img = version
        /\ forall img', img' ∈ listedImages stdout ->
             Shell.imageVersion img' = version ->
             (Shell.buildNum img' <= Shell.buildNum img)%N).
Proof.
  intros Hne. split; [by apply findImageForVersion_absent|].
  intros Hok img0 Hin Hv.
  destruct (locate_in_sorted _ version _ (safeImages_exact _ Hok) Hin Hv)
    as (img & Hfind & Himg & Hv' & Hb).
  exists img. split_and!; try done.
  rewrite (findImageForVersion_sorted _ _ Hne (safeImages_valid _ Hok)).
  by rewrite Hfind.
Qed.

(** X18, witness: three images, two of them of version 1.2.3; the build 4
    is returned. *)
Lemma findImageForVersion_highest_build_witness :
  exists img,
    Shell.findImageForVersion
      (Js.Return (Js.lines ["meshtastic-docker:v1.2.3-1";
                            "meshtastic-docker:v1.2.3-4";
                            "meshtastic-docker:v1.3.3-2"; ""]))
      (Some "1.2.3")
    = Some (Shell.image img)
    /\ Shell.image img = "meshtastic-docker:v1.2.3-4"
    /\ Shell.buildNum img = 4%N.
Proof.
  destruct (proj2 (findImageForVersion_highest_build
    (Js.lines ["meshtastic-docker:v1.2.3-1"; "meshtastic-docker:v1.2.3-4";
               "meshtastic-docker:v1.3.3-2"; ""]) "1.2.3" ltac:(discriminate))
    ltac:(repeat constructor)
    (Shell.mkImage "meshtastic-docker:v1.2.3-1" "1.2.3" 1)
    ltac:(vm_compute; left) eq_refl)
    as (img & H1 & H2 & H3 & H4).
  exists img. split; [exact H1|].
  assert (E : Shell.image img = "meshtastic-docker:v1.2.3-4").
  { assert (H0 : Shell.findImageForVersion
                   (Js.Return (Js.lines ["meshtastic-docker:v1.2.3-1";
                                         "meshtastic-docker:v1.2.3-4";
                                         "meshtastic-docker:v1.3.3-2"; ""]))
                   (Some "1.2.3")
                 = Some "meshtastic-docker:v1.2.3-4") by reflexivity.
    rewrite H1 in H0. by injection H0. }
  split; [exact E|].
  destruct (listedImages_line _ _ H2) as [_ Hp].
  rewrite E in Hp. vm_compute in Hp. by injection Hp as <-.
Defined.

(** ** The shell command *)

Lemma findOrBuild_sound w v line :
  Shell.findOrBuild w v = Js.Return (Some line) ->
  exists stdout img,
    (Shell.imagesBefore w = Js.Return stdout
     \/ Shell.imagesAfter w = Js.Return stdout)
    /\ line ∈ Js.split "010" stdout
    /\ Shell.parseImageLine line = Some img
    /\ (v <> "" -> Shell.imageVersion img = v).
Proof.
  unfold Shell.findOrBuild.
  destruct (Shell.findImageForVersion (Shell.imagesBefore w) (Some v))
    as [l|] eqn:E1.
  - intros [= ->].
    destruct (findImageForVersion_sound _ _ _ E1)
      as (stdout & img & H1 & H2 & _ & H3 & H4).
    exists stdout, img. split_and!; auto.
  - destruct (Shell.buildRun w); simpl; [|done]. intros [= E2].
    destruct (findImageForVersion_sound _ _ _ E2)
      as (stdout & img & H1 & H2 & _ & H3 & H4).
    exists stdout, img. split_and!; auto.
Qed.

(** X13: the shell command starts a container only on an image the
    locator found: the image is a line of one of the two image listings
    that the tag pattern accepts, of the version given as argument or, when
    none is given, of the first entry of the tag catalog.  The command then
    exits with the exit code of the container process ([code || 0]) or
    with 1 when the process cannot be spawned; when no container is started
    the command exits with status 1. *)
Theorem main_launches_only_located_image
    (w : Shell.World) (versionArg : option string) :
  match Shell.launched (Shell.main w versionArg) with
  | Some command =>
      exists line stdout img,
        command = ["docker"; "run"; "-it"; "--rm"; line; "bash"]
        /\ (Shell.imagesBefore w = Js.Return stdout
            \/ Shell.imagesAfter w = Js.Return stdout)
        /\ line ∈ Js.split "010" stdout
        /\ Shell.parseImageLine line = Some img
        /\ (forall v, versionArg = Some v -> v <> "" -> Shell.imageVersion img = v)
        /\ (Shell.truthy versionArg = false ->
            exists tags latest,
              Shell.fetchTags (Shell.tagListing w) = Js.Return tags
              /\ Shell.getLatestTag tags = Js.Return (Some latest)
              /\ (Shell.version latest <> "" ->
                  Shell.imageVersion img = Shell.version latest))
        /\ Shell.exitCode (Shell.main w versionArg)
           = match Shell.shellOutcome w with
             | Build.Close code => Shell.orZero code
             | Build.SpawnError _ => 1%Z
             end
  | None => Shell.exitCode (Shell.main w versionArg) = 1%Z
  end.
Proof.
  unfold Shell.main.
  destruct (Shell.resolveImage w versionArg) as [[line|]|] eqn:Hres; try done.
  assert (Hlaunch : Shell.launched (Shell.openShell w line)
                    = Some ["docker"; "run"; "-it"; "--rm"; line; "bash"]).
  { unfold Shell.openShell. by destruct (Shell.shellOutcome w). }
  rewrite Hlaunch.
  assert (Hexit : Shell.exitCode (Shell.openShell w line)
                  = match Shell.shellOutcome w with
                    | Build.Close code => Shell.orZero code
                    | Build.SpawnError _ => 1%Z
                    end).
  { unfold Shell.openShell. by destruct (Shell.shellOutcome w). }
  unfold Shell.resolveImage in Hres.
  destruct (Shell.truthy versionArg) eqn:Ht.
  - destruct (findOrBuild_sound _ _ _ Hres) as (stdout & img & H1 & H2 & H3 & H4).
    exists line, stdout, img. split_and!; try done.
    intros v -> Hv. by apply H4.
  - destruct (Shell.fetchTags (Shell.tagListing w)) as [tags|] eqn:Hf; [|done].
    cbn [Js.bind] in Hres.
    destruct (Shell.getLatestTag tags) as [[latest|]|] eqn:Hl; try done.
    cbn [Js.bind] in Hres.
    destruct (findOrBuild_sound _ _ _ Hres) as (stdout & img & H1 & H2 & H3 & H4).
    exists line, stdout, img. split_and!; try done.
    + intros v -> Hv. destruct v; done.
    + intros _. by exists tags, latest.
Qed.

(** ** The two scripts read the same catalog *)

Section SortFmap.
Context {A B : Type}.
Variable f : A -> B.
Variable cmpA : A -> A -> Js.result Z.
Variable cmpB : B -> B -> Js.result Z.
Hypothesis cmp_f : forall a b, cmpB (f a) (f b) = cmpA a b.

Lemma insert_fmap x l :
  JsArray.insert cmpB (f x) (f <$> l)
  = let* r := JsArray.insert cmpA x l in Js.Return (f <$> r).
Proof.
  induction l as [|y l IH]; [done|]. rewrite fmap_cons. simpl.
  rewrite cmp_f. destruct (cmpA x y) as [c|]; simpl; [|done].
  destruct (c <=? 0)%Z; [done|]. rewrite IH.
  by destruct (JsArray.insert cmpA x l).
Qed.

Lemma sort_fmap l :
  JsArray.sort cmpB (f <$> l)
  = let* s := JsArray.sort cmpA l in Js.Return (f <$> s).
Proof.
  induction l as [|x l IH]; [done|]. rewrite fmap_cons. simpl. rewrite IH.
  destruct (JsArray.sort cmpA l) as [s|]; simpl; [|done]. apply insert_fmap.
Qed.
End SortFmap.

Lemma filter_fmap {A B : Type} (f : A -> B) (P : B -> Prop)
    `{!forall y, Decision (P y)} (l : list A) :
  filter P (f <$> l) = f <$> filter (fun x => P (f x)) l.
Proof.
  induction l as [|x l IH]; [done|].
  rewrite fmap_cons, !filter_cons, IH. by destruct (decide (P (f x))).
Qed.

(** X14: the launcher and the builder read the same catalog from the same
    tags: the launcher's catalog holds the entries of the builder's, in the
    same order, and the latest version the launcher looks for, when it is
    given no version, is the one entry the builder selects for [latest]. *)
Theorem launcher_and_builder_agree_on_latest (tags : list string) :
  exists catalog,
    Build.getAllValidVersions tags = Js.Return catalog
    /\ Shell.getAllValidVersions tags = Js.Return (toShellEntry <$> catalog)
    /\ Build.getLatestTag tags = Js.Return (option_list (head catalog))
    /\ Shell.getLatestTag tags = Js.Return (toShellEntry <$> head catalog).
Proof.
  exists (PureSort.sort newestFirstPure (validEntries tags)).
  assert (Hshell : Shell.getAllValidVersions tags
    = Js.Return (toShellEntry <$> PureSort.sort newestFirstPure (validEntries tags))).
  { unfold Shell.getAllValidVersions.
    assert (map Shell.extractVersion tags
            = toShellEntry <$> map Build.extractVersion tags) as ->.
    { induction tags as [|t tags IH]; [done|]. simpl. by rewrite IH. }
    rewrite (filter_fmap toShellEntry).
    rewrite (sort_fmap toShellEntry Build.newestFirst) by done.
    change (Js.bind (Build.getAllValidVersions tags)
              (fun s => Js.Return (toShellEntry <$> s))
            = Js.Return (toShellEntry
                           <$> PureSort.sort newestFirstPure (validEntries tags))).
    by rewrite getAllValidVersions_pure. }
  split_and!.
  - apply getAllValidVersions_pure.
  - exact Hshell.
  - unfold Build.getLatestTag. rewrite getAllValidVersions_pure. simpl.
    by destruct (PureSort.sort _ _).
  - unfold Shell.getLatestTag. rewrite Hshell. simpl.
    by destruct (PureSort.sort _ _).
Qed.

(** ** The batches of the first build script *)

Lemma batchLoop_spec outcomes versions buildNum maxParallel fuel :
  1 <= maxParallel ->
  forall i results,
    length versions - i <= fuel ->
    Batch.batchLoop fuel outcomes versions buildNum maxParallel i results
    = Some (results
            ++ imap (fun j e =>
                       Batch.buildImage (outcomes (i + j)) (Build.tag e)
                         (Build.version e) buildNum)
                    (drop i versions)).
Proof.
  intros Hmp. induction fuel as [|fuel IH]; intros i results Hfuel.
  - simpl. destruct (i <? length versions) eqn:E.
    + apply Nat.ltb_lt in E. lia.
    + apply Nat.ltb_ge in E. by rewrite drop_ge, app_nil_r.
  - simpl. destruct (i <? length versions) eqn:E.
    + apply Nat.ltb_lt in E. rewrite IH by lia. f_equal.
      rewrite <- app_assoc. f_equal. unfold Batch.buildBatch.
      rewrite <- (take_drop maxParallel (drop i versions)) at 2.
      rewrite imap_app, drop_drop. f_equal.
      destruct (decide (maxParallel <= length (drop i versions))) as [Hle|Hgt].
      * rewrite length_take_le by done. apply imap_ext. intros j e _.
        simpl. by rewrite Nat.add_assoc.
      * rewrite (drop_ge versions (i + maxParallel)); [done|].
        rewrite length_drop in Hgt. lia.
    + apply Nat.ltb_ge in E. by rewrite drop_ge, app_nil_r.
Qed.

Lemma batchLoop_zero outcomes versions buildNum fuel :
  versions <> [] ->
  forall results,
    Batch.batchLoop fuel outcomes versions buildNum 0 0 results = None.
Proof.
  intros Hne. induction fuel as [|fuel IH]; intros results; simpl;
    destruct versions; try done. simpl. apply IH.
Qed.

(** X15: with a batch size of at least one, [buildInBatches] ends within
    as many iterations as there are versions and returns one result per
    version, in plan order, the result at each position being that of the
    build spawned at that position: the same list for every batch size, in
    particular for the script's size of 3.  With a batch size of 0 and a
    non-empty plan the loop never ends. *)
Theorem buildInBatches_one_result_per_version
    (outcomes : nat -> Build.ProcessOutcome) (versions : list Build.VersionEntry)
    (buildNum : N) (maxParallel fuel : nat) :
  (1 <= maxParallel -> length versions <= fuel ->
   Batch.buildInBatches fuel outcomes versions buildNum maxParallel
   = Some (imap (fun j e =>
                   Batch.buildImage (outcomes j) (Build.tag e) (Build.version e)
                     buildNum) versions))
  /\ Batch.buildInBatches (length versions) outcomes versions buildNum
       Batch.MAX_PARALLEL
     = Some (imap (fun j e =>
                     Batch.buildImage (outcomes j) (Build.tag e) (Build.version e)
                       buildNum) versions)
  /\ (versions <> [] ->
      Batch.buildInBatches fuel outcomes versions buildNum 0 = None).
Proof.
  unfold Batch.buildInBatches. split_and!.
  - intros Hmp Hfuel. rewrite batchLoop_spec by (done || lia). by rewrite drop_0.
  - rewrite batchLoop_spec by (unfold Batch.MAX_PARALLEL; lia). by rewrite drop_0.
  - intros Hne. by apply batchLoop_zero.
Qed.

(** X15, witness: four versions in batches of three, the third build
    failing. *)
Lemma buildInBatches_one_result_per_version_witness :
  Batch.buildInBatches 4
    (fun j => if bool_decide (j = 2) then Build.Close (Some 1%Z)
              else Build.Close (Some 0%Z))
    [Build.mkEntry "v2.7.16" "2.7.16"; Build.mkEntry "v2.7.15" "2.7.15";
     Build.mkEntry "v2.6.1" "2.6.1"; Build.mkEntry "v2.6.0" "2.6.0"] 1 3
  = Some (imap (fun j e =>
                  Batch.buildImage
                    (if bool_decide (j = 2) then Build.Close (Some 1%Z)
                     else Build.Close (Some 0%Z))
                    (Build.tag e) (Build.version e) 1)
            [Build.mkEntry "v2.7.16" "2.7.16"; Build.mkEntry "v2.7.15" "2.7.15";
             Build.mkEntry "v2.6.1" "2.6.1"; Build.mkEntry "v2.6.0" "2.6.0"]).
Proof.
  apply (proj1 (buildInBatches_one_result_per_version
    (fun j => if bool_decide (j = 2) then Build.Close (Some 1%Z)
              else Build.Close (Some 0%Z))
    [Build.mkEntry "v2.7.16" "2.7.16"; Build.mkEntry "v2.7.15" "2.7.15";
     Build.mkEntry "v2.6.1" "2.6.1"; Build.mkEntry "v2.6.0" "2.6.0"] 1 3 4)).
  - lia.
  - simpl. lia.
Defined.

(** ** Reading the tag listing *)

Lemma split_no_separator sep s t :
  t ∈ Js.split sep s ->
  Js.allChars (fun c => negb (Ascii.eqb c sep)) t = true.
Proof.
  revert t. induction s as [|c s IH]; intros t; simpl.
  - by intros ->%list_elem_of_singleton.
  - destruct (Ascii.eqb c sep) eqn:E.
    + intros [->|Ht]%elem_of_cons; [done|by apply IH].
    + destruct (Js.split sep s) as [|w ws] eqn:Hs.
      * intros ->%list_elem_of_singleton. simpl. by rewrite E.
      * intros [->|Ht]%elem_of_cons.
        -- simpl. rewrite E. simpl. apply IH. left.
        -- apply IH. by right.
Qed.

Lemma split_whole sep w :
  Js.allChars (fun c => negb (Ascii.eqb c sep)) w = true ->
  Js.split sep w = [w].
Proof.
  induction w as [|c w IH]; [done|]. simpl.
  intros [Hc Hw]%andb_prop. apply negb_true_iff in Hc.
  by rewrite Hc, (IH Hw).
Qed.

Lemma split_app_separator sep w rest :
  Js.allChars (fun c => negb (Ascii.eqb c sep)) w = true ->
  Js.split sep (w +:+ String sep rest) = w :: Js.split sep rest.
Proof.
  induction w as [|c w IH]; simpl.
  - intros _. rewrite ?append_nil. simpl. by rewrite Ascii.eqb_refl.
  - intros [Hc Hw]%andb_prop. apply negb_true_iff in Hc.
    rewrite ?append_cons. simpl. by rewrite Hc, (IH Hw).
Qed.

(** Splitting the lines of a text gives the lines back. *)
Lemma split_lines l :
  l <> [] ->
  Forall (fun t => Js.allChars (fun c => negb (Ascii.eqb c "010")) t = true) l ->
  Js.split "010" (Js.lines l) = l.
Proof.
  intros Hne Hall. induction Hall as [|w l Hw Hall IH]; [done|].
  destruct l as [|w' l].
  - simpl. by apply split_whole.
  - change (Js.lines (w :: w' :: l))
      with (w +:+ String "010" (Js.lines (w' :: l))).
    rewrite split_app_separator by done. by rewrite IH.
Qed.

Lemma filter_all {A : Type} (P : A -> Prop) `{!forall x, Decision (P x)}
    (l : list A) :
  Forall P l -> filter P l = l.
Proof.
  induction 1 as [|x l Hx Hl IH]; [done|].
  by rewrite filter_cons_True, IH.
Qed.

(** X16: [fetchTags] turns a failed tag listing into one fixed error.  Of
    a listing that succeeded it returns the lines that are not blank, in
    the order of the listing, none of them holding a line feed; a listing
    that prints tags (not blank, without line feed) one per line, each
    ended by a line feed, is read back as exactly those tags.  The launcher
    reads the listing with the same function. *)
Theorem fetchTags_reads_lines :
  (forall msg,
     Build.fetchTags (Js.Throw msg)
     = Js.Throw "Failed to fetch tags from firmware submodule. Make sure the submodule is initialized.")
  /\ (forall stdout,
        exists tags,
          Build.fetchTags (Js.Return stdout) = Js.Return tags
          /\ tags `sublist_of` Js.split "010" stdout
          /\ Forall (fun t =>
                       Js.isEmpty (Js.trim t) = false
                       /\ Js.allChars (fun c => negb (Ascii.eqb c "010")) t = true)
                    tags)
  /\ (forall tags,
        Forall (fun t =>
                  Js.isEmpty (Js.trim t) = false
                  /\ Js.allChars (fun c => negb (Ascii.eqb c "010")) t = true)
               tags ->
        Build.fetchTags (Js.Return (Js.lines (tags ++ [""]))) = Js.Return tags)
  /\ (forall listing, Shell.fetchTags listing = Build.fetchTags listing).
Proof.
  split_and!; try done.
  - intros stdout. eexists. split; [done|]. split; [apply sublist_filter|].
    apply Forall_forall. intros t [Hb Ht]%list_elem_of_filter.
    split; [done|]. by eapply split_no_separator.
  - intros tags Hall. unfold Build.fetchTags.
    rewrite split_lines.
    + rewrite filter_app, filter_all; [by rewrite app_nil_r|].
      eapply Forall_impl; [exact Hall|]. by intros t [? _].
    + by destruct tags.
    + apply Forall_app. split; [|by repeat constructor].
      eapply Forall_impl; [exact Hall|]. by intros t [_ ?].
Qed.

(** X16, witness: three tags, one per line. *)
Lemma fetchTags_reads_lines_witness :
  Build.fetchTags (Js.Return (Js.lines (["v2.7.16"; "v2.7.15"; "nightly"] ++ [""])))
  = Js.Return ["v2.7.16"; "v2.7.15"; "nightly"].
Proof.
  apply (proj1 (proj2 (proj2 fetchTags_reads_lines))
           ["v2.7.16"; "v2.7.15"; "nightly"]).
  repeat constructor.
Defined.

(** ** What the version pattern keeps *)

Lemma matchVersion_fixed d1 d2 d3 v :
  digitGroups d1 d2 d3 ->
  (v = Js.tripleText d1 d2 d3
   \/ exists p, v = Js.tripleText d1 d2 d3 +:+ "-" +:+ p
                /\ Js.allChars Js.isWordDotDash p = true
                /\ Js.isEmpty p = false) ->
  Build.matchVersion v = Some v /\ Build.stripV v = v.
Proof.
  intros Hg Hv. split.
  - unfold Build.matchVersion. destruct Hv as [->|(p & -> & Hp & Hn)].
    + rewrite <- (string_app_nil_r (Js.tripleText d1 d2 d3)) at 1.
      by rewrite (matchTriple_app d1 d2 d3 "" Hg).
    + rewrite (matchTriple_app d1 d2 d3 ("-" +:+ p) Hg) by done.
      change (Js.matchChar "-" ("-" +:+ p)) with (Some p). cbv beta iota.
      by rewrite (span_all _ _ Hp), Hn.
  - destruct Hg as ([Hd Hn] & _). destruct d1 as [|c d1]; [done|].
    simpl in Hd. apply andb_prop in Hd as [Hc _].
    assert (Hstart : exists s, v = String c s).
    { destruct Hv as [->|(p & -> & _)]; by eexists. }
    destruct Hstart as [s ->]. unfold Build.stripV, Js.matchChar.
    destruct (Ascii.eqb_spec "v" c) as [<-|]; done.
Qed.

(** X17: an entry keeps its tag unchanged, and its version is a prefix of
    the tag without its leading [v].  When the version pattern matches,
    the version is what the pattern extracts, and extracting again from
    that version changes nothing. *)
Theorem extractVersion_prefix_of_tag (tag : string) :
  Build.tag (Build.extractVersion tag) = tag
  /\ (exists rest,
        Build.stripV tag = Build.version (Build.extractVersion tag) +:+ rest)
  /\ (forall v,
        Build.matchVersion (Build.stripV tag) = Some v ->
        Build.version (Build.extractVersion tag) = v
        /\ Build.extractVersion v = Build.mkEntry v v).
Proof.
  unfold Build.extractVersion at 1 2. simpl. split; [done|].
  destruct (Build.matchVersion (Build.stripV tag)) as [v|] eqn:Hm.
  - destruct (matchVersion_spec _ _ Hm) as (Hrest & d1 & d2 & d3 & Hg & Hv).
    split; [done|]. intros v' [= <-]. split; [done|].
    destruct (matchVersion_fixed _ _ _ _ Hg Hv) as [H1 H2].
    unfold Build.extractVersion. by rewrite H2, H1.
  - split; [|done]. exists "". by rewrite string_app_nil_r.
Qed.

(** X17, witness: a tag with a commit suffix and build metadata. *)
Lemma extractVersion_prefix_of_tag_witness :
  Build.version (Build.extractVersion "v2.7.16-gabc123+dirty") = "2.7.16-gabc123"
  /\ Build.extractVersion "2.7.16-gabc123"
     = Build.mkEntry "2.7.16-gabc123" "2.7.16-gabc123".
Proof.
  apply (proj2 (proj2 (extractVersion_prefix_of_tag "v2.7.16-gabc123+dirty"))
           "2.7.16-gabc123").
  vm_compute. reflexivity.
Defined.

(** X1, witness: the latest of three tags is listed second. *)
Lemma getLatestTag_newest_first_listed_witness :
  exists out,
    Build.getLatestTag ["v2.7.15"; "v2.7.16"; "2.7.16"] = Js.Return out
    /\ out = [Build.mkEntry "v2.7.16" "2.7.16"]
    /\ forall e, e ∈ out ->
         forall e', e' ∈ validEntries ["v2.7.15"; "v2.7.16"; "2.7.16"] ->
           notOlder (Build.version e) (Build.version e').
Proof.
  destruct (getLatestTag_newest_first_listed ["v2.7.15"; "v2.7.16"; "2.7.16"])
    as (out & H1 & _ & _ & _ & H5 & _).
  exists out. split; [exact H1|]. split.
  - vm_compute in H1. by injection H1 as <-.
  - intros e He. apply (H5 ltac:(repeat constructor) e He).
Defined.


(** X13, witness: no image of the version is listed and the build
    fails. *)
Lemma main_launches_only_located_image_witness :
  Shell.exitCode
    (Shell.main
       (Shell.mkWorld (Js.Return "") (Js.Return "") (Js.Return "")
          (Js.Throw "Command failed: bun run build 2.7.16")
          (Build.Close (Some 0%Z)))
       (Some "2.7.16"))
  = 1%Z.
Proof.
  exact (main_launches_only_located_image
    (Shell.mkWorld (Js.Return "") (Js.Return "") (Js.Return "")
       (Js.Throw "Command failed: bun run build 2.7.16")
       (Build.Close (Some 0%Z)))
    (Some "2.7.16")).
Defined.
